(** * cxresume: the split-view session picker and its preview formatter

    A shallow embedding of
      - [src/utils/preview.js]   (selectRecentDialogMessages, formatPreviewBlocks)
      - [src/tui/splitPicker.js] (buildDialogPreviewBlocks, pickSessionSplitTUI)

    JavaScript strings are lists of code points ([for (const ch of line)]
    iterates code points); numbers that the code only uses as integers
    are [Z]; [Map]s are [gmap]s keyed by the string the code uses as key.

    The picker is a record of the variables [pickSessionSplitTUI] closes
    over and a step function over the events it reacts to (keys, the
    text box's submit, clicks, resizes, turns of the prefetch workers).
    The libraries are parameters: string-width, dayjs and chalk as
    functions, the file system as the [World] a step runs in.  Of the
    widgets, the rows of the list, the preview pane and the open
    overlays are kept; the header, the info line, scroll positions, the
    clipboard and the [currentDirOnly] prefilter are not.

    A step runs its handler to the end, every awaited call settling at
    once; the loads of summary, metadata and preview are given a second
    time cut at their await, to follow a load that resumes after other
    events.  The formatter is given a second time as a program on a
    heap of arrays and records whose library calls happen in an outside
    world, to state that it is pure.  Of the command line
    (shellQuoteSingleArg, buildResumeCommand, parseArgs) the parts that
    feed and follow the picker are embedded. *)

From Stdlib Require Import ZArith List Lia String Ascii Floats Uint63.
From stdpp Require Import base option list gmap.

Local Open Scope Z_scope.

(** ** JavaScript strings *)

Definition jsstring := list N.

(** A string literal of the source (ASCII only). *)
Definition lit (s : string) : jsstring :=
  map N_of_ascii (list_ascii_of_string s).

Definition NL : N := 10%N.
Definition CR : N := 13%N.
Definition SPACE : N := 32%N.
Definition COLON : N := 58%N.
(** U+2503, the heavy vertical bar that prefixes every preview line. *)
Definition BAR : N := 9475%N.
(** U+2026, the ellipsis of the 'Loading…' placeholder. *)
Definition ELLIPSIS : N := 8230%N.

Definition isEmpty {A} (l : list A) : bool :=
  match l with [] => true | _ => false end.

(** [s.split(sep)] for a one-character separator: never returns []. *)
Fixpoint splitOn {A} `{EqDecision A} (sep : A) (s : list A) : list (list A) :=
  match s with
  | [] => [[]]
  | c :: rest =>
      if decide (c = sep) then [] :: splitOn sep rest
      else match splitOn sep rest with
           | l :: ls => (c :: l) :: ls
           | [] => [[c]]
           end
  end.

(** [parts.join(sep)]. *)
Fixpoint joinWith {A} (sep : list A) (parts : list (list A)) : list A :=
  match parts with
  | [] => []
  | [p] => p
  | p :: rest => p ++ sep ++ joinWith sep rest
  end.

(** [s.startsWith(p)]. *)
Fixpoint startsWith (p s : jsstring) : bool :=
  match p, s with
  | [], _ => true
  | a :: p', b :: s' => if decide (a = b) then startsWith p' s' else false
  | _ :: _, [] => false
  end.

(** [String(n)] for an integer. *)
Fixpoint uintChars (d : Decimal.uint) : jsstring :=
  match d with
  | Decimal.Nil => []
  | Decimal.D0 d => 48%N :: uintChars d
  | Decimal.D1 d => 49%N :: uintChars d
  | Decimal.D2 d => 50%N :: uintChars d
  | Decimal.D3 d => 51%N :: uintChars d
  | Decimal.D4 d => 52%N :: uintChars d
  | Decimal.D5 d => 53%N :: uintChars d
  | Decimal.D6 d => 54%N :: uintChars d
  | Decimal.D7 d => 55%N :: uintChars d
  | Decimal.D8 d => 56%N :: uintChars d
  | Decimal.D9 d => 57%N :: uintChars d
  end.

Definition showZ (z : Z) : jsstring :=
  match Z.to_int z with
  | Decimal.Pos d => uintChars d
  | Decimal.Neg d => 45%N :: uintChars d
  end.

(** [arr[i]] for a JavaScript number [i]: [undefined] out of range. *)
Definition nthZ {A} (l : list A) (i : Z) : option A :=
  if i <? 0 then None else l !! Z.to_nat i.

Definition lengthZ {A} (l : list A) : Z := Z.of_nat (length l).

(** [arr.slice(start, end)] with the relative-index rule of the language. *)
Definition jsSlice {A} (l : list A) (start stop : Z) : list A :=
  let len := lengthZ l in
  let k := if start <? 0 then Z.max (len + start) 0 else Z.min start len in
  let fin := if stop <? 0 then Z.max (len + stop) 0 else Z.min stop len in
  take (Z.to_nat (fin - k)) (drop (Z.to_nat k) l).

(** ** Terminal text

    What the formatter returns is written to the terminal: characters,
    and the colour escape sequences chalk puts around a string, which
    take no column. *)

Inductive cell :=
| Ch (c : N)
| Sgr (code : jsstring).

Definition text := list cell.

#[global] Instance cell_eq_dec : EqDecision cell.
Proof. solve_decision. Defined.

Definition plain (s : jsstring) : text := map Ch s.

(** strip-ansi: the characters left when the escape sequences are removed. *)
Fixpoint stripAnsi (t : text) : jsstring :=
  match t with
  | [] => []
  | Ch c :: r => c :: stripAnsi r
  | Sgr _ :: r => stripAnsi r
  end.

(** The visual lines of an output string. *)
Definition visualLines (t : text) : list text := splitOn (Ch NL) t.

(** ** Session data *)

(** A record of a parsed session log; [timestamp = None] is a falsy
    timestamp, otherwise the instant [new Date(m.timestamp)] denotes. *)
Record Message := mkMessage {
  role : jsstring;
  mtext : jsstring;
  timestamp : option Z
}.

Definition roleUser : jsstring := lit "user".
Definition roleAssistant : jsstring := lit "assistant".

Definition isDialog (m : Message) : bool :=
  bool_decide (role m = roleUser) || bool_decide (role m = roleAssistant).

(** THEME of preview.js *)
Definition THEME_gray : jsstring := lit "#808080".
Definition THEME_green : jsstring := lit "#5af78e".
Definition THEME_orange : jsstring := lit "#ff9500".

(** ** utils/preview.js *)

(** [limit = None] is [Number.POSITIVE_INFINITY]. *)
Definition belowLimit (n : nat) (limit : option nat) : bool :=
  match limit with
  | None => true
  | Some k => (n <? k)%nat
  end.

(** The backwards loop of selectRecentDialogMessages over
    [messages[length-1] .. messages[0]]; [subset.push] appends. *)
Fixpoint collectRecent (limit : option nat) (backwards : list (option Message))
    (subset : list Message) : list Message :=
  match backwards with
  | [] => subset
  | m :: rest =>
      if belowLimit (length subset) limit then
        match m with
        | None => collectRecent limit rest subset
        | Some m =>
            if isDialog m
            then collectRecent limit rest
                   (subset ++ [mkMessage (role m) (mtext m) (timestamp m)])
            else collectRecent limit rest subset
        end
      else subset
  end.

Definition selectRecentDialogMessages (messages : list (option Message))
    (limit : option nat) : list Message :=
  rev (collectRecent limit (rev messages) []).

(** What the loop pushes for one record, if anything. *)
Definition dialogEntry (m : option Message) : option Message :=
  match m with
  | Some m => if isDialog m
              then Some (mkMessage (role m) (mtext m) (timestamp m))
              else None
  | None => None
  end.

(** The role of a record of the log ([None] for a null record). *)
Definition roleOf (m : option Message) : option jsstring := role <$> m.

Section Formatter.

(** The libraries the formatter calls:
    - [stringWidth]: string-width, the display columns of a string;
    - [fmtTime t]: [dayjs(t).format('HH:mm:ss')];
    - [chalkHex colour s]: [chalk.hex(colour)(s)]. *)
Variable stringWidth : jsstring -> nat.
Variable fmtTime : Z -> jsstring.
Variable chalkHex : jsstring -> jsstring -> text.

(** Display columns of a line on the terminal. *)
Definition displayWidth (t : text) : nat := stringWidth (stripAnsi t).

(** The width the loop of wrapPlainLine accumulates. *)
Fixpoint charSum (s : jsstring) : nat :=
  match s with
  | [] => 0%nat
  | c :: r => (stringWidth [c] + charSum r)%nat
  end.

(** The [for (const ch of line)] loop of wrapPlainLine. *)
Fixpoint wrapLoop (maxWidth : Z) (chars : jsstring)
    (result : list jsstring) (cur : jsstring) (width : nat)
    : list jsstring * jsstring :=
  match chars with
  | [] => (result, cur)
  | ch :: rest =>
      let w := stringWidth [ch] in
      if (Z.of_nat (width + w) >? maxWidth) && negb (isEmpty cur)
      then wrapLoop maxWidth rest (result ++ [cur]) [ch] w
      else wrapLoop maxWidth rest result (cur ++ [ch]) (width + w)%nat
  end.

Definition wrapPlainLine (line : jsstring) (maxWidth : Z) : list jsstring :=
  let '(result, cur) := wrapLoop maxWidth line [] [] 0%nat in
  if negb (isEmpty cur) || isEmpty line then result ++ [cur] else result.

(** [chalk ? chalk.hex(c)(s) : s] *)
Definition paint (chalk : option (jsstring -> jsstring -> text))
    (colour s : jsstring) : text :=
  match chalk with
  | Some hex => hex colour s
  | None => plain s
  end.

(** The lines one item pushes to [out]. *)
Definition blockLines (chalk : option (jsstring -> jsstring -> text))
    (wrapWidth : option Z) (it : Message) : list text :=
  let ts := match timestamp it with Some t => fmtTime t | None => [] end in
  let isUser := bool_decide (role it = roleUser) in
  let roleLabel := if isUser then lit "User" else lit "AI" in
  let colorHex := if isUser then THEME_orange else THEME_green in
  let bar := paint chalk colorHex [BAR] in
  let barPrefix := bar ++ [Ch SPACE] in
  let prefixWidth := Z.of_nat (stringWidth [BAR; SPACE]) in
  let roleStr := paint chalk colorHex roleLabel in
  let timeStr := paint chalk THEME_gray ts in
  let header := barPrefix ++ roleStr ++ [Ch SPACE] ++ timeStr in
  let body := mtext it in
  let rawLines := splitOn NL body in
  let contentWidth :=
    match wrapWidth with
    | Some w => if w >? prefixWidth + 1 then Some (w - prefixWidth) else None
    | None => None
    end in
  let bodyLines :=
    flat_map (fun raw =>
      match contentWidth with
      | None => [barPrefix ++ plain raw]
      | Some cw => map (fun seg => barPrefix ++ plain seg) (wrapPlainLine raw cw)
      end) rawLines in
  header :: bodyLines ++ [[]].

Definition formatPreviewLinesOut (items : list Message)
    (chalk : option (jsstring -> jsstring -> text)) (wrapWidth : option Z)
    : list text :=
  flat_map (blockLines chalk wrapWidth) items.

Definition formatPreviewBlocks (items : list Message)
    (chalk : option (jsstring -> jsstring -> text)) (wrapWidth : option Z)
    : text :=
  joinWith [Ch NL] (formatPreviewLinesOut items chalk wrapWidth).

(** ** tui/splitPicker.js: buildDialogPreviewBlocks *)

Definition includes (hide : list jsstring) (r : jsstring) : bool :=
  bool_decide (r ∈ hide).

Definition keptByHide (hide : list jsstring) (it : Message) : bool :=
  if bool_decide (role it = roleUser) && includes hide roleUser then false
  else if bool_decide (role it = roleAssistant) && includes hide roleAssistant
       then false
       else true.

(** [safeString(it.text).replace(/\r/g, '')] *)
Definition dropCR (s : jsstring) : jsstring :=
  filter (fun c => c ≠ CR) s.

Definition previewItems (messages : list (option Message))
    (hide : list jsstring) : list Message :=
  map (fun it => mkMessage (role it) (dropCR (mtext it)) (timestamp it))
      (filter (fun it => keptByHide hide it = true)
              (selectRecentDialogMessages messages None)).

Definition buildDialogPreviewBlocks (messages : list (option Message))
    (hide : list jsstring) (wrapWidth : option Z) : text :=
  formatPreviewBlocks (previewItems messages hide) (Some chalkHex) wrapWidth.

End Formatter.

(** ** Numbers

    [Math.floor(totalW * 0.35)] is a binary64 product: 180 * 0.35 is
    62.99999999999999, so the floor is 62 and not 63.  The kernel's
    primitive floats compute it as the program does (widths are far
    below 2^53, where the conversion is exact). *)

Definition floatOfZ (z : Z) : PrimFloat.float :=
  if z <? 0 then PrimFloat.opp (PrimFloat.of_uint63 (Uint63.of_Z (- z)))
  else PrimFloat.of_uint63 (Uint63.of_Z z).

(** [Math.floor] of a finite double. *)
Definition floorFloat (x : PrimFloat.float) : Z :=
  match FloatOps.Prim2SF x with
  | SpecFloat.S754_finite s m e =>
      let mz := Z.pos m in
      if e >=? 0 then (if s then - (mz * 2 ^ e) else mz * 2 ^ e)
      else let d := 2 ^ (- e) in
           if s then - ((mz + d - 1) / d) else mz / d
  | _ => 0
  end.

Definition floorScale35 (w : Z) : Z :=
  floorFloat (PrimFloat.mul (floatOfZ w) 0x1.6666666666666p-2%float).

(** [Math.ceil(n / d)] for integers [n >= 0], [d > 0] (exact below 2^53). *)
Definition ceilDiv (n d : Z) : Z := (n + d - 1) / d.

(** ** The picker's data *)

Record SessionFile := mkFile {
  path : jsstring;
  rel : jsstring;
  mtime : Z
}.

(** What extractSessionMetaQuick yields; an absent or empty field is falsy. *)
Record Meta := mkMeta {
  metaId : option jsstring;
  metaCwd : option jsstring;
  metaStartTime : option Z
}.

(** An entry of msgSummaryCache: [{ count, lastRole }]. *)
Record Summary := mkSummary {
  sumCount : Z;
  sumLastRole : jsstring
}.

(** What parseSessionFile yields. *)
Record Parsed := mkParsed {
  parsedMeta : option Meta;
  parsedMessages : list (option Message)
}.

(** The world outside the picker, as seen by one handler run: every
    awaited call settles with the value given here ([None], [inr]: it
    rejects). *)
Record World := mkWorld {
  extractSessionMetaQuick : jsstring -> option Meta;
  parseSessionFile : jsstring -> Parsed + jsstring;
  unlink : jsstring -> option jsstring   (* [Some message]: unlink threw *)
}.

Record Options := mkOptions {
  hide : list jsstring;
  workspaceMode : bool
}.

(** The value the picker's promise resolves with; [None] is [null]. *)
Inductive Action :=
| Resume (filePath : jsstring) (extraArgs : jsstring)
| StartNew (workingDir : option jsstring) (extraArgs : jsstring)
| WorkspaceCreate.

(** The overlays the picker opens on top of the two panes. A
    confirmation and a failure notice carry what the suspended
    deleteSelectedFile call resumes with. *)
Inductive Overlay :=
| EditOptionsBox (value : jsstring)
| ConfirmDelete (f : SessionFile) (shownId : jsstring) (selected : Z)
| DeleteFailed (f : SessionFile) (message : jsstring).

(** A list row shows what it was last rendered from. *)
Record RowBox := mkRow {
  rowFile : SessionFile;
  rowMeta : option Meta;
  rowSummary : option Summary
}.

Inductive CacheName := MetaCache | SummaryCache | PreviewCache.

(** [f.path] evaluated on [undefined]. *)
Inductive Fault := UndefinedFile (site : string).

#[global] Instance SessionFile_eq_dec : EqDecision SessionFile.
Proof. solve_decision. Defined.
#[global] Instance CacheName_eq_dec : EqDecision CacheName.
Proof. solve_decision. Defined.

(** The variables [pickSessionSplitTUI] closes over, the widgets'
    contents that depend on them, and two records of what happened:
    the cache lookups made ([cacheReads]) and the exceptions raised
    ([faults]). *)
Record State := mkState {
  visibleFiles : list SessionFile;
  currentPage : Z;
  pageItems : list SessionFile;
  selectedIndex : Z;
  itemBoxes : list RowBox;
  metaCache : gmap jsstring Meta;
  msgSummaryCache : gmap jsstring Summary;
  previewCache : gmap jsstring text;
  destroyed : bool;
  fullView : bool;
  modalActive : bool;
  editedArgs : jsstring;
  totalW : Z;
  leftW : Z;
  screenWidth : Z;            (* screen.width, owned by the terminal *)
  previewContent : text;      (* preview.setContent *)
  idxLoad : Z;
  idxSum : Z;
  metaWorkers : nat;          (* worker loops that have not returned *)
  sumWorkers : nat;
  overlays : list Overlay;    (* innermost (focused) first *)
  resolved : option (option Action);
  cacheReads : list (CacheName * jsstring);
  faults : list Fault
}.

Definition set_visibleFiles v s := mkState v (currentPage s) (pageItems s) (selectedIndex s) (itemBoxes s) (metaCache s) (msgSummaryCache s) (previewCache s) (destroyed s) (fullView s) (modalActive s) (editedArgs s) (totalW s) (leftW s) (screenWidth s) (previewContent s) (idxLoad s) (idxSum s) (metaWorkers s) (sumWorkers s) (overlays s) (resolved s) (cacheReads s) (faults s).
Definition set_currentPage v s := mkState (visibleFiles s) v (pageItems s) (selectedIndex s) (itemBoxes s) (metaCache s) (msgSummaryCache s) (previewCache s) (destroyed s) (fullView s) (modalActive s) (editedArgs s) (totalW s) (leftW s) (screenWidth s) (previewContent s) (idxLoad s) (idxSum s) (metaWorkers s) (sumWorkers s) (overlays s) (resolved s) (cacheReads s) (faults s).
Definition set_pageItems v s := mkState (visibleFiles s) (currentPage s) v (selectedIndex s) (itemBoxes s) (metaCache s) (msgSummaryCache s) (previewCache s) (destroyed s) (fullView s) (modalActive s) (editedArgs s) (totalW s) (leftW s) (screenWidth s) (previewContent s) (idxLoad s) (idxSum s) (metaWorkers s) (sumWorkers s) (overlays s) (resolved s) (cacheReads s) (faults s).
Definition set_selectedIndex v s := mkState (visibleFiles s) (currentPage s) (pageItems s) v (itemBoxes s) (metaCache s) (msgSummaryCache s) (previewCache s) (destroyed s) (fullView s) (modalActive s) (editedArgs s) (totalW s) (leftW s) (screenWidth s) (previewContent s) (idxLoad s) (idxSum s) (metaWorkers s) (sumWorkers s) (overlays s) (resolved s) (cacheReads s) (faults s).
Definition set_itemBoxes v s := mkState (visibleFiles s) (currentPage s) (pageItems s) (selectedIndex s) v (metaCache s) (msgSummaryCache s) (previewCache s) (destroyed s) (fullView s) (modalActive s) (editedArgs s) (totalW s) (leftW s) (screenWidth s) (previewContent s) (idxLoad s) (idxSum s) (metaWorkers s) (sumWorkers s) (overlays s) (resolved s) (cacheReads s) (faults s).
Definition set_metaCache v s := mkState (visibleFiles s) (currentPage s) (pageItems s) (selectedIndex s) (itemBoxes s) v (msgSummaryCache s) (previewCache s) (destroyed s) (fullView s) (modalActive s) (editedArgs s) (totalW s) (leftW s) (screenWidth s) (previewContent s) (idxLoad s) (idxSum s) (metaWorkers s) (sumWorkers s) (overlays s) (resolved s) (cacheReads s) (faults s).
Definition set_msgSummaryCache v s := mkState (visibleFiles s) (currentPage s) (pageItems s) (selectedIndex s) (itemBoxes s) (metaCache s) v (previewCache s) (destroyed s) (fullView s) (modalActive s) (editedArgs s) (totalW s) (leftW s) (screenWidth s) (previewContent s) (idxLoad s) (idxSum s) (metaWorkers s) (sumWorkers s) (overlays s) (resolved s) (cacheReads s) (faults s).
Definition set_previewCache v s := mkState (visibleFiles s) (currentPage s) (pageItems s) (selectedIndex s) (itemBoxes s) (metaCache s) (msgSummaryCache s) v (destroyed s) (fullView s) (modalActive s) (editedArgs s) (totalW s) (leftW s) (screenWidth s) (previewContent s) (idxLoad s) (idxSum s) (metaWorkers s) (sumWorkers s) (overlays s) (resolved s) (cacheReads s) (faults s).
Definition set_destroyed v s := mkState (visibleFiles s) (currentPage s) (pageItems s) (selectedIndex s) (itemBoxes s) (metaCache s) (msgSummaryCache s) (previewCache s) v (fullView s) (modalActive s) (editedArgs s) (totalW s) (leftW s) (screenWidth s) (previewContent s) (idxLoad s) (idxSum s) (metaWorkers s) (sumWorkers s) (overlays s) (resolved s) (cacheReads s) (faults s).
Definition set_fullView v s := mkState (visibleFiles s) (currentPage s) (pageItems s) (selectedIndex s) (itemBoxes s) (metaCache s) (msgSummaryCache s) (previewCache s) (destroyed s) v (modalActive s) (editedArgs s) (totalW s) (leftW s) (screenWidth s) (previewContent s) (idxLoad s) (idxSum s) (metaWorkers s) (sumWorkers s) (overlays s) (resolved s) (cacheReads s) (faults s).
Definition set_modalActive v s := mkState (visibleFiles s) (currentPage s) (pageItems s) (selectedIndex s) (itemBoxes s) (metaCache s) (msgSummaryCache s) (previewCache s) (destroyed s) (fullView s) v (editedArgs s) (totalW s) (leftW s) (screenWidth s) (previewContent s) (idxLoad s) (idxSum s) (metaWorkers s) (sumWorkers s) (overlays s) (resolved s) (cacheReads s) (faults s).
Definition set_editedArgs v s := mkState (visibleFiles s) (currentPage s) (pageItems s) (selectedIndex s) (itemBoxes s) (metaCache s) (msgSummaryCache s) (previewCache s) (destroyed s) (fullView s) (modalActive s) v (totalW s) (leftW s) (screenWidth s) (previewContent s) (idxLoad s) (idxSum s) (metaWorkers s) (sumWorkers s) (overlays s) (resolved s) (cacheReads s) (faults s).
Definition set_totalW v s := mkState (visibleFiles s) (currentPage s) (pageItems s) (selectedIndex s) (itemBoxes s) (metaCache s) (msgSummaryCache s) (previewCache s) (destroyed s) (fullView s) (modalActive s) (editedArgs s) v (leftW s) (screenWidth s) (previewContent s) (idxLoad s) (idxSum s) (metaWorkers s) (sumWorkers s) (overlays s) (resolved s) (cacheReads s) (faults s).
Definition set_leftW v s := mkState (visibleFiles s) (currentPage s) (pageItems s) (selectedIndex s) (itemBoxes s) (metaCache s) (msgSummaryCache s) (previewCache s) (destroyed s) (fullView s) (modalActive s) (editedArgs s) (totalW s) v (screenWidth s) (previewContent s) (idxLoad s) (idxSum s) (metaWorkers s) (sumWorkers s) (overlays s) (resolved s) (cacheReads s) (faults s).
Definition set_screenWidth v s := mkState (visibleFiles s) (currentPage s) (pageItems s) (selectedIndex s) (itemBoxes s) (metaCache s) (msgSummaryCache s) (previewCache s) (destroyed s) (fullView s) (modalActive s) (editedArgs s) (totalW s) (leftW s) v (previewContent s) (idxLoad s) (idxSum s) (metaWorkers s) (sumWorkers s) (overlays s) (resolved s) (cacheReads s) (faults s).
Definition set_previewContent v s := mkState (visibleFiles s) (currentPage s) (pageItems s) (selectedIndex s) (itemBoxes s) (metaCache s) (msgSummaryCache s) (previewCache s) (destroyed s) (fullView s) (modalActive s) (editedArgs s) (totalW s) (leftW s) (screenWidth s) v (idxLoad s) (idxSum s) (metaWorkers s) (sumWorkers s) (overlays s) (resolved s) (cacheReads s) (faults s).
Definition set_idxLoad v s := mkState (visibleFiles s) (currentPage s) (pageItems s) (selectedIndex s) (itemBoxes s) (metaCache s) (msgSummaryCache s) (previewCache s) (destroyed s) (fullView s) (modalActive s) (editedArgs s) (totalW s) (leftW s) (screenWidth s) (previewContent s) v (idxSum s) (metaWorkers s) (sumWorkers s) (overlays s) (resolved s) (cacheReads s) (faults s).
Definition set_idxSum v s := mkState (visibleFiles s) (currentPage s) (pageItems s) (selectedIndex s) (itemBoxes s) (metaCache s) (msgSummaryCache s) (previewCache s) (destroyed s) (fullView s) (modalActive s) (editedArgs s) (totalW s) (leftW s) (screenWidth s) (previewContent s) (idxLoad s) v (metaWorkers s) (sumWorkers s) (overlays s) (resolved s) (cacheReads s) (faults s).
Definition set_metaWorkers v s := mkState (visibleFiles s) (currentPage s) (pageItems s) (selectedIndex s) (itemBoxes s) (metaCache s) (msgSummaryCache s) (previewCache s) (destroyed s) (fullView s) (modalActive s) (editedArgs s) (totalW s) (leftW s) (screenWidth s) (previewContent s) (idxLoad s) (idxSum s) v (sumWorkers s) (overlays s) (resolved s) (cacheReads s) (faults s).
Definition set_sumWorkers v s := mkState (visibleFiles s) (currentPage s) (pageItems s) (selectedIndex s) (itemBoxes s) (metaCache s) (msgSummaryCache s) (previewCache s) (destroyed s) (fullView s) (modalActive s) (editedArgs s) (totalW s) (leftW s) (screenWidth s) (previewContent s) (idxLoad s) (idxSum s) (metaWorkers s) v (overlays s) (resolved s) (cacheReads s) (faults s).
Definition set_overlays v s := mkState (visibleFiles s) (currentPage s) (pageItems s) (selectedIndex s) (itemBoxes s) (metaCache s) (msgSummaryCache s) (previewCache s) (destroyed s) (fullView s) (modalActive s) (editedArgs s) (totalW s) (leftW s) (screenWidth s) (previewContent s) (idxLoad s) (idxSum s) (metaWorkers s) (sumWorkers s) v (resolved s) (cacheReads s) (faults s).
Definition set_resolved v s := mkState (visibleFiles s) (currentPage s) (pageItems s) (selectedIndex s) (itemBoxes s) (metaCache s) (msgSummaryCache s) (previewCache s) (destroyed s) (fullView s) (modalActive s) (editedArgs s) (totalW s) (leftW s) (screenWidth s) (previewContent s) (idxLoad s) (idxSum s) (metaWorkers s) (sumWorkers s) (overlays s) v (cacheReads s) (faults s).
Definition set_cacheReads v s := mkState (visibleFiles s) (currentPage s) (pageItems s) (selectedIndex s) (itemBoxes s) (metaCache s) (msgSummaryCache s) (previewCache s) (destroyed s) (fullView s) (modalActive s) (editedArgs s) (totalW s) (leftW s) (screenWidth s) (previewContent s) (idxLoad s) (idxSum s) (metaWorkers s) (sumWorkers s) (overlays s) (resolved s) v (faults s).
Definition set_faults v s := mkState (visibleFiles s) (currentPage s) (pageItems s) (selectedIndex s) (itemBoxes s) (metaCache s) (msgSummaryCache s) (previewCache s) (destroyed s) (fullView s) (modalActive s) (editedArgs s) (totalW s) (leftW s) (screenWidth s) (previewContent s) (idxLoad s) (idxSum s) (metaWorkers s) (sumWorkers s) (overlays s) (resolved s) (cacheReads s) v.

(** ** tui/splitPicker.js: pickSessionSplitTUI *)

Definition gap : Z := 1.
Definition ITEMS_PER_PAGE : Z := 30.
Definition concurrency : nat := 8.
Definition sumConcurrency : nat := 3.

Definition logRead (c : CacheName) (k : jsstring) (s : State) : State :=
  set_cacheReads (cacheReads s ++ [(c, k)]) s.

Definition raise (f : Fault) (s : State) : State :=
  set_faults (faults s ++ [f]) s.

(** [a || b] on strings: the empty string is falsy. *)
Definition orElse (a : option jsstring) (b : jsstring) : jsstring :=
  match a with
  | Some (c :: r) => c :: r
  | _ => b
  end.

(** [`${f.path}::${wrapW}`] *)
Definition previewKey (p : jsstring) (wrapW : Z) : jsstring :=
  p ++ lit "::" ++ showZ wrapW.

(** [metaCache.get(f.path)] and [renderItemContent(f, meta)], which looks
    the summary up: the row shows the id and age, the working directory,
    and the message count and last role. *)
Definition renderRow (f : SessionFile) (s : State) : RowBox * State :=
  let meta := metaCache s !! path f in
  let s := logRead MetaCache (path f) s in
  let sum := msgSummaryCache s !! path f in
  let s := logRead SummaryCache (path f) s in
  (mkRow f meta sum, s).

Fixpoint buildBoxes (items : list SessionFile) (s : State) : State :=
  match items with
  | [] => s
  | f :: rest =>
      let '(row, s) := renderRow f s in
      buildBoxes rest (set_itemBoxes (itemBoxes s ++ [row]) s)
  end.

Definition buildItemBoxes (s : State) : State :=
  buildBoxes (pageItems s) (set_itemBoxes [] s).

Definition updateItemBox (i : Z) (s : State) : State :=
  match nthZ (itemBoxes s) i with
  | None => s
  | Some _ =>
      match nthZ (pageItems s) i with
      | None => raise (UndefinedFile "updateItemBox") s
      | Some f =>
          let '(row, s) := renderRow f s in
          set_itemBoxes (<[Z.to_nat i := row]> (itemBoxes s)) s
      end
  end.

Definition setSelectedIndex (idx : Z) (s : State) : State :=
  if (idx <? 0) || (idx >=? lengthZ (pageItems s)) then s
  else set_selectedIndex idx s.

Definition getPreviewInnerWidth (s : State) : Z :=
  let total := screenWidth s in
  let rbWidth := if fullView s then total else total - (leftW s + gap) in
  let contentWidth := rbWidth - 2 in
  Z.max 10 contentWidth.

(** The loop [for (let i = 0; i < itemBoxes.length; i++) updateItemBox(i)];
    an exception leaves it. *)
Fixpoint updateBoxesFrom (n : nat) (i : Z) (s : State) : State :=
  match n with
  | O => s
  | S n' =>
      let s' := updateItemBox i s in
      if (length (faults s') =? length (faults s))%nat
      then updateBoxesFrom n' (i + 1) s'
      else s'
  end.

Definition applyLayout (s : State) : State :=
  let s := set_totalW (if screenWidth s =? 0 then totalW s else screenWidth s) s in
  let s := if fullView s then s
           else set_leftW (Z.max 30 (floorScale35 (totalW s))) s in
  updateBoxesFrom (length (itemBoxes s)) 0 s.

Definition updatePageItems (s : State) : State :=
  let start := currentPage s * ITEMS_PER_PAGE in
  let stop := Z.min (lengthZ (visibleFiles s)) (start + ITEMS_PER_PAGE) in
  let s := set_pageItems (jsSlice (visibleFiles s) start stop) s in
  let s := buildItemBoxes s in
  set_selectedIndex 0 s.

Definition selectedFile (s : State) : option SessionFile :=
  nthZ (pageItems s) (selectedIndex s).

Definition isDialogEntry (m : option Message) : bool :=
  match m with
  | Some m => isDialog m
  | None => false
  end.

(** [{ count: dialog.length, lastRole }] of loadSummary and
    updatePreviewForIndex. *)
Definition summarize (messages : list (option Message)) : Summary :=
  let dialog := filter (fun m => isDialogEntry m = true) messages in
  let lastRole :=
    match last dialog with
    | Some (Some m) =>
        if bool_decide (role m = roleUser) then lit "User" else lit "Assistant"
    | _ => lit "-"
    end in
  mkSummary (lengthZ dialog) lastRole.

Definition loadSummary (w : World) (i : Z) (s : State) : State :=
  match nthZ (pageItems s) i with
  | None => s
  | Some f =>
      let cached := bool_decide (is_Some (msgSummaryCache s !! path f)) in
      let s := logRead SummaryCache (path f) s in
      if cached then s
      else match parseSessionFile w (path f) with
           | inl parsed =>
               let s := set_msgSummaryCache
                          (<[path f := summarize (parsedMessages parsed)]>
                             (msgSummaryCache s)) s in
               updateItemBox i s
           | inr _ => s
           end
  end.

Definition refreshListRow (i : Z) (s : State) : State :=
  match nthZ (pageItems s) i with
  | None => s
  | Some _ => updateItemBox i s
  end.

Definition loadMeta (w : World) (i : Z) (s : State) : State :=
  match nthZ (pageItems s) i with
  | None => raise (UndefinedFile "loadMeta") s
  | Some f =>
      let cached := bool_decide (is_Some (metaCache s !! path f)) in
      let s := logRead MetaCache (path f) s in
      if cached then s
      else match extractSessionMetaQuick w (path f) with
           | Some meta =>
               let s := set_metaCache (<[path f := meta]> (metaCache s)) s in
               if destroyed s then s else refreshListRow i s
           | None => s
           end
  end.

Section Picker.

Variable stringWidth : jsstring -> nat.
Variable fmtTime : Z -> jsstring.
Variable chalkHex : jsstring -> jsstring -> text.
(** The options the picker was opened with. *)
Variable opts : Options.

Definition LOADING : text := plain (lit "Loading" ++ [ELLIPSIS]).

Definition updatePreviewForIndex (w : World) (idx : Z) (s : State) : State :=
  if (idx <? 0) || (idx >=? lengthZ (pageItems s)) then s
  else match nthZ (pageItems s) idx with
  | None => s
  | Some f =>
      let s := logRead MetaCache (path f) s in
      let wrapW := getPreviewInnerWidth s in
      let cacheKey := previewKey (path f) wrapW in
      let hit := previewCache s !! cacheKey in
      let s := logRead PreviewCache cacheKey s in
      match hit with
      | Some body =>
          set_previewContent body (logRead PreviewCache cacheKey s)
      | None =>
          let s := set_previewContent LOADING s in
          match parseSessionFile w (path f) with
          | inl parsed =>
              let s := set_msgSummaryCache
                         (<[path f := summarize (parsedMessages parsed)]>
                            (msgSummaryCache s)) s in
              let s := updateItemBox idx s in
              let body := buildDialogPreviewBlocks stringWidth fmtTime chalkHex
                            (parsedMessages parsed) (hide opts) (Some wrapW) in
              let s := set_previewCache (<[cacheKey := body]> (previewCache s)) s in
              if destroyed s then s else set_previewContent body s
          | inr msg =>
              if destroyed s then s
              else set_previewContent (plain (lit "Preview failed: " ++ msg)) s
          end
      end
  end.

(** *** Key handlers registered on the screen *)

Inductive NavKey := KUp | KDown | KPageUp | KPageDown | KHome | KEnd.

Inductive Key :=
| KNav (k : NavKey)
| KLeft | KRight
| KJ | KK | KF | KC | KD | KMinus | KN | KS
| KQ | KCtrlC | KEscape | KEnter
| KY | KShiftY | KShiftN
| KOther (c : N).

Definition navTarget (k : NavKey) (s : State) : Z :=
  let sel := selectedIndex s in
  match k with
  | KUp => Z.max 0 (sel - 1)
  | KDown => Z.min (lengthZ (pageItems s) - 1) (sel + 1)
  | KPageUp => Z.max 0 (sel - 5)
  | KPageDown => Z.min (lengthZ (pageItems s) - 1) (sel + 5)
  | KHome => 0
  | KEnd => lengthZ (pageItems s) - 1
  end.

Definition onNavKey (w : World) (k : NavKey) (s : State) : State :=
  if modalActive s then s
  else
    let sel := navTarget k s in
    let s := setSelectedIndex sel s in
    let s := updatePreviewForIndex w sel s in
    let s := loadMeta w sel s in
    let s := loadSummary w sel s in
    let s := if sel + 1 <? lengthZ (pageItems s) then loadMeta w (sel + 1) s else s in
    let s := if sel - 1 >=? 0 then loadMeta w (sel - 1) s else s in
    let s := if sel + 1 <? lengthZ (pageItems s) then loadSummary w (sel + 1) s else s in
    let s := if sel - 1 >=? 0 then loadSummary w (sel - 1) s else s in
    s.

Definition onLeft (w : World) (s : State) : State :=
  if modalActive s then s
  else if currentPage s >? 0 then
    let s := set_currentPage (currentPage s - 1) s in
    let s := updatePageItems s in
    let s := set_idxLoad 0 s in
    let s := set_idxSum 0 s in
    updatePreviewForIndex w 0 s
  else s.

Definition onRight (w : World) (s : State) : State :=
  if modalActive s then s
  else
    let totalPages := ceilDiv (lengthZ (visibleFiles s)) ITEMS_PER_PAGE in
    if currentPage s <? totalPages - 1 then
      let s := set_currentPage (currentPage s + 1) s in
      let s := updatePageItems s in
      let s := set_idxLoad 0 s in
      let s := set_idxSum 0 s in
      updatePreviewForIndex w 0 s
    else s.

(** 'f': toggle full view. *)
Definition onToggleFull (s : State) : State :=
  if modalActive s then s
  else
    let s := set_fullView (negb (fullView s)) s in
    applyLayout s.

Definition askEditOptions (s : State) : State :=
  set_overlays (EditOptionsBox (editedArgs s) :: overlays s) s.

(** [resolve(v)]: a promise settles once. *)
Definition resolve (v : option Action) (s : State) : State :=
  match resolved s with
  | None => set_resolved (Some v) s
  | Some _ => s
  end.

(** 'c': copy the session id; the clipboard is not part of the state. *)
Definition onCopy (w : World) (s : State) : State :=
  match selectedFile s with
  | None => s
  | Some f =>
      let meta := metaCache s !! path f in
      let s := logRead MetaCache (path f) s in
      match meta with
      | Some _ => s
      | None =>
          match extractSessionMetaQuick w (path f) with
          | Some m => set_metaCache (<[path f := m]> (metaCache s)) s
          | None => s
          end
      end
  end.

Definition confirmDeleteDialog (f : SessionFile) (shownId : jsstring)
    (s : State) : State :=
  let s := set_modalActive true s in
  set_overlays (ConfirmDelete f shownId 1 :: overlays s) s.

(** What the 'd' handler does once [await deleteSelectedFile()] returns. *)
Definition afterDelete (s : State) : State :=
  if isEmpty (visibleFiles s) then
    let s := if destroyed s then s else set_destroyed true s in
    resolve None s
  else s.

(** deleteSelectedFile up to the confirmation dialog. *)
Definition deleteSelectedFile (w : World) (s : State) : State :=
  match selectedFile s with
  | None => afterDelete s
  | Some f =>
      let cached := metaCache s !! path f in
      let s := logRead MetaCache (path f) s in
      let '(meta, s) :=
        match cached with
        | Some m => (Some m, s)
        | None =>
            match extractSessionMetaQuick w (path f) with
            | Some m => (Some m, set_metaCache (<[path f := m]> (metaCache s)) s)
            | None => (None, s)
            end
        end in
      let shownId := orElse (meta ≫= metaId) (orElse (Some (rel f)) (path f)) in
      confirmDeleteDialog f shownId s
  end.

(** The three purges that follow a successful unlink. *)
Definition purgeCaches (p : jsstring) (s : State) : State :=
  let s := set_metaCache (delete p (metaCache s)) s in
  let s := set_msgSummaryCache (delete p (msgSummaryCache s)) s in
  set_previewCache
    (filter (fun kv => startsWith (p ++ lit "::") kv.1 = false) (previewCache s)) s.

(** deleteSelectedFile from the answer of the dialog on. *)
Definition deleteConfirmed (w : World) (f : SessionFile) (confirmed : bool)
    (s : State) : State :=
  if negb confirmed then afterDelete s
  else match unlink w (path f) with
  | Some message =>
      set_overlays (DeleteFailed f message :: overlays s) s
  | None =>
      let s := purgeCaches (path f) s in
      let s := set_visibleFiles
                 (filter (fun it => path it ≠ path f) (visibleFiles s)) s in
      if isEmpty (visibleFiles s) then
        afterDelete (set_destroyed true s)
      else
        let totalPages :=
          Z.max 1 (ceilDiv (lengthZ (visibleFiles s)) ITEMS_PER_PAGE) in
        let s := if currentPage s >=? totalPages
                 then set_currentPage (totalPages - 1) s else s in
        let prevSel := selectedIndex s in
        let s := updatePageItems s in
        let newSel := Z.max 0 (Z.min prevSel (lengthZ (pageItems s) - 1)) in
        let s := setSelectedIndex newSel s in
        let s := updatePreviewForIndex w newSel s in
        afterDelete s
  end.

Definition onDelete (w : World) (s : State) : State :=
  if modalActive s then s else deleteSelectedFile w s.

Definition onEnter (s : State) : State :=
  if modalActive s then s
  else
    let s := set_destroyed true s in
    match selectedFile s with
    | Some f => resolve (Some (Resume (path f) (editedArgs s))) s
    | None => raise (UndefinedFile "enter") s
    end.

Definition onStartNew (w : World) (s : State) : State :=
  if modalActive s then s
  else match selectedFile s with
  | None => s
  | Some f =>
      let cwd := extractSessionMetaQuick w (path f) ≫= metaCwd in
      let s := set_destroyed true s in
      resolve (Some (StartNew cwd (editedArgs s))) s
  end.

Definition onWorkspaceCreate (s : State) : State :=
  if modalActive s || negb (workspaceMode opts) then s
  else resolve (Some WorkspaceCreate) (set_destroyed true s).

Definition onQuit (s : State) : State :=
  if modalActive s then s
  else resolve None (set_destroyed true s).

Definition screenKey (w : World) (k : Key) (s : State) : State :=
  match k with
  | KNav n => onNavKey w n s
  | KLeft => onLeft w s
  | KRight => onRight w s
  | KJ | KK => s            (* scroll the preview pane, if no modal *)
  | KF => onToggleFull s
  | KC => onCopy w s
  | KD => onDelete w s
  | KMinus => if modalActive s then s else askEditOptions s
  | KN => onStartNew w s
  | KS => onWorkspaceCreate s
  | KQ | KCtrlC | KEscape => onQuit s
  | KEnter => onEnter s
  | KY | KShiftY | KShiftN | KOther _ => s
  end.

(** *** Key handlers registered on an overlay *)

(** [finish(ans)] of confirmDeleteDialog, and the rest of
    deleteSelectedFile that the answer wakes up. *)
Definition finish (w : World) (f : SessionFile) (ans : bool)
    (below : list Overlay) (s : State) : State :=
  let s := set_overlays below s in
  let s := set_modalActive false s in
  deleteConfirmed w f ans s.

Definition overlayKey (w : World) (k : Key) (s : State) : State :=
  match overlays s with
  | [] => s
  | EditOptionsBox _ :: below =>
      match k with
      | KEscape => set_overlays below s      (* cleanup() *)
      | _ => s
      end
  | ConfirmDelete f shownId selected :: below =>
      match k with
      | KLeft => set_overlays (ConfirmDelete f shownId 0 :: below) s
      | KRight => set_overlays (ConfirmDelete f shownId 1 :: below) s
      | KY | KShiftY => finish w f true below s
      | KN | KShiftN => finish w f false below s
      | KEnter => finish w f (selected =? 0) below s
      | KEscape => finish w f false below s
      | _ => s
      end
  | DeleteFailed _ _ :: below =>
      match k with
      | KEnter | KEscape | KQ => afterDelete (set_overlays below s)
      | _ => s
      end
  end.

(** The text box of askEditOptions emits 'submit' with its value. *)
Definition inputSubmit (val : jsstring) (s : State) : State :=
  match overlays s with
  | EditOptionsBox _ :: below =>
      set_overlays below (set_editedArgs val s)
  | _ => s
  end.

(** *** Background workers

    One turn of a worker loop
    [while (idx < pageItems.length && !destroyed) { i = idx++; await load(i) }]:
    a live worker tests the condition and either loads one item or
    returns for good. *)
Definition metaWorkerTurn (w : World) (s : State) : State :=
  match metaWorkers s with
  | O => s
  | S n =>
      if (idxLoad s <? lengthZ (pageItems s)) && negb (destroyed s) then
        let i := idxLoad s in
        loadMeta w i (set_idxLoad (i + 1) s)
      else set_metaWorkers n s
  end.

Definition summaryWorkerTurn (w : World) (s : State) : State :=
  match sumWorkers s with
  | O => s
  | S n =>
      if (idxSum s <? lengthZ (pageItems s)) && negb (destroyed s) then
        let i := idxSum s in
        loadSummary w i (set_idxSum (i + 1) s)
      else set_sumWorkers n s
  end.

(** *** Events

    A key press reaches the screen's handler for that key and then the
    focused overlay's (this is why the screen's handlers test
    [modalActive]).  What is typed into the text box of the edit
    overlay stays in the widget; the picker sees its 'submit' and its
    Escape.  Once the screen is destroyed no input arrives.  An awaited
    call settles within the step that makes it: [step] gives the runs
    in which no event is delivered while a handler waits.  For what a
    load does when it resumes after other events, see the loads cut at
    their await further down. *)
Inductive Event :=
| Press (k : Key)
| Submit (val : jsstring)
| Click (i : Z)
| Resize (width : Z)
| MetaWorker
| SummaryWorker.

Definition press (w : World) (k : Key) (s : State) : State :=
  overlayKey w k (screenKey w k s).

Definition onClick (w : World) (i : Z) (s : State) : State :=
  match nthZ (itemBoxes s) i with
  | None => s
  | Some _ =>
      let s := setSelectedIndex i s in
      let s := updatePreviewForIndex w i s in
      let s := loadMeta w i s in
      loadSummary w i s
  end.

Definition step (w : World) (e : Event) (s : State) : State :=
  match e with
  | Press k => if destroyed s then s else press w k s
  | Submit val => if destroyed s then s else inputSubmit val s
  | Click i => if destroyed s then s else onClick w i s
  | Resize width =>
      if destroyed s then s else applyLayout (set_screenWidth width s)
  | MetaWorker => metaWorkerTurn w s
  | SummaryWorker => summaryWorkerTurn w s
  end.

(** A run: each event meets the world of its moment. *)
Fixpoint run (evs : list (World * Event)) (s : State) : State :=
  match evs with
  | [] => s
  | (w, e) :: rest => run rest (step w e s)
  end.

(** *** Start of the picker *)

Definition initialState (files : list SessionFile) (width : Z) : State :=
  let total := if width =? 0 then 100 else width in
  mkState files 0 [] 0 [] ∅ ∅ ∅ false false false [] total
    (Z.max 30 (floorScale35 total)) width [] 0 0 0 0 [] None [] [].

(** [pickSessionSplitTUI] up to the registration of the key handlers;
    [None] when there is no file ([return null]). *)
Definition startPicker (w : World) (files : list SessionFile) (width : Z)
    : option State :=
  if isEmpty files then None
  else
    let s := initialState files width in
    let s := updatePageItems s in
    let s := set_metaWorkers concurrency s in
    let s := Nat.iter concurrency (metaWorkerTurn w) s in
    let s := set_sumWorkers sumConcurrency s in
    let s := Nat.iter sumConcurrency (summaryWorkerTurn w) s in
    let s := setSelectedIndex 0 s in
    let s := updatePreviewForIndex w 0 s in
    Some (applyLayout s).

End Picker.


(** ** A terminal to run the examples on

    A width function in the manner of string-width (control characters
    take no column, CJK ideographs two), a UTC clock for 'HH:mm:ss', and
    a chalk that brackets a string with the colour and the reset
    sequence. *)

Definition charColumns (c : N) : nat :=
  if (c <? 32)%N then 0%nat
  else if ((127 <=? c) && (c <? 160))%N then 0%nat
  else if ((19968 <=? c) && (c <=? 40959))%N then 2%nat
  else 1%nat.

Fixpoint columns (s : jsstring) : nat :=
  match s with
  | [] => 0%nat
  | c :: r => (charColumns c + columns r)%nat
  end.

Definition digit (n : Z) : N := (48 + Z.to_N (n mod 10))%N.

Definition twoDigits (n : Z) : jsstring := [digit (n / 10); digit n].

Definition clock (t : Z) : jsstring :=
  let sec := t / 1000 in
  twoDigits ((sec / 3600) mod 24) ++ [COLON]
  ++ twoDigits ((sec / 60) mod 60) ++ [COLON]
  ++ twoDigits (sec mod 60).

Definition sgrHex (colour s : jsstring) : text :=
  Sgr colour :: plain s ++ [Sgr (lit "39")].

(** A log with a user turn of thirty ideographs (sixty columns), a tool
    record, a null record and an assistant turn. *)
Definition sampleLog : list (option Message) :=
  [ Some (mkMessage roleUser (repeat 20013%N 30 ++ [NL] ++ lit "second line")
            (Some 3723000));
    Some (mkMessage (lit "tool") (lit "ls -la") None);
    None;
    Some (mkMessage roleAssistant (lit "done") None) ].


(** Three sessions, a world in which every call succeeds and one in
    which unlink throws. *)
Definition fileA : SessionFile := mkFile (lit "/s/a.jsonl") (lit "a.jsonl") 300.
Definition fileB : SessionFile := mkFile (lit "/s/b.jsonl") (lit "b.jsonl") 200.
Definition fileC : SessionFile := mkFile (lit "/s/c.jsonl") (lit "c.jsonl") 100.

Definition sampleWorld : World :=
  mkWorld (fun p => Some (mkMeta (Some (lit "id:" ++ p)) (Some (lit "/work")) None))
          (fun p => inl (mkParsed None sampleLog))
          (fun p => None).

Definition readOnlyWorld : World :=
  mkWorld (extractSessionMetaQuick sampleWorld) (parseSessionFile sampleWorld)
          (fun p => Some (lit "EACCES: permission denied")).

Definition sampleOpts : Options := mkOptions [lit "tool"] false.

(** The picker opened on A, B, C in a terminal 80 columns wide. *)
Definition startedABC : State :=
  default (initialState [] 80)
    (startPicker columns clock sgrHex sampleOpts sampleWorld [fileA; fileB; fileC] 80).

(** Keys pressed one after the other in the same world. *)
Definition presses (w : World) (keys : list Key) : list (World * Event) :=
  map (fun k => (w, Press k)) keys.


(** A, B, C listed; down, down selects C; 'd' asks for confirmation. *)
Definition confirmingC : State :=
  run columns clock sgrHex sampleOpts
    (presses sampleWorld [KNav KDown; KNav KDown; KD]) startedABC.

(** The picker opened on the single session A, and 'd' pressed. *)
Definition startedA : State :=
  default (initialState [] 80)
    (startPicker columns clock sgrHex sampleOpts sampleWorld [fileA] 80).

Definition confirmingA : State :=
  run columns clock sgrHex sampleOpts (presses sampleWorld [KD]) startedA.


(** Thirty-two sessions: a full first page and two items on the second. *)
Definition fileNo (n : nat) : SessionFile :=
  mkFile (lit "/s/" ++ showZ (Z.of_nat n) ++ lit ".jsonl")
         (showZ (Z.of_nat n) ++ lit ".jsonl") (1000 - Z.of_nat n).

Definition files32 : list SessionFile := map fileNo (seq 0 32).

Definition started32 : State :=
  default (initialState [] 80)
    (startPicker columns clock sgrHex sampleOpts sampleWorld files32 80).

(** The workers have gone through the first page and returned. *)
Definition prefetched32 : State :=
  run columns clock sgrHex sampleOpts
    (repeat (sampleWorld, MetaWorker) 30 ++ repeat (sampleWorld, SummaryWorker) 30)
    started32.

(** Then the right arrow. *)
Definition secondPage32 : State :=
  step columns clock sgrHex sampleOpts sampleWorld (Press KRight) prefetched32.

Definition workerEvent (e : Event) : Prop := e = MetaWorker ∨ e = SummaryWorker.

(** The edit box opened from the list of A, B, C. *)
Definition editingABC : State :=
  step columns clock sgrHex sampleOpts sampleWorld (Press KMinus) startedABC.

(** The 'Delete Failed' notice for C. *)
Definition noticeC : State :=
  step columns clock sgrHex sampleOpts readOnlyWorld (Press KY) confirmingC.

(** On the second page of the thirty-two, 'd' and 'y' while unlink
    throws. *)
Definition failedOn30 : State :=
  run columns clock sgrHex sampleOpts (presses readOnlyWorld [KD; KY]) secondPage32.


(** ** Views of the state

    [core] forgets what only rendering touches (the rows shown, the log
    of cache lookups, the log of exceptions); [skeleton] also forgets
    the caches and the preview pane. *)

Definition core (s : State) : State :=
  set_itemBoxes [] (set_cacheReads [] (set_faults [] s)).

Definition skeleton (s : State) : State :=
  set_metaCache ∅ (set_msgSummaryCache ∅ (set_previewCache ∅
    (set_previewContent [] (core s)))).

(** The picker is browsing: no modal flag, screen alive, promise pending. *)
Definition browsing (s : State) : Prop :=
  modalActive s = false ∧ destroyed s = false ∧ resolved s = None.

(** The picker has ended with the value [v]. *)
Definition terminated (v : option Action) (s : State) : Prop :=
  destroyed s = true ∧ resolved s = Some v.

(** [0 <= selectedIndex < pageItems.length] *)
Definition selectionValid (s : State) : Prop :=
  0 ≤ selectedIndex s < lengthZ (pageItems s).


(** The confirmation dialog for [f] is open and focused, with the
    button [selected] (0: Yes, 1: No) highlighted. *)
Definition confirming (f : SessionFile) (selected : Z) (below : list Overlay)
    (s : State) : Prop :=
  (∃ shownId, overlays s = ConfirmDelete f shownId selected :: below)
  ∧ modalActive s = true ∧ destroyed s = false.

(** The keys of the dialog that answer Yes, and those that answer No. *)
Definition confirmsYes (k : Key) (selected : Z) : Prop :=
  k = KY ∨ k = KShiftY ∨ (k = KEnter ∧ selected = 0).

Definition declines (k : Key) (selected : Z) : Prop :=
  k = KN ∨ k = KShiftN ∨ k = KEscape ∨ (k = KEnter ∧ selected ≠ 0).

(** The keys that dismiss the 'Delete Failed' notice. *)
Definition dismisses (k : Key) : Prop := k = KEnter ∨ k = KEscape ∨ k = KQ.

(** The visible list once the entries with the path of [f] are gone. *)
Definition without (f : SessionFile) (files : list SessionFile) : list SessionFile :=
  filter (fun it => path it ≠ path f) files.


(** The preview pane shows the selected session rendered at the width
    the pane has now. *)
Definition previewIsCurrent (stringWidth : jsstring → nat) (fmtTime : Z → jsstring)
    (chalkHex : jsstring → jsstring → text) (opts : Options)
    (w : World) (s : State) : Prop :=
  ∀ f parsed, selectedFile s = Some f →
    parseSessionFile w (path f) = inl parsed →
    previewContent s
    = buildDialogPreviewBlocks stringWidth fmtTime chalkHex (parsedMessages parsed)
        (hide opts) (Some (getPreviewInnerWidth s)).


(** [quiet s s']: from [s] to [s'] nothing but caches, rows, the preview
    pane and the lookup log changed, and no exception was raised. *)
Definition quiet (s s' : State) : Prop :=
  skeleton s' = skeleton s ∧ faults s' = faults s.


(** ** utils/preview.js: formatPreviewLines *)

Definition LBRACKET : N := 91%N.
Definition RBRACKET : N := 93%N.

(** [formatPreviewLines(items, { color, chalkLib })]: one line a turn,
    '[HH:mm:ss] Role: text'. *)
Definition formatPreviewLines (fmtTime : Z -> jsstring) (items : list Message)
    (color : bool) (chalkLib : option (jsstring -> jsstring -> text))
    : list text :=
  let chalk := if color then chalkLib else None in
  map (fun it =>
    let ts := match timestamp it with Some t => fmtTime t | None => [] end in
    let isUser := bool_decide (role it = roleUser) in
    let roleLabel := if isUser then lit "User" else lit "AI" in
    let timeStr := paint chalk THEME_gray ([LBRACKET] ++ ts ++ [RBRACKET]) in
    let roleStr :=
      paint chalk (if isUser then THEME_orange else THEME_green) roleLabel in
    timeStr ++ [Ch SPACE] ++ roleStr ++ plain (lit ": ") ++ plain (mtext it))
    items.

(** Every break of a wrapped line is forced: the segment before it had
    no room left for the character that starts the next one. *)
Definition forcedBreaks (stringWidth : jsstring -> nat) (maxWidth : Z)
    (segs : list jsstring) : Prop :=
  ∀ (i : nat) a c b,
    segs !! i = Some a → segs !! S i = Some (c :: b) →
    maxWidth < Z.of_nat (charSum stringWidth a + stringWidth [c]).

(** ** tui/splitPicker.js: formatRelativeAge

    [now] is [Date.now()] and [date] the instant of a valid Date, both
    in milliseconds; [Math.floor] of a quotient of non-negative integers
    is the integer quotient. *)
Definition formatRelativeAge (now date : Z) : jsstring :=
  let diff := Z.max 0 (now - date) in
  let s := diff / 1000 in
  if s <? 60 then showZ s ++ lit "s ago" else
  let m := s / 60 in
  if m <? 60 then showZ m ++ lit "m ago" else
  let h := m / 60 in
  if h <? 24 then showZ h ++ lit "h ago" else
  let days := h / 24 in
  if days <? 7 then showZ days ++ lit "d ago" else
  let weeks := days / 7 in
  if weeks <? 4 then showZ weeks ++ lit "w ago" else
  let months := days / 30 in
  if months <? 12 then showZ months ++ lit "mo ago" else
  let years := days / 365 in
  showZ years ++ lit "y ago".

Definition msPerDay : Z := 86400000.

(** ** What holds of the picker between two events *)

(** The slice of the visible list that [currentPage] designates. *)
Definition pageOf (s : State) : list SessionFile :=
  jsSlice (visibleFiles s) (currentPage s * ITEMS_PER_PAGE)
    (Z.min (lengthZ (visibleFiles s))
           (currentPage s * ITEMS_PER_PAGE + ITEMS_PER_PAGE)).

(** The screen is alive and the list is in order: the page exists and is
    what is shown, with a row for each item and a valid selection. *)
Definition pageConsistent (s : State) : Prop :=
  destroyed s = false ∧ resolved s = None
  ∧ 0 ≤ currentPage s
  ∧ currentPage s * ITEMS_PER_PAGE < lengthZ (visibleFiles s)
  ∧ pageItems s = pageOf s
  ∧ length (itemBoxes s) = length (pageItems s)
  ∧ selectionValid s
  ∧ 0 ≤ idxLoad s ∧ 0 ≤ idxSum s.

(** The screen is destroyed and the promise settled. *)
Definition ended (s : State) : Prop :=
  destroyed s = true ∧ is_Some (resolved s).

Definition pickerInvariant (s : State) : Prop :=
  faults s = [] ∧ (ended s ∨ pageConsistent s).

(** [steady s s']: from [s] to [s'] only caches, the contents of the
    rows, the preview pane and the lookup log changed. *)
Definition steady (s s' : State) : Prop :=
  skeleton s' = skeleton s ∧ faults s' = faults s
  ∧ length (itemBoxes s') = length (itemBoxes s).

(** Thirty-one sessions, the second page shown, and 'd' pressed on its
    only item. *)
Definition files31 : list SessionFile := map fileNo (seq 0 31).

Definition started31 : State :=
  default (initialState [] 80)
    (startPicker columns clock sgrHex sampleOpts sampleWorld files31 80).

Definition confirmingLast31 : State :=
  run columns clock sgrHex sampleOpts (presses sampleWorld [KRight; KD]) started31.

(** ** The metadata prefetch *)

(** Metadata can be read from every file. *)
Definition metaReadable (w : World) : Prop :=
  ∀ p, is_Some (extractSessionMetaQuick w p).

(** The metadata workers are on their way through the page: what lies
    before the cursor is cached, and while items remain a worker is
    alive. *)
Definition prefetching (s : State) : Prop :=
  destroyed s = false ∧ 0 ≤ idxLoad s
  ∧ (idxLoad s < lengthZ (pageItems s) → metaWorkers s ≠ 0%nat)
  ∧ ∀ i f, 0 ≤ i < idxLoad s → nthZ (pageItems s) i = Some f →
           is_Some (metaCache s !! path f).

(** Turns the metadata workers still have to take: one for each item
    from the cursor on, and one for each worker to return. *)
Definition turnsLeft (s : State) : nat :=
  (Z.to_nat (lengthZ (pageItems s) - idxLoad s) + metaWorkers s)%nat.

(** The prefetch is on its way with no more turns left than one for
    each page item and each worker. *)
Definition prefetchStarted (s : State) : Prop :=
  prefetching s ∧ (turnsLeft s ≤ length (pageItems s) + concurrency)%nat.

(** ** The command line: shellQuoteSingleArg, buildResumeCommand *)

Definition QUOTE : N := 39%N.
Definition BACKSLASH : N := 92%N.
Definition TAB : N := 9%N.

(** The argument between two quotes, each quote inside it replaced by
    quote, backslash, quote, quote. *)
Definition shellQuoteSingleArg (s : jsstring) : jsstring :=
  if isEmpty s then [QUOTE; QUOTE]
  else [QUOTE]
       ++ flat_map (fun c => if (c =? QUOTE)%N then lit "'\''" else [c]) s
       ++ [QUOTE].

(** WhiteSpace and LineTerminator of the language, which [trim] removes. *)
Definition isJsWhiteSpace (c : N) : bool :=
  bool_decide (c ∈ [9; 10; 11; 12; 13; 32; 160; 5760; 8232; 8233; 8239; 8287;
                    12288; 65279]%N)
  || ((8192 <=? c) && (c <=? 8202))%N.

Fixpoint trimStart (s : jsstring) : jsstring :=
  match s with
  | c :: r => if isJsWhiteSpace c then trimStart r else s
  | [] => []
  end.

(** [s.trim()] *)
Definition jsTrim (s : jsstring) : jsstring :=
  rev (trimStart (rev (trimStart s))).

(** [parts.filter(Boolean)] on strings: the empty ones go. *)
Definition filterBoolean (parts : list jsstring) : list jsstring :=
  filter (fun p => p ≠ []) parts.

Definition buildResumeCommand (baseCmd sessionId extraArgs : jsstring) : jsstring :=
  joinWith [SPACE]
    (filterBoolean
       [baseCmd; lit "resume"; shellQuoteSingleArg sessionId; jsTrim extraArgs]).

(** The command is run by [execaCommand(cmd, { shell: true })], that is
    by sh.  How sh cuts a line into words, for lines made of ordinary
    characters, blanks, single quotes and backslashes (POSIX Shell
    Command Language, 2.2 Quoting and 2.3 Token Recognition); [None]
    for a line with an unquoted character that means something else to
    the shell (an unquoted newline ends the command), or with a quote
    left open. *)
Inductive ShMode := ShBare | ShEscaped | ShSingle.

Definition shBlank (c : N) : bool :=
  bool_decide (c ∈ [SPACE; TAB]).

(** The newline, bar, ampersand, semicolon, angle brackets,
    parentheses, dollar, backquote, double quote, star, question mark,
    bracket, hash, tilde, equals, percent, bang and braces. *)
Definition shSpecial (c : N) : bool :=
  bool_decide (c ∈ [10; 124; 38; 59; 60; 62; 40; 41; 36; 96; 34; 42; 63; 91; 35;
                    126; 61; 37; 33; 123; 125]%N).

Fixpoint shWordsFrom (s : jsstring) (mode : ShMode) (cur : option jsstring)
    (words : list jsstring) : option (list jsstring) :=
  match s with
  | [] =>
      match mode with
      | ShBare => Some (words ++ match cur with Some w => [w] | None => [] end)
      | _ => None
      end
  | c :: r =>
      match mode with
      | ShSingle =>
          if (c =? QUOTE)%N then shWordsFrom r ShBare cur words
          else shWordsFrom r ShSingle (Some (default [] cur ++ [c])) words
      | ShEscaped =>
          if (c =? NL)%N then shWordsFrom r ShBare cur words
          else shWordsFrom r ShBare (Some (default [] cur ++ [c])) words
      | ShBare =>
          if shBlank c
          then shWordsFrom r ShBare None
                 (words ++ match cur with Some w => [w] | None => [] end)
          else if (c =? QUOTE)%N
          then shWordsFrom r ShSingle (Some (default [] cur)) words
          else if (c =? BACKSLASH)%N then shWordsFrom r ShEscaped cur words
          else if shSpecial c then None
          else shWordsFrom r ShBare (Some (default [] cur ++ [c])) words
      end
  end.

Definition shWords (s : jsstring) : option (list jsstring) :=
  shWordsFrom s ShBare None [].

(** An ordinary character: it stands for itself in a word. *)
Definition shOrdinary (c : N) : bool :=
  negb (shBlank c) && negb (c =? QUOTE)%N && negb (c =? BACKSLASH)%N
  && negb (shSpecial c).

(** ** The command line: parseArgs *)

Definition DASH : N := 45%N.
Definition EQUALS : N := 61%N.

(** What a property of [args] holds. *)
Inductive ArgValue :=
| VTrue
| VFalse
| VUndefined
| VStr (s : jsstring)
| VList (l : list jsstring).

(** The object [args]: the array under [_], which only [push] changes,
    and the properties the options set. *)
Record Args := {
  positional : list jsstring;
  props : gmap jsstring ArgValue
}.

Definition setProp (name : jsstring) (v : ArgValue) (args : Args) : Args :=
  {| positional := positional args; props := <[name := v]> (props args) |}.

Definition pushPositional (a : jsstring) (args : Args) : Args :=
  {| positional := positional args ++ [a]; props := props args |}.

(** [const [k, v] = a.includes('=') ? a.split('=') : [a, undefined]] *)
Definition keyValue (a : jsstring) : jsstring * option jsstring :=
  if bool_decide (EQUALS ∈ a)
  then match splitOn EQUALS a with
       | k :: v :: _ => (k, Some v)
       | [k] => (k, None)
       | [] => ([], None)
       end
  else (a, None).

Definition orUndefined (v : option jsstring) : ArgValue :=
  match v with Some s => VStr s | None => VUndefined end.

(** [argv[++i] || v]: the next token is passed over whatever it is, and
    counts unless it is missing or empty. *)
Definition valueAfter (rest : list jsstring) (v : option jsstring)
  : ArgValue * list jsstring :=
  match rest with
  | next :: rest' => (if isEmpty next then orUndefined v else VStr next, rest')
  | [] => (orUndefined v, [])
  end.

Definition validHide : list jsstring :=
  [lit "tool"; lit "thinking"; lit "user"; lit "assistant"; lit "system"].

(** The while loop of the [--hide] case: the names collected and the
    tokens left for the for loop. *)
Fixpoint collectHide (rest : list jsstring) : list jsstring * list jsstring :=
  match rest with
  | tok :: rest' =>
      if startsWith [DASH] tok then ([], rest)
      else if bool_decide (tok ∈ validHide)
      then let '(vals, remain) := collectHide rest' in (tok :: vals, remain)
      else ([], rest)
  | [] => ([], [])
  end.

(** The switch on [k]: the tokens left, the object and the warnings
    printed so far. *)
Definition parseOption (a : jsstring) (rest : list jsstring) (args : Args)
    (warned : list jsstring) : list jsstring * Args * list jsstring :=
  let '(k, v) := keyValue a in
  let flag name b := (rest, setProp name b args, warned) in
  let value name :=
    let '(x, rest') := valueAfter rest v in
    (rest', setProp name x args, warned) in
  if bool_decide (k ∈ [lit "-h"; lit "--help"]) then flag (lit "help") VTrue
  else if bool_decide (k ∈ [lit "-v"; lit "--version"]) then flag (lit "version") VTrue
  else if bool_decide (k = lit "--list") then flag (lit "list") VTrue
  else if bool_decide (k = lit "--open") then value (lit "open")
  else if bool_decide (k = lit "--root") then value (lit "root")
  else if bool_decide (k = lit "--codex") then value (lit "codex")
  else if bool_decide (k = lit "--search") then value (lit "search")
  else if bool_decide (k = lit "--preview") then flag (lit "preview") VTrue
  else if bool_decide (k = lit "--no-preview") then flag (lit "preview") VFalse
  else if bool_decide (k = lit "--hide") then
    let '(vals, remain) := collectHide rest in
    (remain,
     setProp (lit "hide")
       (VList (if isEmpty vals then [lit "tool"; lit "thinking"] else vals)) args,
     warned)
  else if bool_decide (k ∈ [lit "-y"; lit "--yes"]) then flag (lit "yes") VTrue
  else if bool_decide (k ∈ [lit "-n"; lit "--new"]) then flag (lit "newSession") VTrue
  else if bool_decide (k ∈ [lit "-l"; lit "--latest"]) then flag (lit "resumeLatest") VTrue
  else if bool_decide (k = lit "--legacy-ui") then flag (lit "legacyUI") VTrue
  else if bool_decide (k = lit "--print") then flag (lit "print") VTrue
  else if bool_decide (k = lit "--no-launch") then flag (lit "noLaunch") VTrue
  else if bool_decide (k = lit "--debug") then flag (lit "debug") VTrue
  else (rest, args, warned ++ [a]).

(** The for loop over the tokens from index 2 on; one turn takes at
    least one token, so the length of [argv] is fuel enough. *)
Fixpoint parseLoop (fuel : nat) (rest : list jsstring) (args : Args)
    (warned : list jsstring) : Args * list jsstring :=
  match fuel, rest with
  | S fuel', a :: rest' =>
      if negb (startsWith [DASH] a)
      then parseLoop fuel' rest' (pushPositional a args) warned
      else let '(remain, args', warned') := parseOption a rest' args warned in
           parseLoop fuel' remain args' warned'
  | _, _ => (args, warned)
  end.

(** The parsed object and the options warned about as unknown. *)
Definition parseArgs (argv : list jsstring) : Args * list jsstring :=
  parseLoop (length argv) (drop 2 argv) {| positional := []; props := ∅ |} [].

(** The hide property, where set, is a list of valid names that is not
    empty. *)
Definition hideWellFormed (args : Args) : Prop :=
  ∀ v, props args !! lit "hide" = Some v →
       ∃ vals, v = VList vals ∧ vals ≠ [] ∧ Forall (fun t => t ∈ validHide) vals.

(** ** Decidable equality of keys *)

#[global] Instance NavKey_eq_dec : EqDecision NavKey.
Proof. solve_decision. Defined.
#[global] Instance Key_eq_dec : EqDecision Key.
Proof. solve_decision. Defined.

(** ** Loads that are still awaited

    An awaited call lets other handlers run before it settles.  [step]
    gives the runs in which every call settles before the next event is
    delivered.  For the other runs the three loads are cut here at
    their await: what a load does before it, and what it does when it
    resumes, in the state of that later moment, with what the call
    settled with. *)

(** loadSummary up to [await parseSessionFile(f.path)]: the file whose
    log is now awaited, if any. *)
Definition loadSummaryStart (i : Z) (s : State) : State * option SessionFile :=
  match nthZ (pageItems s) i with
  | None => (s, None)
  | Some f =>
      let cached := bool_decide (is_Some (msgSummaryCache s !! path f)) in
      let s := logRead SummaryCache (path f) s in
      if cached then (s, None) else (s, Some f)
  end.

(** loadSummary from its await on; [i] and [f] are its own variables. *)
Definition loadSummaryResume (i : Z) (f : SessionFile)
    (settled : Parsed + jsstring) (s : State) : State :=
  match settled with
  | inl parsed =>
      let s := set_msgSummaryCache
                 (<[path f := summarize (parsedMessages parsed)]>
                    (msgSummaryCache s)) s in
      updateItemBox i s
  | inr _ => s
  end.

(** loadMeta up to [await extractSessionMetaQuick(f.path)]. *)
Definition loadMetaStart (i : Z) (s : State) : State * option SessionFile :=
  match nthZ (pageItems s) i with
  | None => (raise (UndefinedFile "loadMeta") s, None)
  | Some f =>
      let cached := bool_decide (is_Some (metaCache s !! path f)) in
      let s := logRead MetaCache (path f) s in
      if cached then (s, None) else (s, Some f)
  end.

(** loadMeta from its await on. *)
Definition loadMetaResume (i : Z) (f : SessionFile) (settled : option Meta)
    (s : State) : State :=
  match settled with
  | Some meta =>
      let s := set_metaCache (<[path f := meta]> (metaCache s)) s in
      if destroyed s then s else refreshListRow i s
  | None => s
  end.

(** What updatePreviewForIndex holds on to across
    [await parseSessionFile(f.path)]: [idx], [f] and [wrapW] (the cache
    key is made of the last two). *)
Record PendingPreview := mkPending {
  pendingIdx : Z;
  pendingFile : SessionFile;
  pendingWidth : Z
}.

Section Awaited.

Variable stringWidth : jsstring -> nat.
Variable fmtTime : Z -> jsstring.
Variable chalkHex : jsstring -> jsstring -> text.
Variable opts : Options.

(** updatePreviewForIndex up to its await. *)
Definition previewStart (idx : Z) (s : State) : State * option PendingPreview :=
  if (idx <? 0) || (idx >=? lengthZ (pageItems s)) then (s, None)
  else match nthZ (pageItems s) idx with
  | None => (s, None)
  | Some f =>
      let s := logRead MetaCache (path f) s in
      let wrapW := getPreviewInnerWidth s in
      let cacheKey := previewKey (path f) wrapW in
      let hit := previewCache s !! cacheKey in
      let s := logRead PreviewCache cacheKey s in
      match hit with
      | Some body =>
          (set_previewContent body (logRead PreviewCache cacheKey s), None)
      | None =>
          (set_previewContent LOADING s, Some (mkPending idx f wrapW))
      end
  end.

(** updatePreviewForIndex from its await on. *)
Definition previewResume (p : PendingPreview) (settled : Parsed + jsstring)
    (s : State) : State :=
  let f := pendingFile p in
  let cacheKey := previewKey (path f) (pendingWidth p) in
  match settled with
  | inl parsed =>
      let s := set_msgSummaryCache
                 (<[path f := summarize (parsedMessages parsed)]>
                    (msgSummaryCache s)) s in
      let s := updateItemBox (pendingIdx p) s in
      let body := buildDialogPreviewBlocks stringWidth fmtTime chalkHex
                    (parsedMessages parsed) (hide opts) (Some (pendingWidth p)) in
      let s := set_previewCache (<[cacheKey := body]> (previewCache s)) s in
      if destroyed s then s else set_previewContent body s
  | inr msg =>
      if destroyed s then s
      else set_previewContent (plain (lit "Preview failed: " ++ msg)) s
  end.

(** A pending preview load, if there is one, settling in the world [w]. *)
Definition settlePreview (w : World) (sp : State * option PendingPreview) : State :=
  match sp with
  | (s, Some p) => previewResume p (parseSessionFile w (path (pendingFile p))) s
  | (s, None) => s
  end.

(** A navigation key up to [await updatePreviewForIndex(sel)]: the
    target it holds on to and the preview load it waits for. *)
Definition onNavKeyStart (k : NavKey) (s : State)
    : State * option (Z * option PendingPreview) :=
  if modalActive s then (s, None)
  else
    let sel := navTarget k s in
    let s := setSelectedIndex sel s in
    let '(s, p) := previewStart sel s in
    (s, Some (sel, p)).

(** ... and the loads it starts once the preview is there; each of
    them settling at once in [w]. *)
Definition onNavKeyRest (w : World) (sel : Z) (s : State) : State :=
  let s := loadMeta w sel s in
  let s := loadSummary w sel s in
  let s := if sel + 1 <? lengthZ (pageItems s) then loadMeta w (sel + 1) s else s in
  let s := if sel - 1 >=? 0 then loadMeta w (sel - 1) s else s in
  let s := if sel + 1 <? lengthZ (pageItems s) then loadSummary w (sel + 1) s else s in
  let s := if sel - 1 >=? 0 then loadSummary w (sel - 1) s else s in
  s.

(** deleteSelectedFile from the successful unlink to
    [await updatePreviewForIndex(newSel)], or to its return when no
    file is left. *)
Definition deletedStart (f : SessionFile) (s : State)
    : State * option PendingPreview :=
  let s := purgeCaches (path f) s in
  let s := set_visibleFiles
             (filter (fun it => path it ≠ path f) (visibleFiles s)) s in
  if isEmpty (visibleFiles s) then (set_destroyed true s, None)
  else
    let totalPages :=
      Z.max 1 (ceilDiv (lengthZ (visibleFiles s)) ITEMS_PER_PAGE) in
    let s := if currentPage s >=? totalPages
             then set_currentPage (totalPages - 1) s else s in
    let prevSel := selectedIndex s in
    let s := updatePageItems s in
    let newSel := Z.max 0 (Z.min prevSel (lengthZ (pageItems s) - 1)) in
    let s := setSelectedIndex newSel s in
    previewStart newSel s.

End Awaited.

(** *** Two sessions, and the second deleted while its preview loads *)

Definition startedAB : State :=
  default (initialState [] 80)
    (startPicker columns clock sgrHex sampleOpts sampleWorld [fileA; fileB] 80).

(** 'd' on A, answered Yes; the unlink has succeeded, B is selected and
    the load of its preview awaits the log of B. *)
Definition deletingAofAB : State * option PendingPreview :=
  let asked := step columns clock sgrHex sampleOpts sampleWorld (Press KD) startedAB in
  deletedStart fileA (set_modalActive false (set_overlays [] asked)).

(** Meanwhile 'd' on B, answered Yes: no file is left. *)
Definition deletedBofAB : State :=
  run columns clock sgrHex sampleOpts (presses sampleWorld [KD; KY]) deletingAofAB.1.

(** Then the log of B arrives, and the first 'd' handler returns. *)
Definition lateLoadOfB : State :=
  afterDelete
    (settlePreview columns clock sgrHex sampleOpts sampleWorld
       (deletedBofAB, deletingAofAB.2)).

(** Thirty-two sessions: End on the first page, and the right arrow
    while the preview of the last item loads. *)
Definition endPressed32 : State * option (Z * option PendingPreview) :=
  onNavKeyStart KEnd prefetched32.

Definition pageTurnedMeanwhile32 : State :=
  step columns clock sgrHex sampleOpts sampleWorld (Press KRight) endPressed32.1.

(** ** The formatter among the objects of the program

    selectRecentDialogMessages, the filter and the map of
    buildDialogPreviewBlocks and formatPreviewBlocks once more, with
    what the functions above leave out.  Arrays and records are objects
    on a heap, reached by reference and open to change ([subset.push],
    [subset.reverse()]); a call of a library happens in, and may
    change, what lies outside the program.  Strings and numbers are
    values; the local arrays [out] and [result], which nothing else
    can reach, stay lists. *)

Definition loc := positive.

(** What a reference points at: an array of references to records
    ([None] is null), or a record [{ role, text, timestamp }]. *)
Inductive Cell :=
| CArray (elems : list (option loc))
| CRecord (m : Message).

Section Effects.

(** Whatever lies outside the program: the state of the libraries and
    of the process they consult. *)
Variable Outside : Type.

Record Store := mkStore {
  outside : Outside;
  heap : gmap loc Cell
}.

(** A computation on the store; [None] is an exception. *)
Definition Eff (A : Type) : Type := Store -> option (A * Store).

Definition retE {A} (a : A) : Eff A := fun σ => Some (a, σ).

Definition bindE {A B} (e : Eff A) (k : A -> Eff B) : Eff B :=
  fun σ => match e σ with
           | Some (a, σ') => k a σ'
           | None => None
           end.

Definition throwE {A} : Eff A := fun _ => None.

Local Notation "'let*' x ':=' e 'in' k" := (bindE e (fun x => k))
  (at level 10, x name, e at level 100, k at level 200).

(** The libraries: string-width, [dayjs(t).format('HH:mm:ss')] and
    [chalk.hex(colour)(s)].  A call is made in the outside as it is and
    returns its value and the outside as the call leaves it. *)
Variable stringWidthIn : Outside -> jsstring -> nat * Outside.
Variable dayjsFormatIn : Outside -> Z -> jsstring * Outside.
Variable chalkHexIn : Outside -> jsstring -> jsstring -> text * Outside.

Definition call {A} (f : Outside -> A * Outside) : Eff A :=
  fun σ => let '(a, o) := f (outside σ) in Some (a, mkStore o (heap σ)).

(** A new object. *)
Definition alloc (c : Cell) : Eff loc :=
  fun σ => let l := fresh (dom (heap σ)) in
           Some (l, mkStore (outside σ) (<[l := c]> (heap σ))).

Definition isArray (l : loc) : Eff bool :=
  fun σ => match heap σ !! l with
           | Some (CArray _) => Some (true, σ)
           | Some (CRecord _) => Some (false, σ)
           | None => None
           end.

Definition readArray (l : loc) : Eff (list (option loc)) :=
  fun σ => match heap σ !! l with
           | Some (CArray elems) => Some (elems, σ)
           | _ => None
           end.

Definition readRecord (l : loc) : Eff Message :=
  fun σ => match heap σ !! l with
           | Some (CRecord m) => Some (m, σ)
           | _ => None
           end.

Definition writeArray (l : loc) (elems : list (option loc)) : Eff unit :=
  fun σ => match heap σ !! l with
           | Some (CArray _) =>
               Some (tt, mkStore (outside σ) (<[l := CArray elems]> (heap σ)))
           | _ => None
           end.

(** [arr.push(x)] and [arr.reverse()] change the array itself. *)
Definition pushE (arr : loc) (x : option loc) : Eff unit :=
  let* elems := readArray arr in
  writeArray arr (elems ++ [x]).

Definition reverseE (arr : loc) : Eff unit :=
  let* elems := readArray arr in
  writeArray arr (rev elems).

(** *** selectRecentDialogMessages *)

(** The loop, with [i] one more than the index it looks at next. *)
Fixpoint collectRecentE (limit : option nat) (messages subset : loc) (i : nat)
    : Eff unit :=
  match i with
  | O => retE tt
  | S j =>
      let* sub := readArray subset in
      if belowLimit (length sub) limit then
        let* elems := readArray messages in
        match elems !! j with
        | Some (Some r) =>
            let* m := readRecord r in
            if isDialog m then
              let* entry := alloc (CRecord (mkMessage (role m) (mtext m) (timestamp m))) in
              let* _ := pushE subset (Some entry) in
              collectRecentE limit messages subset j
            else collectRecentE limit messages subset j
        | _ => collectRecentE limit messages subset j
        end
      else retE tt
  end.

Definition selectRecentDialogMessagesE (messages : loc) (limit : option nat)
    : Eff loc :=
  let* array := isArray messages in
  if negb array then alloc (CArray [])
  else
    let* elems := readArray messages in
    if isEmpty elems then alloc (CArray [])
    else
      let* subset := alloc (CArray []) in
      let* _ := collectRecentE limit messages subset (length elems) in
      let* _ := reverseE subset in
      retE subset.

(** *** buildDialogPreviewBlocks: the filter and the map *)

(** [arr.filter(it => ...)]: the callback reads the record; on null
    [it.role] throws. *)
Fixpoint keepRecords (keep : Message -> bool) (elems : list (option loc))
    : Eff (list (option loc)) :=
  match elems with
  | [] => retE []
  | None :: _ => throwE
  | Some r :: rest =>
      let* m := readRecord r in
      let* kept := keepRecords keep rest in
      retE (if keep m then Some r :: kept else kept)
  end.

Definition filterE (keep : Message -> bool) (arr : loc) : Eff loc :=
  let* elems := readArray arr in
  let* kept := keepRecords keep elems in
  alloc (CArray kept).

(** [arr.map(it => ({ ...it, text: ... }))]: a new record for each. *)
Fixpoint copyRecords (f : Message -> Message) (elems : list (option loc))
    : Eff (list (option loc)) :=
  match elems with
  | [] => retE []
  | None :: _ => throwE
  | Some r :: rest =>
      let* m := readRecord r in
      let* copy := alloc (CRecord (f m)) in
      let* copies := copyRecords f rest in
      retE (Some copy :: copies)
  end.

Definition mapE (f : Message -> Message) (arr : loc) : Eff loc :=
  let* elems := readArray arr in
  let* copies := copyRecords f elems in
  alloc (CArray copies).

(** *** formatPreviewBlocks *)

(** [chalk ? chalk.hex(c)(s) : s] *)
Definition paintE (chalk : bool) (colour s : jsstring) : Eff text :=
  if chalk then call (fun o => chalkHexIn o colour s) else retE (plain s).

Fixpoint wrapLoopE (maxWidth : Z) (chars : jsstring)
    (result : list jsstring) (cur : jsstring) (width : nat)
    : Eff (list jsstring * jsstring) :=
  match chars with
  | [] => retE (result, cur)
  | ch :: rest =>
      let* w := call (fun o => stringWidthIn o [ch]) in
      if (Z.of_nat (width + w) >? maxWidth) && negb (isEmpty cur)
      then wrapLoopE maxWidth rest (result ++ [cur]) [ch] w
      else wrapLoopE maxWidth rest result (cur ++ [ch]) (width + w)%nat
  end.

Definition wrapPlainLineE (line : jsstring) (maxWidth : Z) : Eff (list jsstring) :=
  let* loop := wrapLoopE maxWidth line [] [] 0%nat in
  let '(result, cur) := loop in
  retE (if negb (isEmpty cur) || isEmpty line then result ++ [cur] else result).

(** The loop over the lines of the text of one item. *)
Fixpoint bodyLinesE (barPrefix : text) (contentWidth : option Z)
    (rawLines : list jsstring) : Eff (list text) :=
  match rawLines with
  | [] => retE []
  | raw :: rest =>
      let* pushed :=
        match contentWidth with
        | None => retE [barPrefix ++ plain raw]
        | Some cw =>
            let* segments := wrapPlainLineE raw cw in
            retE (map (fun seg => barPrefix ++ plain seg) segments)
        end in
      let* more := bodyLinesE barPrefix contentWidth rest in
      retE (pushed ++ more)
  end.

(** The lines one item pushes to [out], the libraries called in the
    order of the source. *)
Definition blockLinesE (chalk : bool) (wrapWidth : option Z) (it : Message)
    : Eff (list text) :=
  let* ts := match timestamp it with
             | Some t => call (fun o => dayjsFormatIn o t)
             | None => retE []
             end in
  let isUser := bool_decide (role it = roleUser) in
  let roleLabel := if isUser then lit "User" else lit "AI" in
  let colorHex := if isUser then THEME_orange else THEME_green in
  let* bar := paintE chalk colorHex [BAR] in
  let barPrefix := bar ++ [Ch SPACE] in
  let* cols := call (fun o => stringWidthIn o [BAR; SPACE]) in
  let prefixWidth := Z.of_nat cols in
  let* roleStr := paintE chalk colorHex roleLabel in
  let* timeStr := paintE chalk THEME_gray ts in
  let header := barPrefix ++ roleStr ++ [Ch SPACE] ++ timeStr in
  let rawLines := splitOn NL (mtext it) in
  let contentWidth :=
    match wrapWidth with
    | Some w => if w >? prefixWidth + 1 then Some (w - prefixWidth) else None
    | None => None
    end in
  let* bodyLines := bodyLinesE barPrefix contentWidth rawLines in
  retE (header :: bodyLines ++ [[]]).

(** [for (const it of items)] *)
Fixpoint formatItemsE (chalk : bool) (wrapWidth : option Z)
    (elems : list (option loc)) : Eff (list text) :=
  match elems with
  | [] => retE []
  | None :: _ => throwE
  | Some r :: rest =>
      let* it := readRecord r in
      let* block := blockLinesE chalk wrapWidth it in
      let* more := formatItemsE chalk wrapWidth rest in
      retE (block ++ more)
  end.

Definition formatPreviewBlocksE (items : loc) (chalk : bool)
    (wrapWidth : option Z) : Eff text :=
  let* elems := readArray items in
  let* out := formatItemsE chalk wrapWidth elems in
  retE (joinWith [Ch NL] out).

Definition buildDialogPreviewBlocksE (messages : loc) (hide : list jsstring)
    (wrapWidth : option Z) : Eff text :=
  let* recent := selectRecentDialogMessagesE messages None in
  let* kept := filterE (fun it => keptByHide hide it) recent in
  let* items := mapE (fun it => mkMessage (role it) (dropCR (mtext it)) (timestamp it))
                  kept in
  formatPreviewBlocksE items true wrapWidth.

(** From [σ] to [σ'] the outside is as it was and so is every object
    that was there. *)
Definition untouched (σ σ' : Store) : Prop :=
  outside σ' = outside σ ∧ heap σ ⊆ heap σ'.

End Effects.

Arguments mkStore {Outside}.
Arguments outside {Outside}.
Arguments heap {Outside}.

(** The records an array refers to. *)
Definition recordAt (h : gmap loc Cell) (e : option loc) : option (option Message) :=
  match e with
  | None => Some None
  | Some r => match h !! r with
              | Some (CRecord m) => Some (Some m)
              | _ => None
              end
  end.

Definition recordsAt (h : gmap loc Cell) (arr : loc) : option (list (option Message)) :=
  match h !! arr with
  | Some (CArray elems) => mapM (recordAt h) elems
  | _ => None
  end.

(** *** A heap and libraries to run the examples on *)

(** Outside: the offset of the time zone in minutes and the colour
    level of chalk. *)
Definition sampleWidthIn (o : Z * nat) (s : jsstring) : nat * (Z * nat) :=
  (columns s, o).
Definition sampleDayjsIn (o : Z * nat) (t : Z) : jsstring * (Z * nat) :=
  (clock (t + o.1 * 60000), o).
Definition sampleChalkIn (o : Z * nat) (colour s : jsstring) : text * (Z * nat) :=
  (if (o.2 =? 0)%nat then plain s else sgrHex colour s, o).

(** [sampleLog] as an array at reference 1 of records at 2, 3 and 4;
    the array at 5 shares the record at 2. *)
Definition sampleHeap : gmap loc Cell :=
  list_to_map
    [ (1%positive, CArray [Some 2%positive; Some 3%positive; None; Some 4%positive]);
      (2%positive, CRecord (mkMessage roleUser
                              (repeat 20013%N 30 ++ [NL] ++ lit "second line")
                              (Some 3723000)));
      (3%positive, CRecord (mkMessage (lit "tool") (lit "ls -la") None));
      (4%positive, CRecord (mkMessage roleAssistant (lit "done") None));
      (5%positive, CArray [Some 2%positive]) ].

Definition sampleStore : Store (Z * nat) := mkStore (0, 3%nat) sampleHeap.

(** * Facts about the helpers *)

Lemma stripAnsi_app (a b : text) : stripAnsi (a ++ b) = stripAnsi a ++ stripAnsi b.
Proof.
  induction a as [|c a IH]; [reflexivity|].
  destruct c; simpl; rewrite IH; reflexivity.
Qed.

Lemma stripAnsi_plain (s : jsstring) : stripAnsi (plain s) = s.
Proof. induction s as [|c s IH]; simpl; [|rewrite IH]; reflexivity. Qed.

Lemma Ch_in_stripAnsi (c : N) (t : text) : Ch c ∈ t ↔ c ∈ stripAnsi t.
Proof.
  induction t as [|x t IH]; simpl.
  - split; intros H; inversion H.
  - destruct x as [d|code]; rewrite !elem_of_cons, IH.
    + split; intros [H|H]; auto; left; congruence.
    + split; [intros [H|H]; [discriminate|assumption] | auto].
Qed.

Lemma Ch_in_plain (c : N) (s : jsstring) : Ch c ∈ plain s ↔ c ∈ s.
Proof. rewrite Ch_in_stripAnsi, stripAnsi_plain. reflexivity. Qed.

(** [split] yields at least one piece, and no piece holds the separator. *)
Lemma splitOn_nonempty {A} `{EqDecision A} (sep : A) (s : list A) :
  splitOn sep s ≠ [].
Proof.
  destruct s as [|c r]; simpl; [discriminate|].
  destruct (decide (c = sep)); [discriminate|].
  destruct (splitOn sep r); discriminate.
Qed.

Lemma splitOn_no_sep {A} `{EqDecision A} (sep : A) (s piece : list A) :
  piece ∈ splitOn sep s → sep ∉ piece.
Proof.
  revert piece. induction s as [|c r IH]; simpl; intros piece Hin.
  - apply list_elem_of_singleton in Hin. subst. apply not_elem_of_nil.
  - destruct (decide (c = sep)) as [->|Hne].
    + apply elem_of_cons in Hin as [->|Hin]; [apply not_elem_of_nil | auto].
    + destruct (splitOn sep r) as [|l ls] eqn:E.
      * apply list_elem_of_singleton in Hin. subst.
        intros Hc. apply list_elem_of_singleton in Hc. congruence.
      * apply elem_of_cons in Hin as [->|Hin].
        -- intros Hc. apply elem_of_cons in Hc as [Hc|Hc]; [congruence|].
           revert Hc. apply IH. left.
        -- apply IH. right. assumption.
Qed.

(** Splitting what [join] glued gives the pieces back, when no piece
    holds the separator. *)
Lemma splitOn_joinWith {A} `{EqDecision A} (sep : A) (parts : list (list A)) :
  parts ≠ [] →
  (∀ p, p ∈ parts → sep ∉ p) →
  splitOn sep (joinWith [sep] parts) = parts.
Proof.
  assert (Hone : ∀ p : list A, sep ∉ p → ∀ rest,
             splitOn sep (p ++ sep :: rest) = p :: splitOn sep rest).
  { induction p as [|c p IH]; intros Hp rest; simpl.
    - destruct (decide (sep = sep)); [reflexivity|congruence].
    - destruct (decide (c = sep)) as [->|Hne].
      + exfalso. apply Hp. left.
      + rewrite IH; [reflexivity|]. intros Hc. apply Hp. right. assumption. }
  assert (Hlast : ∀ p : list A, sep ∉ p → splitOn sep p = [p]).
  { induction p as [|c p IH]; intros Hp; simpl; [reflexivity|].
    destruct (decide (c = sep)) as [->|Hne].
    - exfalso. apply Hp. left.
    - rewrite IH; [reflexivity|]. intros Hc. apply Hp. right. assumption. }
  induction parts as [|p rest IH]; intros Hne Hall; [congruence|].
  destruct rest as [|q rest].
  - simpl. apply Hlast. apply Hall. left.
  - change (joinWith [sep] (p :: q :: rest))
      with (p ++ [sep] ++ joinWith [sep] (q :: rest)).
    simpl app at 2. rewrite Hone by (apply Hall; left).
    f_equal. apply IH; [discriminate|].
    intros r Hr. apply Hall. right. assumption.
Qed.

(** With no limit, selectRecentDialogMessages keeps the dialog records
    in their order. *)
Lemma collectRecent_unbounded (backwards : list (option Message)) (subset : list Message) :
  collectRecent None backwards subset = subset ++ omap dialogEntry backwards.
Proof.
  revert subset. induction backwards as [|m rest IH]; intros subset; simpl.
  - rewrite app_nil_r. reflexivity.
  - destruct m as [m|]; simpl; [|apply IH].
    destruct (isDialog m); simpl; [|apply IH].
    rewrite IH, <- app_assoc. reflexivity.
Qed.

Lemma omap_rev {A B} (f : A → option B) (l : list A) :
  omap f (rev l) = rev (omap f l).
Proof.
  induction l as [|x l IH]; [reflexivity|].
  simpl rev. rewrite omap_app, IH. simpl.
  destruct (f x); simpl; [reflexivity|rewrite app_nil_r; reflexivity].
Qed.

Lemma selectRecentDialogMessages_unbounded (messages : list (option Message)) :
  selectRecentDialogMessages messages None = omap dialogEntry messages.
Proof.
  unfold selectRecentDialogMessages.
  rewrite collectRecent_unbounded. simpl.
  rewrite omap_rev, rev_involutive. reflexivity.
Qed.

(** * The preview formatter *)

Section FormatterFacts.

Variable stringWidth : jsstring -> nat.
Variable fmtTime : Z -> jsstring.
Variable chalkHex : jsstring -> jsstring -> text.

(** What the wrapping relies on from the libraries: the width of a
    string is at most the sum of its parts' widths, a character takes at
    most two columns and a printable ASCII character one, the clock
    string is short ('HH:mm:ss', or dayjs' 'Invalid Date') and on one
    line, and chalk only adds escape sequences. *)
Hypothesis width_nil : stringWidth [] = 0%nat.
Hypothesis width_app :
  ∀ a b, (stringWidth (a ++ b) ≤ stringWidth a + stringWidth b)%nat.
Hypothesis width_char : ∀ c, (stringWidth [c] ≤ 2)%nat.
Hypothesis width_ascii :
  ∀ c, (32 ≤ c)%N → (c ≤ 126)%N → (stringWidth [c] ≤ 1)%nat.
Hypothesis time_width : ∀ t, (stringWidth (fmtTime t) ≤ 12)%nat.
Hypothesis time_one_line : ∀ t, NL ∉ fmtTime t.
Hypothesis chalk_strip : ∀ colour s, stripAnsi (chalkHex colour s) = s.

Lemma charSum_app (a b : jsstring) :
  charSum stringWidth (a ++ b) = (charSum stringWidth a + charSum stringWidth b)%nat.
Proof. induction a as [|c a IH]; simpl; [reflexivity|rewrite IH; lia]. Qed.

Lemma stringWidth_le_charSum (s : jsstring) :
  (stringWidth s ≤ charSum stringWidth s)%nat.
Proof.
  induction s as [|c r IH]; simpl; [rewrite width_nil; lia|].
  change (c :: r) with ([c] ++ r).
  pose proof (width_app [c] r). lia.
Qed.

Lemma wrapLoop_fits (maxWidth : Z) (chars : jsstring) :
  2 ≤ maxWidth →
  ∀ result cur width,
    width = charSum stringWidth cur →
    Z.of_nat width ≤ maxWidth →
    Forall (fun seg => Z.of_nat (charSum stringWidth seg) ≤ maxWidth) result →
    Forall (fun seg => Z.of_nat (charSum stringWidth seg) ≤ maxWidth)
      ((wrapLoop stringWidth maxWidth chars result cur width).1
       ++ [(wrapLoop stringWidth maxWidth chars result cur width).2]).
Proof.
  intros Hmax. induction chars as [|ch rest IH]; intros result cur width Hw Hfit Hres.
  - simpl. apply Forall_app. split; [assumption|].
    apply Forall_cons. split; [subst; assumption|apply Forall_nil; exact I].
  - simpl. pose proof (width_char ch) as Hch.
    destruct ((Z.of_nat (width + stringWidth [ch]) >? maxWidth) && negb (isEmpty cur))
      eqn:Hbreak.
    + apply IH.
      * simpl. lia.
      * lia.
      * apply Forall_app. split; [assumption|].
        apply Forall_cons. split; [subst; assumption|apply Forall_nil; exact I].
    + apply IH.
      * rewrite charSum_app. simpl. lia.
      * apply andb_false_iff in Hbreak as [Hle|Hcur].
        -- rewrite Z.gtb_ltb in Hle. apply Z.ltb_ge in Hle. assumption.
        -- destruct cur; [|discriminate]. subst width. simpl. lia.
      * assumption.
Qed.

Lemma wrapLoop_chars (maxWidth : Z) (chars : jsstring) :
  ∀ result cur width,
    concat ((wrapLoop stringWidth maxWidth chars result cur width).1
            ++ [(wrapLoop stringWidth maxWidth chars result cur width).2])
    = concat result ++ cur ++ chars.
Proof.
  induction chars as [|ch rest IH]; intros result cur width; simpl.
  - rewrite concat_app. simpl. rewrite !app_nil_r. reflexivity.
  - destruct ((Z.of_nat (width + stringWidth [ch]) >? maxWidth) && negb (isEmpty cur)).
    + rewrite IH, concat_app. simpl. rewrite app_nil_r, <- app_assoc. reflexivity.
    + rewrite IH, <- app_assoc. reflexivity.
Qed.

Lemma wrapPlainLine_segments (line : jsstring) (maxWidth : Z) :
  ∃ dropped,
    (wrapLoop stringWidth maxWidth line [] [] 0%nat).1
    ++ [(wrapLoop stringWidth maxWidth line [] [] 0%nat).2]
    = wrapPlainLine stringWidth line maxWidth ++ dropped
    ∧ concat dropped = [].
Proof.
  unfold wrapPlainLine.
  destruct (wrapLoop stringWidth maxWidth line [] [] 0%nat) as [result cur].
  destruct (negb (isEmpty cur) || isEmpty line) eqn:E.
  - exists []. rewrite app_nil_r. split; reflexivity.
  - exists [cur]. split; [reflexivity|].
    apply orb_false_iff in E as [Hcur _].
    destruct cur; [reflexivity|discriminate].
Qed.

(** Every segment of a wrapped line fits the width it was wrapped to. *)
Lemma wrapPlainLine_fits (line seg : jsstring) (maxWidth : Z) :
  2 ≤ maxWidth →
  seg ∈ wrapPlainLine stringWidth line maxWidth →
  Z.of_nat (stringWidth seg) ≤ maxWidth.
Proof.
  intros Hmax Hin.
  pose proof (wrapLoop_fits maxWidth line Hmax [] [] 0%nat eq_refl) as Hfit.
  destruct (wrapPlainLine_segments line maxWidth) as (dropped & Heq & _).
  rewrite Heq in Hfit.
  assert (Hall : Forall (fun seg => Z.of_nat (charSum stringWidth seg) ≤ maxWidth)
                   (wrapPlainLine stringWidth line maxWidth ++ dropped)).
  { apply Hfit; [simpl; lia|apply Forall_nil; exact I]. }
  apply Forall_app in Hall as [Hall _].
  rewrite Forall_forall in Hall. specialize (Hall seg Hin).
  pose proof (stringWidth_le_charSum seg). lia.
Qed.

(** The segments are the line, cut. *)
Lemma wrapPlainLine_concat (line : jsstring) (maxWidth : Z) :
  concat (wrapPlainLine stringWidth line maxWidth) = line.
Proof.
  pose proof (wrapLoop_chars maxWidth line [] [] 0%nat) as Hc.
  destruct (wrapPlainLine_segments line maxWidth) as (dropped & Heq & Hd).
  rewrite Heq, concat_app, Hd, app_nil_r in Hc. exact Hc.
Qed.

Lemma wrapPlainLine_chars (line seg : jsstring) (maxWidth : Z) (c : N) :
  seg ∈ wrapPlainLine stringWidth line maxWidth → c ∈ seg → c ∈ line.
Proof.
  intros Hseg Hc. rewrite <- (wrapPlainLine_concat line maxWidth).
  apply list_elem_of_In, in_concat. exists seg.
  split; apply list_elem_of_In; assumption.
Qed.

Lemma charSum_ascii (s : jsstring) :
  Forall (fun c => (32 ≤ c)%N ∧ (c ≤ 126)%N) s →
  (charSum stringWidth s ≤ length s)%nat.
Proof.
  induction 1 as [|c r [Hlo Hhi] _ IH]; simpl; [lia|].
  pose proof (width_ascii c Hlo Hhi). lia.
Qed.

Lemma roleLabel_width (isUser : bool) :
  (charSum stringWidth (if isUser then lit "User" else lit "AI") ≤ 4)%nat.
Proof.
  destruct isUser.
  - etransitivity; [apply charSum_ascii|simpl; lia].
    repeat (apply Forall_cons; split; [split; discriminate|]). apply Forall_nil. exact I.
  - etransitivity; [apply charSum_ascii|simpl; lia].
    repeat (apply Forall_cons; split; [split; discriminate|]). apply Forall_nil. exact I.
Qed.

Lemma roleLabel_one_line (isUser : bool) :
  NL ∉ (if isUser then lit "User" else lit "AI").
Proof.
  destruct isUser; intros H; cbn in H;
    repeat (apply elem_of_cons in H as [H|H]; [discriminate H|]);
    inversion H.
Qed.

Lemma prefix_width : (stringWidth [BAR; SPACE] ≤ 3)%nat.
Proof.
  pose proof (stringWidth_le_charSum [BAR; SPACE]) as H. simpl in H.
  pose proof (width_char BAR).
  assert (stringWidth [SPACE] ≤ 1)%nat by (apply width_ascii; discriminate).
  lia.
Qed.

(** The lines of one turn, wrapped to 20 columns: none is wider, and
    none holds a line break. *)
Lemma blockLines_fit (it : Message) (line : text) :
  line ∈ blockLines stringWidth fmtTime (Some chalkHex) (Some 20) it →
  (displayWidth stringWidth line ≤ 20)%nat ∧ Ch NL ∉ line.
Proof.
  unfold blockLines, displayWidth, paint.
  set (isUser := bool_decide (role it = roleUser)).
  set (label := if isUser then lit "User" else lit "AI").
  set (colour := if isUser then THEME_orange else THEME_green).
  set (ts := match timestamp it with Some t => fmtTime t | None => [] end).
  pose proof prefix_width as Hpre.
  assert (Hgt : (20 >? Z.of_nat (stringWidth [BAR; SPACE]) + 1) = true)
    by (rewrite Z.gtb_ltb; apply Z.ltb_lt; lia).
  rewrite Hgt.
  intros Hin. apply elem_of_cons in Hin as [->|Hin].
  - (* the header *)
    assert (Hstrip : stripAnsi ((chalkHex colour [BAR] ++ [Ch SPACE])
                       ++ chalkHex colour label ++ [Ch SPACE] ++ chalkHex THEME_gray ts)
                     = ([BAR; SPACE] ++ label ++ [SPACE]) ++ ts).
    { rewrite !stripAnsi_app, !chalk_strip. simpl. rewrite <- !app_assoc. reflexivity. }
    rewrite Hstrip. split.
    + pose proof (width_app ([BAR; SPACE] ++ label ++ [SPACE]) ts) as Happ.
      pose proof (stringWidth_le_charSum ([BAR; SPACE] ++ label ++ [SPACE])) as Hsum.
      pose proof (roleLabel_width isUser) as Hlabel. fold label in Hlabel.
      pose proof (width_char BAR).
      assert (stringWidth [SPACE] ≤ 1)%nat by (apply width_ascii; discriminate).
      assert (charSum stringWidth ([BAR; SPACE] ++ label ++ [SPACE]) ≤ 8)%nat
        by (rewrite !charSum_app; simpl; lia).
      assert (stringWidth ts ≤ 12)%nat.
      { subst ts. destruct (timestamp it); [apply time_width|rewrite width_nil; lia]. }
      lia.
    + rewrite Ch_in_stripAnsi, Hstrip.
      rewrite !elem_of_app. intros [[H|[H|H]]|H].
      * repeat (apply elem_of_cons in H as [H|H]; [discriminate H|]). inversion H.
      * revert H. apply roleLabel_one_line.
      * apply list_elem_of_singleton in H. discriminate H.
      * subst ts. destruct (timestamp it); [revert H; apply time_one_line|inversion H].
  - apply elem_of_app in Hin as [Hin|Hin].
    + (* a body line *)
      apply list_elem_of_In, in_flat_map in Hin as (raw & Hraw & Hin).
      apply in_map_iff in Hin as (seg & <- & Hseg).
      apply list_elem_of_In in Hraw, Hseg.
      assert (Hstrip : stripAnsi ((chalkHex colour [BAR] ++ [Ch SPACE]) ++ plain seg)
                       = [BAR; SPACE] ++ seg).
      { rewrite !stripAnsi_app, chalk_strip, stripAnsi_plain. reflexivity. }
      rewrite Hstrip. split.
      * pose proof (width_app [BAR; SPACE] seg) as Happ.
        pose proof (wrapPlainLine_fits raw seg
                      (20 - Z.of_nat (stringWidth [BAR; SPACE]))) as Hfit.
        specialize (Hfit ltac:(lia) Hseg). lia.
      * rewrite Ch_in_stripAnsi, Hstrip. intros H.
        apply elem_of_app in H as [H|H].
        -- repeat (apply elem_of_cons in H as [H|H]; [discriminate H|]). inversion H.
        -- apply (splitOn_no_sep NL (mtext it) raw Hraw).
           apply (wrapPlainLine_chars raw seg _ NL Hseg H).
    + (* the empty line after the turn *)
      apply list_elem_of_singleton in Hin. subst line. simpl.
      rewrite width_nil. split; [lia|apply not_elem_of_nil].
Qed.

Lemma formatPreviewBlocks_lines (items : list Message) (line : text) :
  line ∈ visualLines (formatPreviewBlocks stringWidth fmtTime items (Some chalkHex) (Some 20)) →
  (displayWidth stringWidth line ≤ 20)%nat.
Proof.
  unfold visualLines, formatPreviewBlocks.
  assert (Hall : ∀ l, l ∈ formatPreviewLinesOut stringWidth fmtTime items
                        (Some chalkHex) (Some 20) →
                 (displayWidth stringWidth l ≤ 20)%nat ∧ Ch NL ∉ l).
  { intros l Hl. apply list_elem_of_In, in_flat_map in Hl as (it & _ & Hl).
    apply list_elem_of_In in Hl. apply (blockLines_fit it l Hl). }
  destruct (formatPreviewLinesOut stringWidth fmtTime items (Some chalkHex) (Some 20))
    as [|l0 ls] eqn:E.
  - simpl. intros H. apply list_elem_of_singleton in H. subst line.
    unfold displayWidth. simpl. rewrite width_nil. lia.
  - rewrite splitOn_joinWith; [|discriminate|intros p Hp; apply (Hall p Hp)].
    intros H. apply (Hall line H).
Qed.

End FormatterFacts.

Lemma omap_filter_None {A B} (f : A → option B) (P : A → Prop)
    `{∀ x, Decision (P x)} (l : list A) :
  (∀ x, ¬ P x → f x = None) → omap f (filter P l) = omap f l.
Proof.
  intros Hf. induction l as [|x l IH]; [reflexivity|].
  change (x :: l) with ([x] ++ l) at 2. rewrite omap_app, <- IH.
  rewrite filter_cons. destruct (decide (P x)) as [Hp|Hn].
  - change (x :: filter P l) with ([x] ++ filter P l).
    rewrite omap_app. reflexivity.
  - simpl. rewrite (Hf x Hn). reflexivity.
Qed.

Lemma previewItems_skips (messages : list (option Message)) (hide : list jsstring)
    (r : jsstring) :
  r ≠ roleUser → r ≠ roleAssistant →
  previewItems (filter (fun m => roleOf m ≠ Some r) messages) hide
  = previewItems messages hide.
Proof.
  intros Hu Ha. unfold previewItems.
  rewrite !selectRecentDialogMessages_unbounded.
  rewrite omap_filter_None; [reflexivity|].
  intros [m|] Hm; [|reflexivity]. simpl.
  destruct (decide (role m = r)) as [Heq|Hne].
  - unfold isDialog. rewrite !bool_decide_eq_false_2 by congruence. reflexivity.
  - exfalso. apply Hm. simpl. congruence.
Qed.

(** ** The example terminal meets what the formatter relies on *)

Lemma columns_app (a b : jsstring) :
  (columns (a ++ b) ≤ columns a + columns b)%nat.
Proof. induction a as [|c a IH]; simpl; lia. Qed.

Lemma columns_char (c : N) : (columns [c] ≤ 2)%nat.
Proof. simpl. unfold charColumns. repeat case_match; lia. Qed.

Lemma columns_ascii (c : N) : (32 ≤ c)%N → (c ≤ 126)%N → (columns [c] ≤ 1)%nat.
Proof.
  intros Hlo Hhi. simpl. unfold charColumns.
  destruct (N.ltb_spec c 32); [lia|].
  destruct (N.leb_spec 127 c), (N.ltb_spec c 160); simpl; try lia;
    destruct (N.leb_spec 19968 c), (N.leb_spec c 40959); simpl; lia.
Qed.

Lemma digit_range (n : Z) : (48 ≤ digit n)%N ∧ (digit n ≤ 57)%N.
Proof.
  unfold digit. pose proof (Z.mod_pos_bound n 10 ltac:(lia)). lia.
Qed.

Lemma clock_chars (t : Z) :
  Forall (fun c => (48 ≤ c)%N ∧ (c ≤ 58)%N) (clock t).
Proof.
  unfold clock, twoDigits, COLON. simpl.
  repeat (apply Forall_cons; split;
          [first [ split; discriminate
                 | match goal with |- (_ ≤ digit ?n)%N ∧ _ =>
                     pose proof (digit_range n); lia end ] |]).
  apply Forall_nil. exact I.
Qed.

Lemma clock_width (t : Z) : (columns (clock t) ≤ 12)%nat.
Proof.
  assert (Hlen : ∀ s, Forall (fun c => (48 ≤ c)%N ∧ (c ≤ 58)%N) s →
                 (columns s ≤ length s)%nat).
  { induction 1 as [|c r [Hlo Hhi] _ IH]; simpl; [lia|].
    pose proof (columns_ascii c ltac:(lia) ltac:(lia)) as Hc. simpl in Hc. lia. }
  specialize (Hlen (clock t) (clock_chars t)).
  unfold clock, twoDigits in Hlen. simpl in Hlen. unfold clock, twoDigits. simpl. lia.
Qed.

Lemma clock_one_line (t : Z) : NL ∉ clock t.
Proof.
  intros Hin. pose proof (clock_chars t) as Hall.
  rewrite Forall_forall in Hall. destruct (Hall NL Hin) as [Hlo _].
  unfold NL in Hlo. lia.
Qed.

Lemma sgrHex_strip (colour s : jsstring) : stripAnsi (sgrHex colour s) = s.
Proof.
  unfold sgrHex. simpl. rewrite stripAnsi_app, stripAnsi_plain. simpl.
  apply app_nil_r.
Qed.

(** * Claims about the preview formatter *)

(** C7. Formatting any list of turns with hidden roles {"tool"} and
    wrapWidth 20 gives no visual line, header or body, wider than 20
    display columns (characters counted by their display width), and
    the turns whose role is "tool" contribute nothing: the output is
    the one of the list without them. *)
Theorem preview_fits_20_columns
    (stringWidth : jsstring → nat) (fmtTime : Z → jsstring)
    (chalkHex : jsstring → jsstring → text)
    (width_nil : stringWidth [] = 0%nat)
    (width_app : ∀ a b, (stringWidth (a ++ b) ≤ stringWidth a + stringWidth b)%nat)
    (width_char : ∀ c, (stringWidth [c] ≤ 2)%nat)
    (width_ascii : ∀ c, (32 ≤ c)%N → (c ≤ 126)%N → (stringWidth [c] ≤ 1)%nat)
    (time_width : ∀ t, (stringWidth (fmtTime t) ≤ 12)%nat)
    (time_one_line : ∀ t, NL ∉ fmtTime t)
    (chalk_strip : ∀ colour s, stripAnsi (chalkHex colour s) = s)
    (turns : list (option Message)) :
  (∀ line,
     line ∈ visualLines
              (buildDialogPreviewBlocks stringWidth fmtTime chalkHex turns
                 [lit "tool"] (Some 20)) →
     (displayWidth stringWidth line ≤ 20)%nat)
  ∧ buildDialogPreviewBlocks stringWidth fmtTime chalkHex turns [lit "tool"] (Some 20)
    = buildDialogPreviewBlocks stringWidth fmtTime chalkHex
        (filter (fun m => roleOf m ≠ Some (lit "tool")) turns) [lit "tool"] (Some 20).
Proof.
  split.
  - intros line Hline. unfold buildDialogPreviewBlocks in Hline.
    eapply formatPreviewBlocks_lines; eauto.
  - unfold buildDialogPreviewBlocks.
    rewrite previewItems_skips; [reflexivity|discriminate|discriminate].
Qed.

Lemma preview_fits_20_columns_witness :
  (∀ line,
     line ∈ visualLines
              (buildDialogPreviewBlocks columns clock sgrHex sampleLog
                 [lit "tool"] (Some 20)) →
     (displayWidth columns line ≤ 20)%nat)
  ∧ buildDialogPreviewBlocks columns clock sgrHex sampleLog [lit "tool"] (Some 20)
    = buildDialogPreviewBlocks columns clock sgrHex
        (filter (fun m => roleOf m ≠ Some (lit "tool")) sampleLog) [lit "tool"] (Some 20).
Proof.
  exact (preview_fits_20_columns columns clock sgrHex eq_refl columns_app
           columns_char columns_ascii clock_width clock_one_line sgrHex_strip
           sampleLog).
Defined.

(** * The formatter among the objects of the program *)

Lemma recordAt_weaken (h h' : gmap loc Cell) (e : option loc) (m : option Message) :
  h ⊆ h' → recordAt h e = Some m → recordAt h' e = Some m.
Proof.
  intros Hsub. destruct e as [r|]; [|exact id]. unfold recordAt.
  destruct (h !! r) as [c|] eqn:Hr; [|discriminate].
  rewrite (lookup_weaken h h' r c Hr Hsub). exact id.
Qed.

Lemma recordsAt_Some (h : gmap loc Cell) (arr : loc) (ms : list (option Message)) :
  recordsAt h arr = Some ms
  ↔ ∃ elems, h !! arr = Some (CArray elems)
             ∧ Forall2 (fun e m => recordAt h e = Some m) elems ms.
Proof.
  unfold recordsAt. split.
  - destruct (h !! arr) as [[elems|m]|]; try discriminate.
    intros H. exists elems. split; [reflexivity|apply mapM_Some_1, H].
  - intros (elems & -> & H). apply mapM_Some_2, H.
Qed.

Lemma recordsAt_weaken (h h' : gmap loc Cell) (arr : loc) (ms : list (option Message)) :
  h ⊆ h' → recordsAt h arr = Some ms → recordsAt h' arr = Some ms.
Proof.
  intros Hsub (elems & Harr & H)%recordsAt_Some. apply recordsAt_Some.
  exists elems. split; [exact (lookup_weaken _ _ _ _ Harr Hsub)|].
  eapply Forall2_impl; [exact H|]. intros e m. apply recordAt_weaken, Hsub.
Qed.

Lemma Forall2_rev_both {A B} (P : A → B → Prop) (l : list A) (k : list B) :
  Forall2 P l k → Forall2 P (rev l) (rev k).
Proof.
  induction 1 as [|x y l k Hxy _ IH]; [constructor|].
  simpl. apply Forall2_app; [exact IH|]. constructor; [exact Hxy|constructor].
Qed.

Section EffectFacts.

Variable Outside : Type.
Variable stringWidthIn : Outside -> jsstring -> nat * Outside.
Variable dayjsFormatIn : Outside -> Z -> jsstring * Outside.
Variable chalkHexIn : Outside -> jsstring -> jsstring -> text * Outside.

(** The libraries only consult the outside: a call leaves it as it
    found it. *)
Hypothesis width_reads : ∀ o s, (stringWidthIn o s).2 = o.
Hypothesis dayjs_reads : ∀ o t, (dayjsFormatIn o t).2 = o.
Hypothesis chalk_reads : ∀ o c s, (chalkHexIn o c s).2 = o.

(** What the libraries answer in the outside [o]. *)
Local Abbreviation widthAt o := (fun s => (stringWidthIn o s).1).
Local Abbreviation timeAt o := (fun t => (dayjsFormatIn o t).1).
Local Abbreviation chalkAt o := (fun c s => (chalkHexIn o c s).1).

Lemma untouched_refl (σ : Store Outside) : untouched Outside σ σ.
Proof. split; reflexivity. Qed.

Lemma untouched_trans (σ1 σ2 σ3 : Store Outside) :
  untouched Outside σ1 σ2 → untouched Outside σ2 σ3 → untouched Outside σ1 σ3.
Proof.
  intros [Ho1 Hh1] [Ho2 Hh2]. split; [congruence|].
  etransitivity; eassumption.
Qed.

Lemma call_reads {A} (f : Outside → A * Outside) (σ : Store Outside) :
  (∀ o, (f o).2 = o) → call Outside f σ = Some ((f (outside σ)).1, σ).
Proof.
  intros H. unfold call. specialize (H (outside σ)).
  destruct (f (outside σ)) as [a o]. simpl in H. subst o.
  destruct σ; reflexivity.
Qed.

Lemma alloc_fresh (c : Cell) (σ : Store Outside) :
  ∃ l, alloc Outside c σ = Some (l, mkStore (outside σ) (<[l := c]> (heap σ)))
       ∧ heap σ !! l = None.
Proof.
  exists (fresh (dom (heap σ))). split; [reflexivity|].
  apply not_elem_of_dom, is_fresh.
Qed.

(** *** formatPreviewBlocks calls the libraries and nothing else *)

Lemma paintE_reads (chalk : bool) (colour s : jsstring) (σ : Store Outside) :
  paintE Outside chalkHexIn chalk colour s σ
  = Some (paint (if chalk then Some (chalkAt (outside σ)) else None) colour s, σ).
Proof.
  destruct chalk; [|reflexivity]. unfold paintE.
  rewrite call_reads by (intros o; apply chalk_reads). reflexivity.
Qed.

Lemma wrapLoopE_reads (maxWidth : Z) (chars : jsstring) (result : list jsstring)
    (cur : jsstring) (width : nat) (σ : Store Outside) :
  wrapLoopE Outside stringWidthIn maxWidth chars result cur width σ
  = Some (wrapLoop (widthAt (outside σ)) maxWidth chars result cur width, σ).
Proof.
  revert result cur width.
  induction chars as [|ch rest IH]; intros result cur width; [reflexivity|].
  cbn [wrapLoopE wrapLoop]. unfold bindE.
  rewrite call_reads by (intros o; apply width_reads).
  destruct ((Z.of_nat (width + (stringWidthIn (outside σ) [ch]).1) >? maxWidth)
            && negb (isEmpty cur)); apply IH.
Qed.

Lemma wrapPlainLineE_reads (line : jsstring) (maxWidth : Z) (σ : Store Outside) :
  wrapPlainLineE Outside stringWidthIn line maxWidth σ
  = Some (wrapPlainLine (widthAt (outside σ)) line maxWidth, σ).
Proof.
  unfold wrapPlainLineE, wrapPlainLine, bindE. rewrite wrapLoopE_reads.
  destruct (wrapLoop _ maxWidth line [] [] 0) as [result cur]. reflexivity.
Qed.

Lemma bodyLinesE_reads (barPrefix : text) (contentWidth : option Z)
    (rawLines : list jsstring) (σ : Store Outside) :
  bodyLinesE Outside stringWidthIn barPrefix contentWidth rawLines σ
  = Some (flat_map (fun raw =>
            match contentWidth with
            | None => [barPrefix ++ plain raw]
            | Some cw => map (fun seg => barPrefix ++ plain seg)
                           (wrapPlainLine (widthAt (outside σ)) raw cw)
            end) rawLines, σ).
Proof.
  induction rawLines as [|raw rest IH]; [reflexivity|].
  cbn [bodyLinesE flat_map]. unfold bindE at 1.
  destruct contentWidth as [cw|].
  - unfold bindE at 1. rewrite wrapPlainLineE_reads. unfold retE at 1.
    unfold bindE. rewrite IH. reflexivity.
  - unfold retE at 1. unfold bindE. rewrite IH. reflexivity.
Qed.

Lemma blockLinesE_reads (chalk : bool) (wrapWidth : option Z) (it : Message)
    (σ : Store Outside) :
  blockLinesE Outside stringWidthIn dayjsFormatIn chalkHexIn chalk wrapWidth it σ
  = Some (blockLines (widthAt (outside σ)) (timeAt (outside σ))
            (if chalk then Some (chalkAt (outside σ)) else None) wrapWidth it, σ).
Proof.
  unfold blockLinesE, blockLines. unfold bindE at 1.
  assert (Hts : match timestamp it with
                | Some t => call Outside (fun o => dayjsFormatIn o t)
                | None => retE Outside []
                end σ
                = Some (match timestamp it with
                        | Some t => (dayjsFormatIn (outside σ) t).1
                        | None => []
                        end, σ)).
  { destruct (timestamp it) as [t|]; [|reflexivity].
    apply call_reads. intros o. apply dayjs_reads. }
  rewrite Hts. cbv zeta.
  unfold bindE at 1. rewrite paintE_reads.
  unfold bindE at 1. rewrite call_reads by (intros o; apply width_reads).
  unfold bindE at 1. rewrite paintE_reads.
  unfold bindE at 1. rewrite paintE_reads.
  unfold bindE at 1. rewrite bodyLinesE_reads.
  reflexivity.
Qed.

Lemma formatItemsE_reads (chalk : bool) (wrapWidth : option Z)
    (elems : list (option loc)) (items : list Message) (σ : Store Outside) :
  Forall2 (fun e m => recordAt (heap σ) e = Some (Some m)) elems items →
  formatItemsE Outside stringWidthIn dayjsFormatIn chalkHexIn chalk wrapWidth elems σ
  = Some (formatPreviewLinesOut (widthAt (outside σ)) (timeAt (outside σ)) items
            (if chalk then Some (chalkAt (outside σ)) else None) wrapWidth, σ).
Proof.
  induction 1 as [|e m elems items He _ IH]; [reflexivity|].
  destruct e as [r|]; [|discriminate He].
  unfold recordAt in He. destruct (heap σ !! r) as [[?|m']|] eqn:Hr; try discriminate.
  injection He as ->.
  cbn [formatItemsE]. unfold bindE at 1. unfold readRecord. rewrite Hr.
  unfold bindE at 1. rewrite blockLinesE_reads.
  unfold bindE. rewrite IH. reflexivity.
Qed.

Lemma formatPreviewBlocksE_reads (items : loc) (chalk : bool) (wrapWidth : option Z)
    (its : list Message) (σ : Store Outside) :
  recordsAt (heap σ) items = Some (map Some its) →
  formatPreviewBlocksE Outside stringWidthIn dayjsFormatIn chalkHexIn
    items chalk wrapWidth σ
  = Some (formatPreviewBlocks (widthAt (outside σ)) (timeAt (outside σ)) its
            (if chalk then Some (chalkAt (outside σ)) else None) wrapWidth, σ).
Proof.
  intros (elems & Harr & H)%recordsAt_Some.
  apply Forall2_fmap_r in H.
  unfold formatPreviewBlocksE, bindE, readArray. rewrite Harr.
  rewrite (formatItemsE_reads chalk wrapWidth elems its σ H). reflexivity.
Qed.

(** *** The filter, the map and selectRecentDialogMessages write only
    to what they have made themselves *)

Local Abbreviation holds h := (fun (e : option loc) (m : Message) =>
                         recordAt h e = Some (Some m)).

Lemma holds_weaken (h h' : gmap loc Cell) (elems : list (option loc))
    (items : list Message) :
  h ⊆ h' → Forall2 (holds h) elems items → Forall2 (holds h') elems items.
Proof.
  intros Hsub H. eapply Forall2_impl; [exact H|].
  intros e m. apply recordAt_weaken, Hsub.
Qed.

Lemma keepRecords_reads (keep : Message → bool) (elems : list (option loc))
    (items : list Message) (σ : Store Outside) :
  Forall2 (holds (heap σ)) elems items →
  ∃ kept, keepRecords Outside keep elems σ = Some (kept, σ)
          ∧ Forall2 (holds (heap σ)) kept (filter (fun it => keep it = true) items).
Proof.
  induction 1 as [|e m elems items He _ (kept & Hrun & Hkept)].
  - exists []. split; [reflexivity|constructor].
  - destruct e as [r|]; [|discriminate He].
    pose proof He as He'.
    unfold recordAt in He'. destruct (heap σ !! r) as [[?|m']|] eqn:Hr; try discriminate.
    injection He' as ->.
    exists (if keep m then Some r :: kept else kept). split.
    + cbn [keepRecords]. unfold bindE at 1. unfold readRecord. rewrite Hr.
      unfold bindE. rewrite Hrun. reflexivity.
    + destruct (keep m) eqn:Hk.
      * rewrite filter_cons_True by exact Hk. constructor; assumption.
      * rewrite filter_cons_False by (rewrite Hk; discriminate). exact Hkept.
Qed.

Lemma filterE_spec (keep : Message → bool) (arr : loc) (items : list Message)
    (σ : Store Outside) :
  recordsAt (heap σ) arr = Some (map Some items) →
  ∃ l σ', filterE Outside keep arr σ = Some (l, σ')
          ∧ untouched Outside σ σ'
          ∧ recordsAt (heap σ') l
            = Some (map Some (filter (fun it => keep it = true) items)).
Proof.
  intros (elems & Harr & H)%recordsAt_Some. apply Forall2_fmap_r in H.
  destruct (keepRecords_reads keep elems items σ H) as (kept & Hrun & Hkept).
  destruct (alloc_fresh (CArray kept) σ) as (l & Halloc & Hl).
  exists l, (mkStore (outside σ) (<[l := CArray kept]> (heap σ))).
  assert (Hsub : heap σ ⊆ <[l := CArray kept]> (heap σ)) by (apply insert_subseteq, Hl).
  split; [|split].
  - unfold filterE, bindE, readArray. rewrite Harr, Hrun. exact Halloc.
  - split; [reflexivity|exact Hsub].
  - apply recordsAt_Some. exists kept. split; [apply lookup_insert_eq|].
    apply Forall2_fmap_r. cbn [heap]. apply (holds_weaken _ _ _ _ Hsub Hkept).
Qed.

Lemma copyRecords_spec (f : Message → Message) (elems : list (option loc))
    (items : list Message) (σ : Store Outside) :
  Forall2 (holds (heap σ)) elems items →
  ∃ copies σ', copyRecords Outside f elems σ = Some (copies, σ')
               ∧ untouched Outside σ σ'
               ∧ Forall2 (holds (heap σ')) copies (map f items).
Proof.
  intros H. revert items σ H.
  induction elems as [|e elems IH]; intros items σ H.
  - apply Forall2_nil_inv_l in H as ->. exists [], σ.
    split; [reflexivity|]. split; [apply untouched_refl|constructor].
  - apply Forall2_cons_inv_l in H as (m & items' & He & Hrest & ->).
    destruct e as [r|]; [|discriminate He].
    pose proof He as He'.
    unfold recordAt in He'. destruct (heap σ !! r) as [[?|m']|] eqn:Hr; try discriminate.
    injection He' as ->.
    destruct (alloc_fresh (CRecord (f m)) σ) as (l & Halloc & Hl).
    set (σ1 := mkStore (outside σ) (<[l := CRecord (f m)]> (heap σ))) in *.
    assert (Hsub1 : heap σ ⊆ heap σ1) by (apply insert_subseteq, Hl).
    destruct (IH items' σ1 (holds_weaken _ _ _ _ Hsub1 Hrest))
      as (copies & σ' & Hrun & [Ho Hsub] & Hcopies).
    exists (Some l :: copies), σ'. split; [|split].
    + cbn [copyRecords]. unfold bindE at 1. unfold readRecord. rewrite Hr.
      unfold bindE at 1. rewrite Halloc. unfold bindE. rewrite Hrun. reflexivity.
    + split; [exact Ho|]. etransitivity; eassumption.
    + cbn [map]. constructor; [|exact Hcopies].
      unfold recordAt.
      rewrite (lookup_weaken (heap σ1) (heap σ') l (CRecord (f m))
                 (lookup_insert_eq _ _ _) Hsub).
      reflexivity.
Qed.

Lemma mapE_spec (f : Message → Message) (arr : loc) (items : list Message)
    (σ : Store Outside) :
  recordsAt (heap σ) arr = Some (map Some items) →
  ∃ l σ', mapE Outside f arr σ = Some (l, σ')
          ∧ untouched Outside σ σ'
          ∧ recordsAt (heap σ') l = Some (map Some (map f items)).
Proof.
  intros (elems & Harr & H)%recordsAt_Some. apply Forall2_fmap_r in H.
  destruct (copyRecords_spec f elems items σ H) as (copies & σ1 & Hrun & H1 & Hcopies).
  destruct (alloc_fresh (CArray copies) σ1) as (l & Halloc & Hl).
  exists l, (mkStore (outside σ1) (<[l := CArray copies]> (heap σ1))).
  assert (Hsub : heap σ1 ⊆ <[l := CArray copies]> (heap σ1))
    by (apply insert_subseteq, Hl).
  split; [|split].
  - unfold mapE, bindE, readArray. rewrite Harr, Hrun. exact Halloc.
  - apply (untouched_trans _ _ _ H1). split; [reflexivity|exact Hsub].
  - apply recordsAt_Some. exists copies. split; [apply lookup_insert_eq|].
    apply Forall2_fmap_r. cbn [heap]. apply (holds_weaken _ _ _ _ Hsub Hcopies).
Qed.

(** The loop of selectRecentDialogMessages: [h0] is the heap at the
    call, which has no [subset] yet. *)
Lemma collectRecentE_spec (limit : option nat) (messages subset : loc)
    (elems : list (option loc)) (msgs : list (option Message))
    (h0 : gmap loc Cell) :
  h0 !! messages = Some (CArray elems) →
  Forall2 (fun e m => recordAt h0 e = Some m) elems msgs →
  h0 !! subset = None →
  ∀ (i : nat) (σ : Store Outside) (sub : list (option loc)) (pushed : list Message),
    (i ≤ length elems)%nat →
    h0 ⊆ heap σ →
    heap σ !! subset = Some (CArray sub) →
    Forall2 (holds (heap σ)) sub pushed →
    ∃ σ' sub',
      collectRecentE Outside limit messages subset i σ = Some (tt, σ')
      ∧ outside σ' = outside σ
      ∧ h0 ⊆ heap σ'
      ∧ heap σ' !! subset = Some (CArray sub')
      ∧ Forall2 (holds (heap σ')) sub'
          (collectRecent limit (rev (take i msgs)) pushed).
Proof.
  intros Hmsgs Hall Hnew.
  induction i as [|j IH]; intros σ sub pushed Hi Hsub Harr Hsubset.
  - exists σ, sub. rewrite take_0. repeat split; assumption.
  - pose proof (Forall2_length _ _ _ Hall) as Hlen.
    destruct (lookup_lt_is_Some_2 elems j ltac:(lia)) as [e He].
    destruct (Forall2_lookup_l _ _ _ _ _ Hall He) as (m & Hm & Hem).
    rewrite (take_S_r _ _ _ Hm), rev_app_distr. cbn [rev app collectRecent].
    assert (Hlensub : length sub = length pushed) by (eapply Forall2_length; eassumption).
    cbn [collectRecentE]. unfold bindE at 1. unfold readArray at 1. rewrite Harr.
    rewrite Hlensub.
    destruct (belowLimit (length pushed) limit).
    2:{ exists σ, sub. repeat split; assumption. }
    unfold bindE at 1. unfold readArray at 1.
    rewrite (lookup_weaken _ _ _ _ Hmsgs Hsub), He.
    destruct e as [r|].
    2:{ injection Hem as <-. apply (IH σ sub pushed); [lia|assumption..]. }
    unfold recordAt in Hem.
    destruct (h0 !! r) as [[?|m0]|] eqn:Hr; try discriminate. injection Hem as <-.
    unfold bindE at 1. unfold readRecord. rewrite (lookup_weaken _ _ _ _ Hr Hsub).
    destruct (isDialog m0); [|apply (IH σ sub pushed); [lia|assumption..]].
    set (entry := mkMessage (role m0) (mtext m0) (timestamp m0)).
    destruct (alloc_fresh (CRecord entry) σ) as (l & Halloc & Hl).
    unfold bindE at 1. rewrite Halloc.
    assert (Hls : l ≠ subset) by (intros ->; rewrite Hl in Harr; discriminate).
    unfold bindE at 1. unfold pushE, bindE at 1. unfold readArray. cbn [heap].
    rewrite lookup_insert_ne by exact Hls. rewrite Harr.
    unfold writeArray. cbn [heap outside].
    rewrite lookup_insert_ne by exact Hls. rewrite Harr.
    set (h2 := <[subset := CArray (sub ++ [Some l])]> (<[l := CRecord entry]> (heap σ))).
    assert (Hkeep : ∀ r' c, r' ≠ subset → heap σ !! r' = Some c → h2 !! r' = Some c).
    { intros r' c Hne Hc. unfold h2. rewrite lookup_insert_ne by congruence.
      rewrite lookup_insert_ne; [exact Hc|]. intros <-. rewrite Hl in Hc. discriminate. }
    destruct (IH (mkStore (outside σ) h2) (sub ++ [Some l]) (pushed ++ [entry]))
      as (σ' & sub' & Hrun & Ho & Hsub' & Harr' & Hsubset').
    + lia.
    + cbn [heap]. unfold h2. apply insert_subseteq_r; [exact Hnew|].
      apply insert_subseteq_r; [|exact Hsub].
      destruct (h0 !! l) as [c|] eqn:Hc; [|reflexivity].
      rewrite (lookup_weaken _ _ _ _ Hc Hsub) in Hl. discriminate.
    + cbn [heap]. unfold h2. apply lookup_insert_eq.
    + cbn [heap]. apply Forall2_app.
      * eapply Forall2_impl; [exact Hsubset|]. intros e m He'.
        destruct e as [r'|]; [|discriminate He'].
        unfold recordAt in *. destruct (heap σ !! r') as [[?|m']|] eqn:Hr'; try discriminate.
        rewrite (Hkeep r' (CRecord m')); [exact He'| |exact Hr'].
        intros ->. rewrite Harr in Hr'. discriminate.
      * constructor; [|constructor]. unfold recordAt, h2.
        rewrite lookup_insert_ne by congruence. rewrite lookup_insert_eq. reflexivity.
    + exists σ', sub'. split; [exact Hrun|]. split; [exact Ho|].
      split; [exact Hsub'|]. split; [exact Harr'|exact Hsubset'].
Qed.

Lemma selectRecentDialogMessagesE_spec (messages : loc) (limit : option nat)
    (msgs : list (option Message)) (σ : Store Outside) :
  recordsAt (heap σ) messages = Some msgs →
  ∃ l σ', selectRecentDialogMessagesE Outside messages limit σ = Some (l, σ')
          ∧ untouched Outside σ σ'
          ∧ recordsAt (heap σ') l
            = Some (map Some (selectRecentDialogMessages msgs limit)).
Proof.
  intros (elems & Harr & Hall)%recordsAt_Some.
  unfold selectRecentDialogMessagesE. unfold bindE at 1. unfold isArray. rewrite Harr.
  cbn [negb]. unfold bindE at 1. unfold readArray at 1. rewrite Harr.
  destruct elems as [|e elems].
  - apply Forall2_nil_inv_l in Hall as ->. cbn [isEmpty].
    destruct (alloc_fresh (CArray []) σ) as (l & Halloc & Hl).
    exists l, (mkStore (outside σ) (<[l := CArray []]> (heap σ))).
    split; [exact Halloc|]. split.
    + split; [reflexivity|apply insert_subseteq, Hl].
    + apply recordsAt_Some. exists []. split; [apply lookup_insert_eq|constructor].
  - cbn [isEmpty].
    destruct (alloc_fresh (CArray []) σ) as (subset & Halloc & Hnew).
    unfold bindE at 1. rewrite Halloc.
    set (σ1 := mkStore (outside σ) (<[subset := CArray []]> (heap σ))).
    destruct (collectRecentE_spec limit messages subset (e :: elems) msgs (heap σ)
                Harr Hall Hnew (length (e :: elems)) σ1 [] [])
      as (σ2 & sub & Hrun & Ho & Hsub & Hsubset & Hitems).
    + lia.
    + apply insert_subseteq, Hnew.
    + apply lookup_insert_eq.
    + constructor.
    + unfold bindE at 1. rewrite Hrun.
      unfold bindE at 1. unfold reverseE, bindE at 1. unfold readArray. rewrite Hsubset.
      unfold writeArray. rewrite Hsubset. unfold retE.
      exists subset, (mkStore (outside σ2) (<[subset := CArray (rev sub)]> (heap σ2))).
      split; [reflexivity|]. split.
      * split; [exact Ho|]. cbn [heap]. apply insert_subseteq_r; assumption.
      * apply recordsAt_Some. exists (rev sub). cbn [heap].
        split; [apply lookup_insert_eq|]. apply Forall2_fmap_r.
        rewrite (take_ge msgs) in Hitems
          by (rewrite <- (Forall2_length _ _ _ Hall); lia).
        unfold selectRecentDialogMessages.
        apply Forall2_rev_both.
        eapply Forall2_impl; [exact Hitems|]. intros e' m He'.
        destruct e' as [r'|]; [|discriminate He'].
        unfold recordAt in *.
        destruct (heap σ2 !! r') as [[?|m']|] eqn:Hr'; try discriminate.
        rewrite lookup_insert_ne; [rewrite Hr'; exact He'|].
        intros <-. rewrite Hsubset in Hr'. discriminate.
Qed.

(** buildDialogPreviewBlocks on a log on the heap: what the function
    above computes from the records, in a store whose outside and
    whose objects of before are untouched. *)
Lemma buildDialogPreviewBlocksE_spec (messages : loc) (hide : list jsstring)
    (wrapWidth : option Z) (turns : list (option Message)) (σ : Store Outside) :
  recordsAt (heap σ) messages = Some turns →
  ∃ σ', buildDialogPreviewBlocksE Outside stringWidthIn dayjsFormatIn chalkHexIn
          messages hide wrapWidth σ
        = Some (buildDialogPreviewBlocks (widthAt (outside σ)) (timeAt (outside σ))
                  (chalkAt (outside σ)) turns hide wrapWidth, σ')
        ∧ untouched Outside σ σ'.
Proof.
  intros Hturns.
  destruct (selectRecentDialogMessagesE_spec messages None turns σ Hturns)
    as (recent & σ1 & Hrun1 & H1 & Hrecent).
  destruct (filterE_spec (fun it => keptByHide hide it) recent _ σ1 Hrecent)
    as (kept & σ2 & Hrun2 & H2 & Hkept).
  destruct (mapE_spec (fun it => mkMessage (role it) (dropCR (mtext it)) (timestamp it))
              kept _ σ2 Hkept)
    as (items & σ3 & Hrun3 & H3 & Hitems).
  pose proof (untouched_trans _ _ _ H1 (untouched_trans _ _ _ H2 H3)) as H13.
  exists σ3. split; [|exact H13].
  unfold buildDialogPreviewBlocksE.
  unfold bindE at 1. rewrite Hrun1.
  unfold bindE at 1. rewrite Hrun2.
  unfold bindE at 1. rewrite Hrun3.
  rewrite (formatPreviewBlocksE_reads items true wrapWidth _ σ3 Hitems).
  destruct H13 as [-> _]. reflexivity.
Qed.

End EffectFacts.



(** C10. Formatting an empty list of items gives the empty string,
    whatever the colouring and the wrapWidth; so does the preview of a
    log without records, whatever the hidden roles. *)
Theorem format_empty
    (stringWidth : jsstring → nat) (fmtTime : Z → jsstring)
    (chalk : option (jsstring → jsstring → text)) (chalkHex : jsstring → jsstring → text)
    (hide : list jsstring) (wrapWidth : option Z) :
  formatPreviewBlocks stringWidth fmtTime [] chalk wrapWidth = []
  ∧ buildDialogPreviewBlocks stringWidth fmtTime chalkHex [] hide wrapWidth = [].
Proof. split; reflexivity. Qed.

(** * Facts about the picker's helpers *)

Lemma nthZ_Some {A} (l : list A) (i : Z) (x : A) :
  nthZ l i = Some x → 0 ≤ i < lengthZ l.
Proof.
  unfold nthZ, lengthZ. destruct (Z.ltb_spec i 0) as [Hneg|Hpos]; [discriminate|].
  intros Hlook%lookup_lt_Some. lia.
Qed.

Lemma nthZ_in_range {A} (l : list A) (i : Z) :
  0 ≤ i < lengthZ l → is_Some (nthZ l i).
Proof.
  unfold nthZ, lengthZ. intros [Hlo Hhi].
  destruct (Z.ltb_spec i 0); [lia|]. apply lookup_lt_is_Some. lia.
Qed.

Lemma nthZ_elem_of {A} (l : list A) (i : Z) (x : A) :
  nthZ l i = Some x → x ∈ l.
Proof.
  unfold nthZ. destruct (i <? 0); [discriminate|].
  intros H. apply list_elem_of_lookup. eauto.
Qed.

(** *** Rendering leaves the core alone *)

Lemma core_renderRow (f : SessionFile) (s : State) :
  core (renderRow f s).2 = core s.
Proof. reflexivity. Qed.

Lemma core_buildBoxes (items : list SessionFile) (s : State) :
  core (buildBoxes items s) = core s.
Proof.
  revert s. induction items as [|f rest IH]; intros s; [reflexivity|].
  simpl. rewrite IH. reflexivity.
Qed.

Lemma core_updateItemBox (i : Z) (s : State) :
  core (updateItemBox i s) = core s.
Proof.
  unfold updateItemBox, renderRow. repeat case_match; simplify_eq/=; reflexivity.
Qed.

Lemma length_updateItemBox (i : Z) (s : State) :
  length (itemBoxes (updateItemBox i s)) = length (itemBoxes s).
Proof.
  unfold updateItemBox, renderRow. repeat case_match; simplify_eq/=; try reflexivity.
  apply length_insert.
Qed.

Lemma faults_updateItemBox (i : Z) (s : State) :
  is_Some (nthZ (pageItems s) i) →
  faults (updateItemBox i s) = faults s.
Proof.
  intros [f Hf]. unfold updateItemBox, renderRow. rewrite Hf.
  repeat case_match; simplify_eq/=; reflexivity.
Qed.

Lemma core_updateBoxesFrom (n : nat) (i : Z) (s : State) :
  core (updateBoxesFrom n i s) = core s.
Proof.
  revert i s. induction n as [|n IH]; intros i s; [reflexivity|].
  simpl. destruct (length (faults (updateItemBox i s)) =? length (faults s))%nat.
  - rewrite IH. apply core_updateItemBox.
  - apply core_updateItemBox.
Qed.

(** Each field of the core can be read off an equation between cores. *)
Lemma core_fields (s s' : State) :
  core s' = core s →
  visibleFiles s' = visibleFiles s ∧ currentPage s' = currentPage s
  ∧ pageItems s' = pageItems s ∧ selectedIndex s' = selectedIndex s
  ∧ metaCache s' = metaCache s ∧ msgSummaryCache s' = msgSummaryCache s
  ∧ previewCache s' = previewCache s ∧ previewContent s' = previewContent s
  ∧ destroyed s' = destroyed s ∧ fullView s' = fullView s
  ∧ modalActive s' = modalActive s ∧ editedArgs s' = editedArgs s
  ∧ overlays s' = overlays s ∧ resolved s' = resolved s.
Proof.
  intros Heq. unfold core in Heq. injection Heq as ?. repeat split; assumption.
Qed.

Lemma core_geometry (s s' : State) :
  core s' = core s →
  fullView s' = fullView s ∧ totalW s' = totalW s ∧ leftW s' = leftW s
  ∧ screenWidth s' = screenWidth s ∧ idxLoad s' = idxLoad s ∧ idxSum s' = idxSum s
  ∧ metaWorkers s' = metaWorkers s ∧ sumWorkers s' = sumWorkers s.
Proof.
  intros Heq. unfold core in Heq. injection Heq as ?. repeat split; assumption.
Qed.

Lemma skeleton_fields (s s' : State) :
  skeleton s' = skeleton s →
  visibleFiles s' = visibleFiles s ∧ currentPage s' = currentPage s
  ∧ pageItems s' = pageItems s ∧ selectedIndex s' = selectedIndex s
  ∧ destroyed s' = destroyed s ∧ fullView s' = fullView s
  ∧ modalActive s' = modalActive s ∧ editedArgs s' = editedArgs s
  ∧ idxLoad s' = idxLoad s ∧ idxSum s' = idxSum s
  ∧ metaWorkers s' = metaWorkers s ∧ sumWorkers s' = sumWorkers s
  ∧ overlays s' = overlays s ∧ resolved s' = resolved s
  ∧ leftW s' = leftW s ∧ totalW s' = totalW s ∧ screenWidth s' = screenWidth s.
Proof.
  intros Heq. unfold skeleton, core in Heq. injection Heq as ?. repeat split; assumption.
Qed.

Lemma skeleton_core (s s' : State) : core s' = core s → skeleton s' = skeleton s.
Proof. unfold skeleton. intros ->. reflexivity. Qed.

Lemma skeleton_updateItemBox (i : Z) (s : State) :
  skeleton (updateItemBox i s) = skeleton s.
Proof. apply skeleton_core, core_updateItemBox. Qed.

(** Writes to the caches, the rows, the pane and the logs keep the skeleton. *)
Lemma skeleton_set_metaCache v s : skeleton (set_metaCache v s) = skeleton s.
Proof. reflexivity. Qed.
Lemma skeleton_set_msgSummaryCache v s : skeleton (set_msgSummaryCache v s) = skeleton s.
Proof. reflexivity. Qed.
Lemma skeleton_set_previewCache v s : skeleton (set_previewCache v s) = skeleton s.
Proof. reflexivity. Qed.
Lemma skeleton_set_previewContent v s : skeleton (set_previewContent v s) = skeleton s.
Proof. reflexivity. Qed.
Lemma skeleton_set_itemBoxes v s : skeleton (set_itemBoxes v s) = skeleton s.
Proof. reflexivity. Qed.
Lemma skeleton_logRead c k s : skeleton (logRead c k s) = skeleton s.
Proof. reflexivity. Qed.
Lemma skeleton_raise f s : skeleton (raise f s) = skeleton s.
Proof. reflexivity. Qed.

Create Rewrite HintDb skel.
#[global] Hint Rewrite skeleton_set_metaCache skeleton_set_msgSummaryCache
  skeleton_set_previewCache skeleton_set_previewContent skeleton_set_itemBoxes
  skeleton_logRead skeleton_raise skeleton_updateItemBox : skel.

(** *** The loaders touch their own cache only *)

Lemma skeleton_loadMeta (w : World) (i : Z) (s : State) :
  skeleton (loadMeta w i s) = skeleton s.
Proof.
  unfold loadMeta, refreshListRow.
  repeat case_match; try reflexivity; rewrite skeleton_updateItemBox; reflexivity.
Qed.

Lemma skeleton_loadSummary (w : World) (i : Z) (s : State) :
  skeleton (loadSummary w i s) = skeleton s.
Proof.
  unfold loadSummary.
  repeat case_match; try reflexivity; rewrite skeleton_updateItemBox; reflexivity.
Qed.

Lemma faults_loadMeta (w : World) (i : Z) (s : State) :
  is_Some (nthZ (pageItems s) i) →
  faults (loadMeta w i s) = faults s.
Proof.
  intros [f Hf]. unfold loadMeta, refreshListRow. rewrite Hf.
  repeat case_match; try reflexivity; simplify_eq/=.
  all: rewrite faults_updateItemBox; [reflexivity|simpl; eauto].
Qed.

Lemma faults_loadSummary (w : World) (i : Z) (s : State) :
  faults (loadSummary w i s) = faults s.
Proof.
  unfold loadSummary. destruct (nthZ (pageItems s) i) as [f|] eqn:Hf; [|reflexivity].
  repeat case_match; try reflexivity.
  rewrite faults_updateItemBox; [reflexivity|simpl; eauto].
Qed.

Lemma quiet_refl (s : State) : quiet s s.
Proof. split; reflexivity. Qed.

Lemma quiet_trans (s1 s2 s3 : State) : quiet s1 s2 → quiet s2 s3 → quiet s1 s3.
Proof. intros [H1 H2] [H3 H4]. split; congruence. Qed.

Lemma quiet_pageItems (s s' : State) : quiet s s' → pageItems s' = pageItems s.
Proof. intros [H _]. apply skeleton_fields in H. tauto. Qed.

Lemma quiet_selectedIndex (s s' : State) :
  quiet s s' → selectedIndex s' = selectedIndex s.
Proof. intros [H _]. apply skeleton_fields in H. tauto. Qed.

Lemma quiet_loadMeta (w : World) (i : Z) (s : State) :
  is_Some (nthZ (pageItems s) i) → quiet s (loadMeta w i s).
Proof. intros H. split; [apply skeleton_loadMeta|apply faults_loadMeta, H]. Qed.

Lemma quiet_loadSummary (w : World) (i : Z) (s : State) :
  quiet s (loadSummary w i s).
Proof. split; [apply skeleton_loadSummary|apply faults_loadSummary]. Qed.

Section PickerFacts.

Variable stringWidth : jsstring -> nat.
Variable fmtTime : Z -> jsstring.
Variable chalkHex : jsstring -> jsstring -> text.
Variable opts : Options.

Local Abbreviation updatePreview := (updatePreviewForIndex stringWidth fmtTime chalkHex opts).
Local Abbreviation navKey := (onNavKey stringWidth fmtTime chalkHex opts).

Lemma skeleton_updatePreviewForIndex (w : World) (idx : Z) (s : State) :
  skeleton (updatePreview w idx s) = skeleton s.
Proof.
  unfold updatePreviewForIndex.
  repeat case_match; autorewrite with skel; reflexivity.
Qed.

Lemma faults_updatePreviewForIndex (w : World) (idx : Z) (s : State) :
  faults (updatePreview w idx s) = faults s.
Proof.
  unfold updatePreviewForIndex.
  destruct ((idx <? 0) || (idx >=? lengthZ (pageItems s))); [reflexivity|].
  destruct (nthZ (pageItems s) idx) as [f|] eqn:Hf; [|reflexivity].
  repeat case_match; try reflexivity; simpl.
  all: rewrite faults_updateItemBox; [reflexivity|simpl; eauto].
Qed.

Lemma quiet_updatePreviewForIndex (w : World) (idx : Z) (s : State) :
  quiet s (updatePreview w idx s).
Proof.
  split; [apply skeleton_updatePreviewForIndex|apply faults_updatePreviewForIndex].
Qed.

Lemma quiet_in_range (s s' : State) (i : Z) :
  quiet s s' → 0 ≤ i < lengthZ (pageItems s) → is_Some (nthZ (pageItems s') i).
Proof.
  intros Hq Hi. rewrite (quiet_pageItems _ _ Hq). apply nthZ_in_range, Hi.
Qed.

(** *** Navigation *)

Lemma navTarget_in_range (k : NavKey) (s : State) :
  selectionValid s →
  0 ≤ navTarget k s < lengthZ (pageItems s).
Proof. unfold selectionValid. destruct k; simpl; lia. Qed.

Lemma setSelectedIndex_in_range (idx : Z) (s : State) :
  0 ≤ idx < lengthZ (pageItems s) →
  setSelectedIndex idx s = set_selectedIndex idx s.
Proof.
  intros [Hlo Hhi]. unfold setSelectedIndex.
  destruct (Z.ltb_spec idx 0); [lia|].
  destruct (Z.geb_spec idx (lengthZ (pageItems s))); [lia|]. reflexivity.
Qed.

(** A navigation key, outside a modal, selects its target and is
    otherwise quiet. *)
Lemma onNavKey_quiet (w : World) (k : NavKey) (s : State) :
  modalActive s = false → selectionValid s →
  quiet (set_selectedIndex (navTarget k s) s) (navKey w k s).
Proof.
  intros Hmodal Hvalid. unfold onNavKey. rewrite Hmodal. cbv zeta.
  pose proof (navTarget_in_range k s Hvalid) as Hsel.
  set (sel := navTarget k s) in *.
  rewrite (setSelectedIndex_in_range sel s Hsel).
  set (s1 := set_selectedIndex sel s).
  assert (Hlen1 : pageItems s1 = pageItems s) by reflexivity.
  assert (Q2 : quiet s1 (updatePreview w sel s1)) by apply quiet_updatePreviewForIndex.
  set (s2 := updatePreview w sel s1) in *.
  assert (Q3 : quiet s1 (loadMeta w sel s2)).
  { eapply quiet_trans; [exact Q2|]. apply quiet_loadMeta.
    apply (quiet_in_range s1 s2 sel Q2). rewrite Hlen1. exact Hsel. }
  set (s3 := loadMeta w sel s2) in *.
  assert (Q4 : quiet s1 (loadSummary w sel s3)).
  { eapply quiet_trans; [exact Q3|]. apply quiet_loadSummary. }
  set (s4 := loadSummary w sel s3) in *.
  assert (Q5 : quiet s1 (if sel + 1 <? lengthZ (pageItems s4)
                         then loadMeta w (sel + 1) s4 else s4)).
  { destruct (Z.ltb_spec (sel + 1) (lengthZ (pageItems s4))) as [Hlt|Hge]; [|exact Q4].
    eapply quiet_trans; [exact Q4|]. apply quiet_loadMeta, nthZ_in_range. lia. }
  set (s5 := if sel + 1 <? lengthZ (pageItems s4) then _ else _) in *.
  assert (Q6 : quiet s1 (if sel - 1 >=? 0 then loadMeta w (sel - 1) s5 else s5)).
  { destruct (Z.geb_spec (sel - 1) 0) as [Hge|Hlt]; [|exact Q5].
    eapply quiet_trans; [exact Q5|]. apply quiet_loadMeta.
    apply (quiet_in_range s1 s5 (sel - 1) Q5). rewrite Hlen1. lia. }
  set (s6 := if sel - 1 >=? 0 then _ else _) in *.
  assert (Q7 : quiet s1 (if sel + 1 <? lengthZ (pageItems s6)
                         then loadSummary w (sel + 1) s6 else s6)).
  { destruct (sel + 1 <? lengthZ (pageItems s6)); [|exact Q6].
    eapply quiet_trans; [exact Q6|]. apply quiet_loadSummary. }
  set (s7 := if sel + 1 <? lengthZ (pageItems s6) then _ else _) in *.
  destruct (sel - 1 >=? 0); [|exact Q7].
  eapply quiet_trans; [exact Q7|]. apply quiet_loadSummary.
Qed.

Lemma overlayKey_nav (w : World) (k : NavKey) (s : State) :
  overlayKey stringWidth fmtTime chalkHex opts w (KNav k) s = s.
Proof. unfold overlayKey. repeat case_match; reflexivity. Qed.

Lemma press_nav (w : World) (k : NavKey) (s : State) :
  press stringWidth fmtTime chalkHex opts w (KNav k) s = navKey w k s.
Proof. unfold press. rewrite overlayKey_nav. reflexivity. Qed.

Lemma quiet_browsing (s s' : State) : quiet s s' → browsing s → browsing s'.
Proof.
  intros [H _] (Hm & Hd & Hr). apply skeleton_fields in H.
  unfold browsing. intuition congruence.
Qed.

End PickerFacts.

(** * Cache keys and purges *)

Lemma uintChars_digits (d : Decimal.uint) :
  Forall (fun c => (48 ≤ c)%N ∧ (c ≤ 57)%N) (uintChars d).
Proof.
  induction d; simpl; [apply Forall_nil; exact I|..];
    (apply Forall_cons; split; [split; discriminate|assumption]).
Qed.

Lemma showZ_no_colon (z : Z) : COLON ∉ showZ z.
Proof.
  unfold showZ. intros Hin.
  assert (Hd : ∀ d, COLON ∉ uintChars d).
  { intros d Hc. pose proof (uintChars_digits d) as Hall.
    rewrite Forall_forall in Hall. destruct (Hall _ Hc) as [_ Hhi].
    unfold COLON in Hhi. lia. }
  destruct (Z.to_int z) as [d|d].
  - exact (Hd d Hin).
  - apply elem_of_cons in Hin as [Hin|Hin]; [discriminate Hin|exact (Hd d Hin)].
Qed.

(** Two lists that agree up to the first separator agree before it. *)
Lemma first_separator (x : N) (a b r r' : list N) :
  x ∉ a → x ∉ b → a ++ x :: r = b ++ x :: r' → a = b ∧ r = r'.
Proof.
  revert b. induction a as [|c a IH]; intros [|d b] Ha Hb Heq; simpl in Heq.
  - injection Heq as ->. split; reflexivity.
  - injection Heq as -> _. exfalso. apply Hb. left.
  - injection Heq as -> _. exfalso. apply Ha. left.
  - injection Heq as -> Heq.
    destruct (IH b) as [-> ->]; [| |assumption|split; reflexivity].
    + intros Hin. apply Ha. right. assumption.
    + intros Hin. apply Hb. right. assumption.
Qed.

(** The key of a preview determines the path it belongs to: the width
    is written in digits, so the last "::" of the key is the one the
    key was built with. *)
Lemma previewKey_inj (p1 p2 : jsstring) (w1 w2 : Z) :
  previewKey p1 w1 = previewKey p2 w2 → p1 = p2.
Proof.
  unfold previewKey. intros Heq.
  apply (f_equal (@rev N)) in Heq.
  rewrite !rev_app_distr in Heq.
  change (rev (lit "::")) with [COLON; COLON] in Heq.
  rewrite <- !app_assoc in Heq. simpl in Heq.
  apply first_separator in Heq as [_ Heq].
  - injection Heq as Heq. apply (f_equal (@rev N)) in Heq.
    rewrite !rev_involutive in Heq. exact Heq.
  - rewrite list_elem_of_In, <- in_rev, <- list_elem_of_In. apply showZ_no_colon.
  - rewrite list_elem_of_In, <- in_rev, <- list_elem_of_In. apply showZ_no_colon.
Qed.

Lemma startsWith_app (p r : jsstring) : startsWith p (p ++ r) = true.
Proof.
  induction p as [|c p IH]; simpl; [destruct r; reflexivity|].
  destruct (decide (c = c)); [assumption|congruence].
Qed.

Lemma purgeCaches_lookup (p : jsstring) (s : State) :
  metaCache (purgeCaches p s) !! p = None
  ∧ msgSummaryCache (purgeCaches p s) !! p = None
  ∧ ∀ width, previewCache (purgeCaches p s) !! previewKey p width = None.
Proof.
  unfold purgeCaches. simpl. split; [apply lookup_delete_eq|].
  split; [apply lookup_delete_eq|].
  intros width. apply map_lookup_filter_None. right. intros body _.
  simpl. unfold previewKey. rewrite app_assoc, startsWith_app. discriminate.
Qed.

Lemma purgeCaches_skeleton (p : jsstring) (s : State) :
  skeleton (purgeCaches p s) = skeleton s.
Proof. reflexivity. Qed.

(** * Pages *)

Lemma ceilDiv_pages (n : Z) :
  1 ≤ n → (Z.max 1 (ceilDiv n ITEMS_PER_PAGE) - 1) * ITEMS_PER_PAGE < n.
Proof.
  unfold ceilDiv, ITEMS_PER_PAGE. intros Hn.
  pose proof (Z.div_mod (n + 30 - 1) 30 ltac:(lia)).
  pose proof (Z.mod_pos_bound (n + 30 - 1) 30 ltac:(lia)). lia.
Qed.

Lemma jsSlice_length {A} (l : list A) (start stop : Z) :
  0 ≤ start ≤ stop → stop ≤ lengthZ l →
  lengthZ (jsSlice l start stop) = stop - start.
Proof.
  unfold jsSlice, lengthZ. intros Hs He.
  destruct (Z.ltb_spec start 0); [lia|].
  destruct (Z.ltb_spec stop 0); [lia|].
  rewrite length_take, length_drop. lia.
Qed.

Lemma jsSlice_subset {A} (l : list A) (start stop : Z) (x : A) :
  x ∈ jsSlice l start stop → x ∈ l.
Proof.
  unfold jsSlice. intros Hin.
  apply subseteq_take in Hin. apply subseteq_drop in Hin. exact Hin.
Qed.

Lemma updatePageItems_core (s : State) :
  core (updatePageItems s)
  = core (set_selectedIndex 0
            (set_pageItems
               (jsSlice (visibleFiles s) (currentPage s * ITEMS_PER_PAGE)
                  (Z.min (lengthZ (visibleFiles s))
                         (currentPage s * ITEMS_PER_PAGE + ITEMS_PER_PAGE))) s)).
Proof.
  unfold updatePageItems, buildItemBoxes. cbv zeta.
  set (s1 := set_pageItems _ s).
  change (core (set_selectedIndex 0 (buildBoxes (pageItems s1) (set_itemBoxes [] s1)))
          = core (set_selectedIndex 0 s1)).
  change (set_selectedIndex 0 (core (buildBoxes (pageItems s1) (set_itemBoxes [] s1)))
          = set_selectedIndex 0 (core s1)).
  rewrite core_buildBoxes. reflexivity.
Qed.

Lemma updatePageItems_faults (s : State) :
  faults (updatePageItems s) = faults s.
Proof.
  unfold updatePageItems, buildItemBoxes. cbv zeta. simpl.
  assert (H : ∀ items s0, faults (buildBoxes items s0) = faults s0).
  { induction items as [|f r IH]; intros s0; [reflexivity|]. simpl. rewrite IH. reflexivity. }
  rewrite H. reflexivity.
Qed.

(** * Deleting *)

Lemma metaCache_updateItemBox (i : Z) (s : State) :
  metaCache (updateItemBox i s) = metaCache s.
Proof. pose proof (core_fields _ _ (core_updateItemBox i s)). tauto. Qed.

Lemma msgSummaryCache_updateItemBox (i : Z) (s : State) :
  msgSummaryCache (updateItemBox i s) = msgSummaryCache s.
Proof. pose proof (core_fields _ _ (core_updateItemBox i s)). tauto. Qed.

Lemma previewCache_updateItemBox (i : Z) (s : State) :
  previewCache (updateItemBox i s) = previewCache s.
Proof. pose proof (core_fields _ _ (core_updateItemBox i s)). tauto. Qed.

Lemma previewContent_updateItemBox (i : Z) (s : State) :
  previewContent (updateItemBox i s) = previewContent s.
Proof. pose proof (core_fields _ _ (core_updateItemBox i s)). tauto. Qed.

Section DeleteFacts.

Variable stringWidth : jsstring -> nat.
Variable fmtTime : Z -> jsstring.
Variable chalkHex : jsstring -> jsstring -> text.
Variable opts : Options.

Local Abbreviation updatePreview := (updatePreviewForIndex stringWidth fmtTime chalkHex opts).
Local Abbreviation afterAnswer := (deleteConfirmed stringWidth fmtTime chalkHex opts).

Lemma updatePreview_metaCache (w : World) (idx : Z) (s : State) :
  metaCache (updatePreview w idx s) = metaCache s.
Proof.
  unfold updatePreviewForIndex.
  repeat case_match; simpl; rewrite ?metaCache_updateItemBox; reflexivity.
Qed.

(** Loading the preview of a page item writes under that item's path
    only: the entries of a path that is not on the page stay as they are. *)
Lemma updatePreview_other_path (w : World) (idx : Z) (s : State) (p : jsstring) :
  (∀ g, g ∈ pageItems s → path g ≠ p) →
  msgSummaryCache (updatePreview w idx s) !! p = msgSummaryCache s !! p
  ∧ ∀ width, previewCache (updatePreview w idx s) !! previewKey p width
             = previewCache s !! previewKey p width.
Proof.
  intros Hpage. unfold updatePreviewForIndex.
  destruct ((idx <? 0) || (idx >=? lengthZ (pageItems s))); [split; reflexivity|].
  destruct (nthZ (pageItems s) idx) as [f|] eqn:Hf; [|split; reflexivity].
  assert (Hne : path f ≠ p) by (apply Hpage, (nthZ_elem_of _ idx), Hf).
  repeat case_match; simpl;
    rewrite ?msgSummaryCache_updateItemBox, ?previewCache_updateItemBox; simpl;
    (split; [|intros width]);
    rewrite ?lookup_insert_ne; try reflexivity; try assumption.
  all: intros Hk; apply previewKey_inj in Hk; contradiction.
Qed.

Lemma step_confirm_yes (w : World) (k : Key) (f : SessionFile) (selected : Z)
    (below : list Overlay) (s : State) :
  confirming f selected below s → confirmsYes k selected →
  step stringWidth fmtTime chalkHex opts w (Press k) s
  = finish stringWidth fmtTime chalkHex opts w f true below s.
Proof.
  intros ([shownId Hov] & Hm & Hd) Hk. simpl. rewrite Hd. unfold press.
  destruct Hk as [->|[->|[-> ->]]]; simpl;
    unfold onEnter; rewrite ?Hm; unfold overlayKey; rewrite Hov; reflexivity.
Qed.

Lemma step_confirm_no (w : World) (k : Key) (f : SessionFile) (selected : Z)
    (below : list Overlay) (s : State) :
  confirming f selected below s → declines k selected →
  step stringWidth fmtTime chalkHex opts w (Press k) s
  = finish stringWidth fmtTime chalkHex opts w f false below s.
Proof.
  intros ([shownId Hov] & Hm & Hd) Hk. simpl. rewrite Hd. unfold press.
  destruct Hk as [->|[->|[->|[-> Hsel]]]]; simpl;
    unfold onEnter, onStartNew, onQuit; rewrite ?Hm;
    unfold overlayKey; rewrite Hov; try reflexivity.
  apply Z.eqb_neq in Hsel. rewrite Hsel. reflexivity.
Qed.

(** What a confirmed deletion does when the unlink succeeds and files
    remain. *)
Lemma deleteConfirmed_removes (w : World) (f : SessionFile) (s : State) :
  unlink w (path f) = None →
  without f (visibleFiles s) ≠ [] →
  0 ≤ currentPage s →
  let s' := afterAnswer w f true s in
  visibleFiles s' = without f (visibleFiles s)
  ∧ pageItems s' ≠ []
  ∧ (∀ g, g ∈ pageItems s' → g ∈ visibleFiles s')
  ∧ selectedIndex s'
    = Z.max 0 (Z.min (selectedIndex s) (lengthZ (pageItems s') - 1))
  ∧ metaCache s' !! path f = None
  ∧ msgSummaryCache s' !! path f = None
  ∧ (∀ width, previewCache s' !! previewKey (path f) width = None)
  ∧ destroyed s' = destroyed s ∧ resolved s' = resolved s
  ∧ modalActive s' = modalActive s ∧ overlays s' = overlays s
  ∧ faults s' = faults s.
Proof.
  intros Hunlink Hrest Hpage. unfold deleteConfirmed. simpl negb. cbv iota.
  rewrite Hunlink. cbv zeta.
  destruct (purgeCaches_lookup (path f) s) as (Hpm & Hps & Hpp).
  set (s1 := purgeCaches (path f) s) in *.
  set (s2 := set_visibleFiles _ s1).
  change (visibleFiles s2) with (without f (visibleFiles s)).
  set (rest := without f (visibleFiles s)) in *.
  assert (Hrestf : ∀ g, g ∈ rest → path g ≠ path f).
  { intros g Hg. subst rest. unfold without in Hg.
    apply list_elem_of_filter in Hg as [Hg _]. exact Hg. }
  assert (Hlen : 1 ≤ lengthZ rest)
    by (unfold lengthZ; destruct rest; [congruence|simpl; lia]).
  assert (Hne : isEmpty rest = false) by (destruct rest; [congruence|reflexivity]).
  rewrite Hne.
  set (totalPages := Z.max 1 (ceilDiv (lengthZ rest) ITEMS_PER_PAGE)).
  pose proof (ceilDiv_pages (lengthZ rest) Hlen) as Hpages. fold totalPages in Hpages.
  set (s3 := if currentPage s2 >=? totalPages
             then set_currentPage (totalPages - 1) s2 else s2).
  assert (H3 : visibleFiles s3 = rest ∧ 0 ≤ currentPage s3 ≤ totalPages - 1
               ∧ metaCache s3 = metaCache s1 ∧ msgSummaryCache s3 = msgSummaryCache s1
               ∧ previewCache s3 = previewCache s1 ∧ faults s3 = faults s
               ∧ selectedIndex s3 = selectedIndex s
               ∧ destroyed s3 = destroyed s ∧ resolved s3 = resolved s
               ∧ modalActive s3 = modalActive s ∧ overlays s3 = overlays s).
  { subst s3. change (currentPage s2) with (currentPage s).
    destruct (Z.geb_spec (currentPage s) totalPages); simpl;
      repeat split; try reflexivity; lia. }
  clearbody s3. clear s2.
  destruct H3 as (Hvis3 & Hcp3 & Hm3 & Hs3 & Hp3 & Hf3 & Hi3 & Hd3 & Hr3 & Hmo3 & Hov3).
  rewrite Hi3.
  pose proof (core_fields _ _ (updatePageItems_core s3)) as Hc4.
  pose proof (updatePageItems_faults s3) as Hf4.
  set (s4 := updatePageItems s3) in *. clearbody s4.
  simpl in Hc4. rewrite Hvis3 in Hc4.
  destruct Hc4 as (Hvis4 & Hcp4 & Hpi4 & Hi4 & Hm4 & Hs4 & Hp4 & _ & Hd4 & _ & Hmo4
                   & _ & Hov4 & Hr4).
  assert (Hstart : currentPage s3 * ITEMS_PER_PAGE < lengthZ rest)
    by (unfold ITEMS_PER_PAGE in *; lia).
  assert (Hlen4 : 1 ≤ lengthZ (pageItems s4)).
  { rewrite Hpi4, jsSlice_length; unfold ITEMS_PER_PAGE in *; lia. }
  assert (Hsub : ∀ g, g ∈ pageItems s4 → g ∈ rest)
    by (intros g Hg; rewrite Hpi4 in Hg; apply jsSlice_subset in Hg; exact Hg).
  set (newSel := Z.max 0 (Z.min (selectedIndex s) (lengthZ (pageItems s4) - 1))).
  rewrite (setSelectedIndex_in_range newSel s4) by (subst newSel; lia).
  set (s5 := set_selectedIndex newSel s4).
  assert (Hother : ∀ g, g ∈ pageItems s5 → path g ≠ path f)
    by (intros g Hg; apply Hrestf, Hsub, Hg).
  destruct (updatePreview_other_path w newSel s5 (path f) Hother) as [Hsum6 Hpre6].
  pose proof (updatePreview_metaCache w newSel s5) as Hmeta6.
  pose proof (faults_updatePreviewForIndex stringWidth fmtTime chalkHex opts
                w newSel s5) as Hf6.
  pose proof (skeleton_fields _ _
                (skeleton_updatePreviewForIndex stringWidth fmtTime chalkHex opts
                   w newSel s5)) as Hk6.
  set (s6 := updatePreview w newSel s5) in *. clearbody s6.
  simpl in Hk6, Hsum6, Hpre6, Hmeta6, Hf6.
  destruct Hk6 as (Hvis6 & _ & Hpi6 & Hi6 & Hd6 & _ & Hmo6 & _ & _ & _ & _ & _
                   & Hov6 & Hr6 & _).
  assert (Hafter : afterDelete s6 = s6).
  { unfold afterDelete. rewrite Hvis6, Hvis4, Hne. reflexivity. }
  rewrite Hafter, Hpi6, Hvis6, Hvis4, Hi6, Hmeta6, Hsum6, Hd6, Hr6, Hmo6, Hov6, Hf6.
  rewrite Hm4, Hs4, Hd4, Hr4, Hmo4, Hov4, Hf4, Hm3, Hs3, Hd3, Hr3, Hmo3, Hov3, Hf3.
  split; [reflexivity|].
  split; [intros E; rewrite E in Hlen4; unfold lengthZ in Hlen4; simpl in Hlen4; lia|].
  split; [exact Hsub|].
  split; [reflexivity|].
  split; [exact Hpm|].
  split; [exact Hps|].
  split; [intros width; rewrite Hpre6, Hp4, Hp3; apply Hpp|].
  repeat split; reflexivity.
Qed.

Lemma finish_declined (w : World) (f : SessionFile) (below : list Overlay) (s : State) :
  visibleFiles s ≠ [] →
  finish stringWidth fmtTime chalkHex opts w f false below s
  = set_modalActive false (set_overlays below s).
Proof.
  intros Hv. unfold finish, deleteConfirmed, afterDelete. simpl.
  destruct (visibleFiles s); [congruence|reflexivity].
Qed.

Lemma finish_unlink_failed (w : World) (f : SessionFile) (below : list Overlay)
    (s : State) (message : jsstring) :
  unlink w (path f) = Some message →
  finish stringWidth fmtTime chalkHex opts w f true below s
  = set_overlays (DeleteFailed f message :: below) (set_modalActive false s).
Proof.
  intros Hu. unfold finish, deleteConfirmed. simpl. rewrite Hu. reflexivity.
Qed.

(** Once the screen is destroyed nothing looks a cache up any more. *)
Lemma step_destroyed (w : World) (e : Event) (s : State) :
  destroyed s = true →
  let s' := step stringWidth fmtTime chalkHex opts w e s in
  destroyed s' = true ∧ resolved s' = resolved s ∧ cacheReads s' = cacheReads s
  ∧ metaCache s' = metaCache s ∧ msgSummaryCache s' = msgSummaryCache s
  ∧ previewCache s' = previewCache s.
Proof.
  intros Hd. destruct e; simpl; rewrite ?Hd; try (repeat split; assumption || reflexivity).
  - unfold metaWorkerTurn. rewrite Hd, andb_false_r.
    destruct (metaWorkers s); repeat split; assumption.
  - unfold summaryWorkerTurn. rewrite Hd, andb_false_r.
    destruct (sumWorkers s); repeat split; assumption.
Qed.

Lemma run_destroyed (evs : list (World * Event)) (s : State) :
  destroyed s = true →
  let s' := run stringWidth fmtTime chalkHex opts evs s in
  destroyed s' = true ∧ resolved s' = resolved s ∧ cacheReads s' = cacheReads s
  ∧ metaCache s' = metaCache s ∧ msgSummaryCache s' = msgSummaryCache s
  ∧ previewCache s' = previewCache s.
Proof.
  revert s. induction evs as [|[w e] evs IH]; intros s Hd; simpl.
  - repeat split; assumption || reflexivity.
  - destruct (step_destroyed w e s Hd) as (Hd1 & Hr1 & Hc1 & Hm1 & Hs1 & Hp1).
    destruct (IH _ Hd1) as (Hd2 & Hr2 & Hc2 & Hm2 & Hs2 & Hp2).
    cbv zeta in *. repeat split; congruence.
Qed.

Lemma finish_last_item (w : World) (f : SessionFile) (below : list Overlay) (s : State) :
  unlink w (path f) = None →
  without f (visibleFiles s) = [] →
  finish stringWidth fmtTime chalkHex opts w f true below s
  = resolve None
      (set_destroyed true
         (set_visibleFiles []
            (purgeCaches (path f) (set_modalActive false (set_overlays below s))))).
Proof.
  intros Hu Hrest. unfold finish, deleteConfirmed. simpl negb. cbv iota zeta.
  rewrite Hu.
  change (visibleFiles (purgeCaches (path f) (set_modalActive false (set_overlays below s))))
    with (visibleFiles s).
  fold (without f (visibleFiles s)). rewrite Hrest. reflexivity.
Qed.

End DeleteFacts.

(** * The preview pane and its cache *)

(** On a miss the pane shows, and the cache receives, the formatter's
    string for the parsed messages at the pane's width. *)
Lemma updatePreview_miss
    (stringWidth : jsstring → nat) (fmtTime : Z → jsstring)
    (chalkHex : jsstring → jsstring → text) (opts : Options)
    (w : World) (idx : Z) (s : State) (f : SessionFile) (parsed : Parsed) :
  nthZ (pageItems s) idx = Some f →
  previewCache s !! previewKey (path f) (getPreviewInnerWidth s) = None →
  parseSessionFile w (path f) = inl parsed →
  destroyed s = false →
  let s' := updatePreviewForIndex stringWidth fmtTime chalkHex opts w idx s in
  let body := buildDialogPreviewBlocks stringWidth fmtTime chalkHex
                (parsedMessages parsed) (hide opts) (Some (getPreviewInnerWidth s)) in
  previewContent s' = body
  ∧ previewCache s' !! previewKey (path f) (getPreviewInnerWidth s) = Some body.
Proof.
  intros Hf Hmiss Hparse Hd. cbv zeta. unfold updatePreviewForIndex.
  pose proof (nthZ_Some _ _ _ Hf) as [Hlo Hhi].
  destruct (Z.ltb_spec idx 0); [lia|].
  destruct (Z.geb_spec idx (lengthZ (pageItems s))); [lia|].
  simpl orb. cbv iota. rewrite Hf.
  change (getPreviewInnerWidth (logRead MetaCache (path f) s))
    with (getPreviewInnerWidth s).
  change (previewCache (logRead MetaCache (path f) s)) with (previewCache s).
  rewrite Hmiss, Hparse.
  match goal with
  | |- context [updateItemBox idx ?s0] =>
      pose proof (core_fields _ _ (core_updateItemBox idx s0)) as Hc;
      set (s1 := updateItemBox idx s0) in *; clearbody s1
  end.
  simpl in Hc. destruct Hc as (_ & _ & _ & _ & _ & _ & Hpc & _ & Hd1 & _).
  simpl. rewrite Hd1, Hd. simpl. split; [reflexivity|apply lookup_insert_eq].
Qed.

(** On a hit the pane shows what the cache holds. *)
Lemma updatePreview_hit
    (stringWidth : jsstring → nat) (fmtTime : Z → jsstring)
    (chalkHex : jsstring → jsstring → text) (opts : Options)
    (w : World) (idx : Z) (s : State) (f : SessionFile) (body : text) :
  nthZ (pageItems s) idx = Some f →
  previewCache s !! previewKey (path f) (getPreviewInnerWidth s) = Some body →
  previewContent (updatePreviewForIndex stringWidth fmtTime chalkHex opts w idx s)
  = body.
Proof.
  intros Hf Hhit. unfold updatePreviewForIndex.
  pose proof (nthZ_Some _ _ _ Hf) as [Hlo Hhi].
  destruct (Z.ltb_spec idx 0); [lia|].
  destruct (Z.geb_spec idx (lengthZ (pageItems s))); [lia|].
  simpl orb. cbv iota. rewrite Hf.
  change (getPreviewInnerWidth (logRead MetaCache (path f) s))
    with (getPreviewInnerWidth s).
  change (previewCache (logRead MetaCache (path f) s)) with (previewCache s).
  rewrite Hhit. reflexivity.
Qed.

(** What the pane shows after a miss depends on the parsed messages,
    the hidden roles and the width only: two pickers in any two states
    show the same text for the same messages at the same width. *)
Lemma preview_body_independent_of_state
    (stringWidth : jsstring → nat) (fmtTime : Z → jsstring)
    (chalkHex : jsstring → jsstring → text) (opts : Options)
    (w1 w2 : World) (idx1 idx2 : Z) (s1 s2 : State) (f1 f2 : SessionFile)
    (parsed1 parsed2 : Parsed) :
  nthZ (pageItems s1) idx1 = Some f1 → nthZ (pageItems s2) idx2 = Some f2 →
  previewCache s1 !! previewKey (path f1) (getPreviewInnerWidth s1) = None →
  previewCache s2 !! previewKey (path f2) (getPreviewInnerWidth s2) = None →
  parseSessionFile w1 (path f1) = inl parsed1 →
  parseSessionFile w2 (path f2) = inl parsed2 →
  destroyed s1 = false → destroyed s2 = false →
  parsedMessages parsed1 = parsedMessages parsed2 →
  getPreviewInnerWidth s1 = getPreviewInnerWidth s2 →
  previewContent (updatePreviewForIndex stringWidth fmtTime chalkHex opts w1 idx1 s1)
  = previewContent (updatePreviewForIndex stringWidth fmtTime chalkHex opts w2 idx2 s2).
Proof.
  intros Hf1 Hf2 Hm1 Hm2 Hp1 Hp2 Hd1 Hd2 Hmsg Hw.
  destruct (updatePreview_miss stringWidth fmtTime chalkHex opts
              w1 idx1 s1 f1 parsed1 Hf1 Hm1 Hp1 Hd1) as [-> _].
  destruct (updatePreview_miss stringWidth fmtTime chalkHex opts
              w2 idx2 s2 f2 parsed2 Hf2 Hm2 Hp2 Hd2) as [-> _].
  rewrite Hmsg, Hw. reflexivity.
Qed.

(** * Asking for a deletion *)

(** 'd' on a selected file opens the confirmation with No highlighted
    and sets the modal flag.  To name the session in the dialog it
    looks the metadata up and, on a miss, fetches and caches it; the
    lists, the selection and the two other caches stay as they are. *)
Lemma request_delete_opens_dialog
    (stringWidth : jsstring → nat) (fmtTime : Z → jsstring)
    (chalkHex : jsstring → jsstring → text) (opts : Options)
    (w : World) (s : State) (f : SessionFile) :
  modalActive s = false → destroyed s = false →
  selectedFile s = Some f →
  let s' := step stringWidth fmtTime chalkHex opts w (Press KD) s in
  confirming f 1 (overlays s) s'
  ∧ visibleFiles s' = visibleFiles s ∧ pageItems s' = pageItems s
  ∧ currentPage s' = currentPage s ∧ selectedIndex s' = selectedIndex s
  ∧ msgSummaryCache s' = msgSummaryCache s ∧ previewCache s' = previewCache s
  ∧ resolved s' = resolved s
  ∧ metaCache s'
    = match metaCache s !! path f, extractSessionMetaQuick w (path f) with
      | None, Some m => <[path f := m]> (metaCache s)
      | _, _ => metaCache s
      end.
Proof.
  intros Hm Hd Hsel. cbv zeta. simpl. rewrite Hd. unfold press. simpl.
  unfold onDelete. rewrite Hm. unfold deleteSelectedFile. rewrite Hsel.
  change (metaCache (logRead MetaCache (path f) s)) with (metaCache s).
  destruct (metaCache s !! path f) as [m|];
    [|destruct (extractSessionMetaQuick w (path f)) as [m|]];
    simpl; (split; [split; [eexists; reflexivity|split; [reflexivity|assumption]]|]);
    repeat split; reflexivity.
Qed.

(** * Claims about the picker *)

(** C1. The picker is browsing, the page is not empty and
    [0 <= selectedIndex < pageItems.length].  Then a navigation key
    (up, down, page-up, page-down, home, end) selects its clamped
    target, which is in range, leaves the page as it is, raises
    nothing, and the picker is still browsing.  Pressing 'down' any
    number of times moves to [min(length - 1, selectedIndex + presses)]:
    past the last item it stays on the last item. *)
Theorem navigation_keeps_selection_in_range
    (stringWidth : jsstring → nat) (fmtTime : Z → jsstring)
    (chalkHex : jsstring → jsstring → text) (opts : Options) (s : State) :
  browsing s → pageItems s ≠ [] → selectionValid s →
  (∀ (w : World) (k : NavKey),
     let s' := step stringWidth fmtTime chalkHex opts w (Press (KNav k)) s in
     selectionValid s' ∧ selectedIndex s' = navTarget k s
     ∧ pageItems s' = pageItems s ∧ faults s' = faults s ∧ browsing s')
  ∧ (∀ ws : list World,
     let s' := run stringWidth fmtTime chalkHex opts
                 (map (fun w => (w, Press (KNav KDown))) ws) s in
     selectedIndex s'
       = Z.min (lengthZ (pageItems s) - 1) (selectedIndex s + lengthZ ws)
     ∧ pageItems s' = pageItems s ∧ faults s' = faults s).
Proof.
  intros Hb _ Hvalid. split.
  - intros w k. simpl. destruct Hb as (Hm & Hd & Hr). rewrite Hd, press_nav.
    pose proof (onNavKey_quiet stringWidth fmtTime chalkHex opts w k s Hm Hvalid) as Hq.
    pose proof (navTarget_in_range k s Hvalid) as Hsel.
    pose proof (quiet_pageItems _ _ Hq) as Hp.
    pose proof (quiet_selectedIndex _ _ Hq) as Hi.
    assert (Hb1 : browsing (onNavKey stringWidth fmtTime chalkHex opts w k s)).
    { apply (quiet_browsing _ _ Hq). repeat split; assumption. }
    destruct Hq as [_ Hf]. simpl in Hp, Hi, Hf.
    unfold selectionValid. rewrite Hp, Hi. repeat split; try lia; try assumption.
    all: apply Hb1.
  - intros ws. revert s Hvalid Hb.
    induction ws as [|w ws IH]; intros s Hvalid Hb.
    + simpl. unfold selectionValid, lengthZ in *. simpl. repeat split. lia.
    + destruct Hb as (Hm & Hd & Hr).
      pose proof (onNavKey_quiet stringWidth fmtTime chalkHex opts w KDown s Hm Hvalid) as Hq.
      pose proof (navTarget_in_range KDown s Hvalid) as Hsel.
      pose proof (quiet_pageItems _ _ Hq) as Hp.
      pose proof (quiet_selectedIndex _ _ Hq) as Hi.
      assert (Hb1 : browsing (onNavKey stringWidth fmtTime chalkHex opts w KDown s)).
      { apply (quiet_browsing _ _ Hq). repeat split; assumption. }
      destruct Hq as [_ Hf]. simpl in Hp, Hi, Hf.
      assert (Hv1 : selectionValid (onNavKey stringWidth fmtTime chalkHex opts w KDown s)).
      { unfold selectionValid. rewrite Hp, Hi. exact Hsel. }
      specialize (IH _ Hv1 Hb1). cbv zeta in IH.
      assert (Hstep : step stringWidth fmtTime chalkHex opts w (Press (KNav KDown)) s
                      = onNavKey stringWidth fmtTime chalkHex opts w KDown s)
        by (simpl; rewrite Hd, press_nav; reflexivity).
      cbn [map run]. rewrite Hstep.
      destruct IH as (IHi & IHp & IHf).
      rewrite IHi, IHp, IHf, Hp, Hi, Hf. repeat split.
      unfold selectionValid in Hvalid. unfold lengthZ in *. simpl length.
      simpl navTarget. lia.
Qed.

Lemma navigation_keeps_selection_in_range_witness :
  (∀ (w : World) (k : NavKey),
     let s' := step columns clock sgrHex sampleOpts w (Press (KNav k)) startedABC in
     selectionValid s' ∧ selectedIndex s' = navTarget k startedABC
     ∧ pageItems s' = pageItems startedABC
     ∧ faults s' = faults startedABC ∧ browsing s')
  ∧ (∀ ws : list World,
     let s' := run columns clock sgrHex sampleOpts
                 (map (fun w => (w, Press (KNav KDown))) ws) startedABC in
     selectedIndex s'
       = Z.min (lengthZ (pageItems startedABC) - 1)
               (selectedIndex startedABC + lengthZ ws)
     ∧ pageItems s' = pageItems startedABC ∧ faults s' = faults startedABC).
Proof.
  apply (navigation_keeps_selection_in_range columns clock sgrHex sampleOpts startedABC).
  - vm_compute. repeat split.
  - vm_compute. discriminate.
  - vm_compute. split; [discriminate|reflexivity].
Defined.

(** C2. The confirmation dialog for the file [f] is open.  If the
    answer is Yes, the unlink succeeds and files remain, then in that
    one step the entries of [f]'s path are gone from the metadata, the
    summary and the preview cache, the file is gone from visibleFiles,
    and the selection is the old index clamped into the new page (in
    range).  If the answer is No, nothing changes but the dialog
    closing.  With A, B, C listed and C selected, Yes leaves A, B with
    B selected at index 1, and No leaves C selected (the witness and
    [delete_C_example]). *)
Theorem confirmed_delete_purges_and_clamps
    (stringWidth : jsstring → nat) (fmtTime : Z → jsstring)
    (chalkHex : jsstring → jsstring → text) (opts : Options)
    (w : World) (yes no : Key) (f : SessionFile) (selected : Z)
    (below : list Overlay) (s : State) :
  confirming f selected below s →
  confirmsYes yes selected →
  declines no selected →
  unlink w (path f) = None →
  without f (visibleFiles s) ≠ [] →
  0 ≤ currentPage s →
  (let s' := step stringWidth fmtTime chalkHex opts w (Press yes) s in
   metaCache s' !! path f = None
   ∧ msgSummaryCache s' !! path f = None
   ∧ (∀ width, previewCache s' !! previewKey (path f) width = None)
   ∧ visibleFiles s' = without f (visibleFiles s)
   ∧ (∀ g, g ∈ visibleFiles s' → path g ≠ path f)
   ∧ (∀ g, g ∈ pageItems s' → g ∈ visibleFiles s')
   ∧ selectedIndex s'
     = Z.max 0 (Z.min (selectedIndex s) (lengthZ (pageItems s') - 1))
   ∧ selectionValid s'
   ∧ overlays s' = below ∧ modalActive s' = false ∧ destroyed s' = false
   ∧ resolved s' = resolved s ∧ faults s' = faults s)
  ∧ (let s' := step stringWidth fmtTime chalkHex opts w (Press no) s in
     s' = set_modalActive false (set_overlays below s)
     ∧ visibleFiles s' = visibleFiles s ∧ pageItems s' = pageItems s
     ∧ currentPage s' = currentPage s
     ∧ selectedIndex s' = selectedIndex s ∧ metaCache s' = metaCache s
     ∧ msgSummaryCache s' = msgSummaryCache s ∧ previewCache s' = previewCache s).
Proof.
  intros Hconf Hyes Hno Hunlink Hrest Hpage. cbv zeta. split.
  - rewrite (step_confirm_yes _ _ _ _ w yes f selected below s Hconf Hyes).
    unfold finish. cbv zeta.
    set (s0 := set_modalActive false (set_overlays below s)).
    destruct Hconf as (_ & _ & Hd).
    pose proof (deleteConfirmed_removes stringWidth fmtTime chalkHex opts w f s0
                  Hunlink Hrest Hpage) as H.
    cbv zeta in H.
    destruct H as (Hvis & Hne & Hsub & Hsel & Hm & Hs & Hp & Hd' & Hr & Hmo & Hov & Hf).
    repeat split; try assumption.
    + intros g Hg. rewrite Hvis in Hg. unfold without in Hg.
      apply list_elem_of_filter in Hg as [Hg _]. exact Hg.
    + rewrite Hsel. lia.
    + rewrite Hsel.
      assert (1 ≤ lengthZ (pageItems
                (deleteConfirmed stringWidth fmtTime chalkHex opts w f true s0))).
      { unfold lengthZ.
        destruct (pageItems (deleteConfirmed stringWidth fmtTime chalkHex opts w f true s0));
          [congruence|simpl; lia]. }
      lia.
    + rewrite Hd'. exact Hd.
  - rewrite (step_confirm_no _ _ _ _ w no f selected below s Hconf Hno).
    rewrite finish_declined.
    + repeat split; reflexivity.
    + intros E. apply Hrest. unfold without. rewrite E. reflexivity.
Qed.

Lemma confirmed_delete_purges_and_clamps_witness :
  (let s' := step columns clock sgrHex sampleOpts sampleWorld (Press KY) confirmingC in
   metaCache s' !! path fileC = None
   ∧ msgSummaryCache s' !! path fileC = None
   ∧ (∀ width, previewCache s' !! previewKey (path fileC) width = None)
   ∧ visibleFiles s' = without fileC (visibleFiles confirmingC)
   ∧ (∀ g, g ∈ visibleFiles s' → path g ≠ path fileC)
   ∧ (∀ g, g ∈ pageItems s' → g ∈ visibleFiles s')
   ∧ selectedIndex s'
     = Z.max 0 (Z.min (selectedIndex confirmingC) (lengthZ (pageItems s') - 1))
   ∧ selectionValid s'
   ∧ overlays s' = [] ∧ modalActive s' = false ∧ destroyed s' = false
   ∧ resolved s' = resolved confirmingC ∧ faults s' = faults confirmingC)
  ∧ (let s' := step columns clock sgrHex sampleOpts sampleWorld (Press KN) confirmingC in
     s' = set_modalActive false (set_overlays [] confirmingC)
     ∧ visibleFiles s' = visibleFiles confirmingC ∧ pageItems s' = pageItems confirmingC
     ∧ currentPage s' = currentPage confirmingC
     ∧ selectedIndex s' = selectedIndex confirmingC
     ∧ metaCache s' = metaCache confirmingC
     ∧ msgSummaryCache s' = msgSummaryCache confirmingC
     ∧ previewCache s' = previewCache confirmingC).
Proof.
  apply (confirmed_delete_purges_and_clamps columns clock sgrHex sampleOpts
           sampleWorld KY KN fileC 1 [] confirmingC).
  - vm_compute. repeat split. eexists. reflexivity.
  - left. reflexivity.
  - left. reflexivity.
  - reflexivity.
  - vm_compute. discriminate.
  - vm_compute. discriminate.
Defined.

(** The scenario of C2, run: A, B, C listed, down, down, 'd'; 'n' keeps
    C selected and everything in place; 'd' again and 'y' leaves A, B
    with B selected at index 1 and nothing cached under C's path. *)
Example delete_C_example :
  let asked := confirmingC in
  let declined := step columns clock sgrHex sampleOpts sampleWorld (Press KN) asked in
  let asked2 := step columns clock sgrHex sampleOpts sampleWorld (Press KD) declined in
  let deleted := step columns clock sgrHex sampleOpts sampleWorld (Press KY) asked2 in
  selectedFile asked = Some fileC
  ∧ visibleFiles declined = [fileA; fileB; fileC]
  ∧ selectedFile declined = Some fileC ∧ resolved declined = None
  ∧ overlays declined = []
  ∧ visibleFiles deleted = [fileA; fileB]
  ∧ pageItems deleted = [fileA; fileB]
  ∧ selectedIndex deleted = 1
  ∧ selectedFile deleted = Some fileB
  ∧ metaCache deleted !! path fileC = None
  ∧ msgSummaryCache deleted !! path fileC = None
  ∧ previewCache deleted !! previewKey (path fileC) (getPreviewInnerWidth deleted) = None.
Proof. vm_compute. repeat split. Qed.

(** * The 'Delete Failed' notice *)

Section NoticeFacts.

Variable stringWidth : jsstring -> nat.
Variable fmtTime : Z -> jsstring.
Variable chalkHex : jsstring -> jsstring -> text.
Variable opts : Options.

Local Abbreviation updatePreview := (updatePreviewForIndex stringWidth fmtTime chalkHex opts).
Local Abbreviation onScreen := (screenKey stringWidth fmtTime chalkHex opts).
Local Abbreviation onOverlay := (overlayKey stringWidth fmtTime chalkHex opts).

Lemma overlays_updatePreview (w : World) (idx : Z) (s : State) :
  overlays (updatePreview w idx s) = overlays s.
Proof.
  pose proof (skeleton_fields _ _
                (skeleton_updatePreviewForIndex stringWidth fmtTime chalkHex opts
                   w idx s)) as H.
  tauto.
Qed.

Lemma overlays_loadMeta (w : World) (i : Z) (s : State) :
  overlays (loadMeta w i s) = overlays s.
Proof. pose proof (skeleton_fields _ _ (skeleton_loadMeta w i s)) as H. tauto. Qed.

Lemma overlays_loadSummary (w : World) (i : Z) (s : State) :
  overlays (loadSummary w i s) = overlays s.
Proof. pose proof (skeleton_fields _ _ (skeleton_loadSummary w i s)) as H. tauto. Qed.

Lemma overlays_updatePageItems (s : State) :
  overlays (updatePageItems s) = overlays s.
Proof.
  pose proof (core_fields _ _ (updatePageItems_core s)) as H.
  destruct H as (_ & _ & _ & _ & _ & _ & _ & _ & _ & _ & _ & _ & H & _). exact H.
Qed.

Lemma overlays_applyLayout (s : State) : overlays (applyLayout s) = overlays s.
Proof.
  unfold applyLayout. cbv zeta.
  match goal with
  | |- overlays (updateBoxesFrom ?n 0 ?s0) = _ =>
      pose proof (core_fields _ _ (core_updateBoxesFrom n 0 s0)) as H
  end.
  destruct H as (_ & _ & _ & _ & _ & _ & _ & _ & _ & _ & _ & _ & H & _).
  rewrite H. destruct (fullView _); reflexivity.
Qed.

Lemma overlays_setSelectedIndex (i : Z) (s : State) :
  overlays (setSelectedIndex i s) = overlays s.
Proof. unfold setSelectedIndex. case_match; reflexivity. Qed.

Lemma overlays_resolve (v : option Action) (s : State) :
  overlays (resolve v s) = overlays s.
Proof. unfold resolve. case_match; reflexivity. Qed.

Lemma overlays_afterDelete (s : State) : overlays (afterDelete s) = overlays s.
Proof.
  unfold afterDelete. repeat case_match; rewrite ?overlays_resolve; reflexivity.
Qed.

(** Of the screen's handlers only 'd' and '-' open an overlay, on top
    of those that are open; none closes one. *)
Lemma overlays_screenKey (w : World) (k : Key) (s : State) :
  overlays (onScreen w k s) = overlays s
  ∨ (k = KD ∧ ∃ f shownId, overlays (onScreen w k s)
                            = ConfirmDelete f shownId 1 :: overlays s)
  ∨ (k = KMinus ∧ ∃ v, overlays (onScreen w k s) = EditOptionsBox v :: overlays s).
Proof.
  destruct k; cbn [screenKey]; try (left; reflexivity).
  - left. unfold onNavKey. destruct (modalActive s); [reflexivity|]. cbv zeta.
    repeat match goal with
           | |- context [if ?c then _ else _] => destruct c
           end;
      repeat first [ rewrite overlays_loadSummary | rewrite overlays_loadMeta
                   | rewrite overlays_updatePreview
                   | rewrite overlays_setSelectedIndex ];
      reflexivity.
  - left. unfold onLeft. destruct (modalActive s); [reflexivity|].
    destruct (currentPage s >? 0); [|reflexivity]. cbv zeta.
    rewrite overlays_updatePreview. exact (overlays_updatePageItems _).
  - left. unfold onRight. destruct (modalActive s); [reflexivity|]. cbv zeta.
    case_match; [|reflexivity].
    rewrite overlays_updatePreview. exact (overlays_updatePageItems _).
  - left. unfold onToggleFull. destruct (modalActive s); [reflexivity|]. cbv zeta.
    exact (overlays_applyLayout _).
  - left. unfold onCopy. repeat case_match; reflexivity.
  - unfold onDelete. destruct (modalActive s); [left; reflexivity|].
    unfold deleteSelectedFile. destruct (selectedFile s) as [f|].
    + right. left. split; [reflexivity|]. exists f.
      repeat case_match; simplify_eq/=; eexists; reflexivity.
    + left. apply overlays_afterDelete.
  - destruct (modalActive s); [left; reflexivity|].
    right. right. split; [reflexivity|]. eexists. reflexivity.
  - left. unfold onStartNew. repeat case_match; rewrite ?overlays_resolve; reflexivity.
  - left. unfold onWorkspaceCreate. case_match; rewrite ?overlays_resolve; reflexivity.
  - left. unfold onQuit. case_match; rewrite ?overlays_resolve; reflexivity.
  - left. unfold onQuit. case_match; rewrite ?overlays_resolve; reflexivity.
  - left. unfold onQuit. case_match; rewrite ?overlays_resolve; reflexivity.
  - left. unfold onEnter. repeat case_match; rewrite ?overlays_resolve; reflexivity.
Qed.

Lemma destroyed_resolve (v : option Action) (s : State) :
  destroyed (resolve v s) = destroyed s.
Proof. unfold resolve. case_match; reflexivity. Qed.

Lemma destroyed_afterDelete (s : State) :
  destroyed s = true → destroyed (afterDelete s) = true.
Proof.
  intros Hd. unfold afterDelete. rewrite Hd.
  case_match; rewrite ?destroyed_resolve; exact Hd.
Qed.

Lemma resolved_afterDelete (s : State) :
  is_Some (resolved s) → resolved (afterDelete s) = resolved s.
Proof.
  intros [v Hv]. unfold afterDelete, resolve.
  repeat case_match; simplify_eq/=; try reflexivity; congruence.
Qed.

(** With no modal flag, each key that dismisses the notice first runs
    the screen's handler for it, which ends the picker. *)
Lemma dismissing_key_ends_the_picker (w : World) (k : Key) (s : State) (f : SessionFile) :
  modalActive s = false → resolved s = None → selectedFile s = Some f →
  dismisses k →
  let s' := onScreen w k s in
  destroyed s' = true ∧ overlays s' = overlays s
  ∧ resolved s' = Some (if bool_decide (k = KEnter)
                        then Some (Resume (path f) (editedArgs s)) else None).
Proof.
  intros Hm Hr Hsel [-> | [-> | ->]]; cbn [screenKey]; unfold onEnter, onQuit;
    rewrite Hm; cbv zeta.
  - change (selectedFile (set_destroyed true s)) with (selectedFile s).
    rewrite Hsel. unfold resolve.
    change (resolved (set_destroyed true s)) with (resolved s). rewrite Hr.
    repeat split; reflexivity.
  - unfold resolve.
    change (resolved (set_destroyed true s)) with (resolved s). rewrite Hr.
    repeat split; reflexivity.
  - unfold resolve.
    change (resolved (set_destroyed true s)) with (resolved s). rewrite Hr.
    repeat split; reflexivity.
Qed.

End NoticeFacts.

(** C3, as stated, fails.  Thirty-two sessions, the second page shown
    with session 30 selected, whose metadata is not cached.  'd' asks
    for confirmation, 'y' confirms, unlink throws: the notice is up,
    and the metadata cache is not what it was before 'd': it has got
    the entry of session 30, fetched to name it in the dialog. *)
Lemma failed_unlink_after_fetching_metadata :
  browsing secondPage32
  ∧ selectedFile secondPage32 = Some (fileNo 30)
  ∧ unlink readOnlyWorld (path (fileNo 30)) = Some (lit "EACCES: permission denied")
  ∧ overlays failedOn30 = [DeleteFailed (fileNo 30) (lit "EACCES: permission denied")]
  ∧ metaCache secondPage32 !! path (fileNo 30) = None
  ∧ metaCache failedOn30 !! path (fileNo 30)
    = Some (mkMeta (Some (lit "id:" ++ path (fileNo 30))) (Some (lit "/work")) None)
  ∧ metaCache failedOn30 ≠ metaCache secondPage32.
Proof.
  split; [vm_compute; repeat split|].
  split; [vm_compute; reflexivity|].
  split; [vm_compute; reflexivity|].
  split; [vm_compute; reflexivity|].
  split; [vm_compute; reflexivity|].
  split; [vm_compute; reflexivity|].
  intros Heq.
  apply (f_equal (fun m : gmap jsstring Meta => m !! path (fileNo 30))) in Heq.
  vm_compute in Heq. discriminate Heq.
Qed.

(** The exact state in which 'd' leaves a browsing picker: the lookup
    is logged, the metadata fetched on a miss is cached, the dialog is
    on top and the modal flag is up. *)
Lemma step_request_delete
    (stringWidth : jsstring → nat) (fmtTime : Z → jsstring)
    (chalkHex : jsstring → jsstring → text) (opts : Options)
    (w : World) (s : State) (f : SessionFile) :
  modalActive s = false → destroyed s = false → selectedFile s = Some f →
  ∃ shownId,
    step stringWidth fmtTime chalkHex opts w (Press KD) s
    = set_overlays (ConfirmDelete f shownId 1 :: overlays s)
        (set_modalActive true
           (set_metaCache
              match metaCache s !! path f, extractSessionMetaQuick w (path f) with
              | None, Some m => <[path f := m]> (metaCache s)
              | _, _ => metaCache s
              end
              (logRead MetaCache (path f) s))).
Proof.
  intros Hm Hd Hsel. cbn [step]. rewrite Hd. unfold press. cbn [screenKey].
  unfold onDelete. rewrite Hm. unfold deleteSelectedFile. rewrite Hsel.
  change (metaCache (logRead MetaCache (path f) s)) with (metaCache s).
  destruct (metaCache s !! path f) as [m|];
    [|destruct (extractSessionMetaQuick w (path f)) as [m|]];
    eexists; destruct s; reflexivity.
Qed.

(** C3. The picker is browsing with [f] selected; 'd' asks for
    confirmation, the answer is Yes (y, Y: the dialog opens on No) and
    unlink throws.  Then the 'Delete Failed' notice is on top of what
    was shown and the picker is browsing when it opens.  The state is
    the one before 'd' but for the notice, the logged lookup and the
    metadata cache: the visible list, the page, its index, the
    selection, the summary cache and the preview cache are what they
    were before 'd'; the metadata cache is what it was when [f] had
    an entry, and otherwise has got the metadata of [f] if the fetch
    of 'd' succeeded, and no other entry changes.  From whatever state
    of the dialog the Yes comes (the buttons may have been moved), the
    failed unlink does nothing but lower the modal flag and replace the
    dialog by the notice. *)
Theorem failed_unlink_keeps_lists_and_caches
    (stringWidth : jsstring → nat) (fmtTime : Z → jsstring)
    (chalkHex : jsstring → jsstring → text) (opts : Options)
    (w0 w : World) (k : Key) (f : SessionFile) (s0 : State) (message : jsstring) :
  browsing s0 →
  selectedFile s0 = Some f →
  confirmsYes k 1 →
  unlink w (path f) = Some message →
  let s1 := step stringWidth fmtTime chalkHex opts w0 (Press KD) s0 in
  let s2 := step stringWidth fmtTime chalkHex opts w (Press k) s1 in
  let metadata :=
    match metaCache s0 !! path f, extractSessionMetaQuick w0 (path f) with
    | None, Some m => <[path f := m]> (metaCache s0)
    | _, _ => metaCache s0
    end in
  confirming f 1 (overlays s0) s1
  ∧ s2 = set_overlays (DeleteFailed f message :: overlays s0)
           (set_metaCache metadata (logRead MetaCache (path f) s0))
  ∧ overlays s2 = DeleteFailed f message :: overlays s0
  ∧ browsing s2
  ∧ visibleFiles s2 = visibleFiles s0 ∧ pageItems s2 = pageItems s0
  ∧ currentPage s2 = currentPage s0 ∧ selectedIndex s2 = selectedIndex s0
  ∧ msgSummaryCache s2 = msgSummaryCache s0 ∧ previewCache s2 = previewCache s0
  ∧ metaCache s2 = metadata
  ∧ (is_Some (metaCache s0 !! path f) → metaCache s2 = metaCache s0)
  ∧ (∀ p : jsstring, p ≠ path f → metaCache s2 !! p = metaCache s0 !! p)
  ∧ (∀ (s : State) (selected : Z) (below : list Overlay) (k' : Key),
       confirming f selected below s → confirmsYes k' selected →
       step stringWidth fmtTime chalkHex opts w (Press k') s
       = set_overlays (DeleteFailed f message :: below) (set_modalActive false s)).
Proof.
  intros (Hm & Hd & Hr) Hsel Hk Hu. cbv zeta.
  destruct (request_delete_opens_dialog stringWidth fmtTime chalkHex opts w0 s0 f
              Hm Hd Hsel) as (Hconf & _).
  cbv zeta in Hconf.
  destruct (step_request_delete stringWidth fmtTime chalkHex opts w0 s0 f Hm Hd Hsel)
    as [shownId Hs1].
  set (metadata := match metaCache s0 !! path f, extractSessionMetaQuick w0 (path f) with
                   | None, Some m => <[path f := m]> (metaCache s0)
                   | _, _ => metaCache s0
                   end) in *.
  assert (Hs2 : step stringWidth fmtTime chalkHex opts w (Press k)
                  (step stringWidth fmtTime chalkHex opts w0 (Press KD) s0)
                = set_overlays (DeleteFailed f message :: overlays s0)
                    (set_metaCache metadata (logRead MetaCache (path f) s0))).
  { rewrite (step_confirm_yes _ _ _ _ w k f 1 (overlays s0) _ Hconf Hk).
    rewrite (finish_unlink_failed _ _ _ _ w f (overlays s0) _ message Hu).
    rewrite Hs1. clear Hconf Hs1. destruct s0. cbn in Hm. subst. reflexivity. }
  split; [exact Hconf|]. rewrite Hs2. clear Hs2 Hs1 Hconf.
  split; [reflexivity|]. split; [reflexivity|].
  split; [repeat split; assumption|].
  do 7 (split; [reflexivity|]).
  change (metaCache (set_overlays (DeleteFailed f message :: overlays s0)
            (set_metaCache metadata (logRead MetaCache (path f) s0)))) with metadata.
  split.
  { intros [m Hm']. subst metadata. rewrite Hm'. reflexivity. }
  split.
  { intros p Hp. subst metadata.
    destruct (metaCache s0 !! path f) as [m|]; [reflexivity|].
    destruct (extractSessionMetaQuick w0 (path f)) as [m|]; [|reflexivity].
    apply lookup_insert_ne. congruence. }
  intros s selected below k' Hconf' Hk'.
  rewrite (step_confirm_yes _ _ _ _ w k' f selected below s Hconf' Hk').
  apply finish_unlink_failed. exact Hu.
Qed.

Lemma failed_unlink_keeps_lists_and_caches_witness :
  let s0 := secondPage32 in
  let f := fileNo 30 in
  let message := lit "EACCES: permission denied" in
  let s1 := step columns clock sgrHex sampleOpts readOnlyWorld (Press KD) s0 in
  let s2 := step columns clock sgrHex sampleOpts readOnlyWorld (Press KY) s1 in
  let metadata :=
    match metaCache s0 !! path f, extractSessionMetaQuick readOnlyWorld (path f) with
    | None, Some m => <[path f := m]> (metaCache s0)
    | _, _ => metaCache s0
    end in
  confirming f 1 (overlays s0) s1
  ∧ s2 = set_overlays (DeleteFailed f message :: overlays s0)
           (set_metaCache metadata (logRead MetaCache (path f) s0))
  ∧ overlays s2 = DeleteFailed f message :: overlays s0
  ∧ browsing s2
  ∧ visibleFiles s2 = visibleFiles s0 ∧ pageItems s2 = pageItems s0
  ∧ currentPage s2 = currentPage s0 ∧ selectedIndex s2 = selectedIndex s0
  ∧ msgSummaryCache s2 = msgSummaryCache s0 ∧ previewCache s2 = previewCache s0
  ∧ metaCache s2 = metadata
  ∧ (is_Some (metaCache s0 !! path f) → metaCache s2 = metaCache s0)
  ∧ (∀ p : jsstring, p ≠ path f → metaCache s2 !! p = metaCache s0 !! p)
  ∧ (∀ (s : State) (selected : Z) (below : list Overlay) (k' : Key),
       confirming f selected below s → confirmsYes k' selected →
       step columns clock sgrHex sampleOpts readOnlyWorld (Press k') s
       = set_overlays (DeleteFailed f message :: below) (set_modalActive false s)).
Proof.
  apply (failed_unlink_keeps_lists_and_caches columns clock sgrHex sampleOpts
           readOnlyWorld readOnlyWorld KY (fileNo 30) secondPage32
           (lit "EACCES: permission denied")).
  - vm_compute. repeat split.
  - vm_compute. reflexivity.
  - left. reflexivity.
  - reflexivity.
Defined.

(** Once the notice is open.  The confirmation dialog for the selected
    file [f] was answered Yes and unlink threw: the step opens the
    'Delete Failed' notice and leaves the modal flag down, so the
    screen's handlers meet every key pressed while the notice is shown.
    Each key that closes the notice also ends the picker: Enter
    resolves 'resume' for [f], Escape and q resolve null; and no key
    closes the notice and leaves the picker running. *)
Lemma failed_unlink_notice_ends_the_picker
    (stringWidth : jsstring → nat) (fmtTime : Z → jsstring)
    (chalkHex : jsstring → jsstring → text) (opts : Options)
    (w : World) (k : Key) (f : SessionFile) (selected : Z)
    (below : list Overlay) (s : State) (message : jsstring) :
  confirming f selected below s →
  confirmsYes k selected →
  unlink w (path f) = Some message →
  resolved s = None →
  selectedFile s = Some f →
  let s' := step stringWidth fmtTime chalkHex opts w (Press k) s in
  s' = set_overlays (DeleteFailed f message :: below) (set_modalActive false s)
  ∧ modalActive s' = false ∧ destroyed s' = false ∧ resolved s' = None
  ∧ (∀ w' : World,
       terminated (Some (Resume (path f) (editedArgs s)))
         (step stringWidth fmtTime chalkHex opts w' (Press KEnter) s')
       ∧ terminated None (step stringWidth fmtTime chalkHex opts w' (Press KEscape) s')
       ∧ terminated None (step stringWidth fmtTime chalkHex opts w' (Press KQ) s'))
  ∧ (∀ (w' : World) (k' : Key),
       let s'' := step stringWidth fmtTime chalkHex opts w' (Press k') s' in
       destroyed s'' = true ∨ DeleteFailed f message ∈ overlays s'').
Proof.
  intros Hconf Hk Hu Hr Hsel. cbv zeta.
  rewrite (step_confirm_yes _ _ _ _ w k f selected below s Hconf Hk).
  rewrite (finish_unlink_failed _ _ _ _ w f below s message Hu).
  destruct Hconf as (_ & _ & Hd).
  set (s' := set_overlays (DeleteFailed f message :: below) (set_modalActive false s)).
  assert (Hm' : modalActive s' = false) by reflexivity.
  assert (Hd' : destroyed s' = false) by exact Hd.
  assert (Hr' : resolved s' = None) by exact Hr.
  assert (Hsel' : selectedFile s' = Some f) by exact Hsel.
  assert (Hov' : overlays s' = DeleteFailed f message :: below) by reflexivity.
  assert (Hea' : editedArgs s' = editedArgs s) by reflexivity.
  clearbody s'.
  assert (Hdismiss : ∀ w' k', dismisses k' →
            let s'' := step stringWidth fmtTime chalkHex opts w' (Press k') s' in
            destroyed s'' = true
            ∧ resolved s'' = Some (if bool_decide (k' = KEnter)
                                   then Some (Resume (path f) (editedArgs s)) else None)).
  { intros w' k' Hk'. cbv zeta. cbn [step]. rewrite Hd'. unfold press.
    destruct (dismissing_key_ends_the_picker stringWidth fmtTime chalkHex opts
                w' k' s' f Hm' Hr' Hsel' Hk') as (Hd1 & Hov1 & Hr1).
    rewrite Hea' in Hr1.
    set (s1 := screenKey stringWidth fmtTime chalkHex opts w' k' s') in *.
    clearbody s1. unfold overlayKey. rewrite Hov1, Hov'.
    assert (Hend : destroyed (afterDelete (set_overlays below s1)) = true
                   ∧ resolved (afterDelete (set_overlays below s1)) = resolved s1).
    { split; [apply destroyed_afterDelete; exact Hd1|].
      rewrite resolved_afterDelete; [reflexivity|].
      change (is_Some (resolved s1)). rewrite Hr1. eauto. }
    rewrite <- Hr1.
    destruct Hk' as [-> | [-> | ->]]; exact Hend. }
  split; [reflexivity|]. split; [exact Hm'|]. split; [exact Hd'|]. split; [exact Hr'|].
  split.
  { intros w'. unfold terminated.
    pose proof (Hdismiss w' KEnter (or_introl eq_refl)) as H1.
    pose proof (Hdismiss w' KEscape (or_intror (or_introl eq_refl))) as H2.
    pose proof (Hdismiss w' KQ (or_intror (or_intror eq_refl))) as H3.
    cbv zeta in H1, H2, H3. tauto. }
  intros w' k'. cbv zeta.
  destruct (decide (k' = KEnter ∨ k' = KEscape ∨ k' = KQ)) as [Hk'|Hk'].
  { left. apply (Hdismiss w' k' Hk'). }
  right. cbn [step]. rewrite Hd'. unfold press.
  destruct (overlays_screenKey stringWidth fmtTime chalkHex opts w' k' s')
    as [Hov1|[[-> (g & shownId & Hov1)]|[-> (v & Hov1)]]];
    set (s1 := screenKey stringWidth fmtTime chalkHex opts w' _ s') in *;
    clearbody s1; unfold overlayKey; rewrite Hov1, ?Hov'.
  - destruct k'; try (rewrite Hov1, Hov'; apply list_elem_of_here).
    all: exfalso; apply Hk'; unfold dismisses; tauto.
  - rewrite Hov1, Hov'. apply list_elem_of_further, list_elem_of_here.
  - rewrite Hov1, Hov'. apply list_elem_of_further, list_elem_of_here.
Qed.

(** The confirmation dialog for [f] is open, the answer is Yes, the
    unlink succeeds and no file remains.  Then the picker has ended
    with no action (its promise resolves null), nothing is cached under
    the path of [f], the step itself looked no cache up, and no event
    delivered afterwards (keys, clicks, resizes, worker turns) looks a
    cache up.  A load that was awaited when the file went is another
    matter. *)
Lemma deleting_last_item_terminates
    (stringWidth : jsstring → nat) (fmtTime : Z → jsstring)
    (chalkHex : jsstring → jsstring → text) (opts : Options)
    (w : World) (k : Key) (f : SessionFile) (selected : Z)
    (below : list Overlay) (s : State) :
  confirming f selected below s →
  confirmsYes k selected →
  unlink w (path f) = None →
  without f (visibleFiles s) = [] →
  resolved s = None →
  let s' := step stringWidth fmtTime chalkHex opts w (Press k) s in
  terminated None s'
  ∧ visibleFiles s' = []
  ∧ metaCache s' !! path f = None
  ∧ msgSummaryCache s' !! path f = None
  ∧ (∀ width, previewCache s' !! previewKey (path f) width = None)
  ∧ cacheReads s' = cacheReads s
  ∧ (∀ evs : list (World * Event),
       let s'' := run stringWidth fmtTime chalkHex opts evs s' in
       terminated None s'' ∧ cacheReads s'' = cacheReads s).
Proof.
  intros Hconf Hk Hu Hrest Hr. cbv zeta.
  rewrite (step_confirm_yes _ _ _ _ w k f selected below s Hconf Hk).
  rewrite (finish_last_item _ _ _ _ w f below s Hu Hrest).
  set (s0 := set_modalActive false (set_overlays below s)).
  destruct (purgeCaches_lookup (path f) s0) as (Hm & Hs & Hp).
  set (s1 := set_destroyed true (set_visibleFiles [] (purgeCaches (path f) s0))).
  assert (Hres : resolve None s1 = set_resolved (Some None) s1).
  { unfold resolve. change (resolved s1) with (resolved s). rewrite Hr. reflexivity. }
  rewrite Hres.
  assert (Hterm : terminated None (set_resolved (Some None) s1))
    by (split; reflexivity).
  repeat split; try assumption; try reflexivity.
  - apply (run_destroyed stringWidth fmtTime chalkHex opts evs
             (set_resolved (Some None) s1) eq_refl).
  - destruct (run_destroyed stringWidth fmtTime chalkHex opts evs
                (set_resolved (Some None) s1) eq_refl) as (_ & E & _).
    rewrite E. reflexivity.
  - destruct (run_destroyed stringWidth fmtTime chalkHex opts evs
                (set_resolved (Some None) s1) eq_refl) as (_ & _ & E & _).
    rewrite E. reflexivity.
Qed.

Section AwaitedFacts.

Variable stringWidth : jsstring -> nat.
Variable fmtTime : Z -> jsstring.
Variable chalkHex : jsstring -> jsstring -> text.
Variable opts : Options.

(** A load cut at its await and resumed at once is the load. *)
Lemma loadSummary_cut (w : World) (i : Z) (s : State) :
  loadSummary w i s
  = match loadSummaryStart i s with
    | (s', Some f) => loadSummaryResume i f (parseSessionFile w (path f)) s'
    | (s', None) => s'
    end.
Proof.
  unfold loadSummary, loadSummaryStart, loadSummaryResume.
  repeat case_match; simplify_eq/=; reflexivity.
Qed.

Lemma loadMeta_cut (w : World) (i : Z) (s : State) :
  loadMeta w i s
  = match loadMetaStart i s with
    | (s', Some f) => loadMetaResume i f (extractSessionMetaQuick w (path f)) s'
    | (s', None) => s'
    end.
Proof.
  unfold loadMeta, loadMetaStart, loadMetaResume.
  repeat case_match; simplify_eq/=; reflexivity.
Qed.

Lemma updatePreviewForIndex_cut (w : World) (idx : Z) (s : State) :
  updatePreviewForIndex stringWidth fmtTime chalkHex opts w idx s
  = settlePreview stringWidth fmtTime chalkHex opts w (previewStart idx s).
Proof.
  unfold updatePreviewForIndex, settlePreview, previewStart.
  destruct ((idx <? 0) || (idx >=? lengthZ (pageItems s))); [reflexivity|].
  destruct (nthZ (pageItems s) idx) as [f|]; [|reflexivity]. cbv zeta.
  destruct (previewCache _ !! _) as [body|]; [reflexivity|].
  unfold previewResume. cbn [pendingFile pendingIdx pendingWidth].
  destruct (parseSessionFile w (path f)) as [parsed|msg]; reflexivity.
Qed.

Lemma onNavKey_cut (w : World) (k : NavKey) (s : State) :
  onNavKey stringWidth fmtTime chalkHex opts w k s
  = match onNavKeyStart k s with
    | (s', Some (sel, p)) =>
        onNavKeyRest w sel (settlePreview stringWidth fmtTime chalkHex opts w (s', p))
    | (s', None) => s'
    end.
Proof.
  unfold onNavKey, onNavKeyStart. destruct (modalActive s); [reflexivity|].
  cbv zeta. rewrite updatePreviewForIndex_cut.
  destruct (previewStart _ _) as [s' p]. reflexivity.
Qed.

Lemma deleteConfirmed_cut (w : World) (f : SessionFile) (s : State) :
  unlink w (path f) = None →
  deleteConfirmed stringWidth fmtTime chalkHex opts w f true s
  = afterDelete (settlePreview stringWidth fmtTime chalkHex opts w (deletedStart f s)).
Proof.
  intros Hu. unfold deleteConfirmed, deletedStart. rewrite Hu. cbn [negb]. cbv zeta.
  case_match; [reflexivity|].
  rewrite updatePreviewForIndex_cut. reflexivity.
Qed.

(** On a miss the load awaits the log with the width of that moment,
    and whenever it resumes with the log it stores the preview made at
    that width under the key of that width. *)
Lemma previewStart_miss (idx : Z) (s : State) (f : SessionFile) :
  nthZ (pageItems s) idx = Some f →
  previewCache s !! previewKey (path f) (getPreviewInnerWidth s) = None →
  (previewStart idx s).2 = Some (mkPending idx f (getPreviewInnerWidth s)).
Proof.
  intros Hf Hmiss. unfold previewStart.
  pose proof (nthZ_Some _ _ _ Hf) as [Hlo Hhi].
  destruct (Z.ltb_spec idx 0); [lia|].
  destruct (Z.geb_spec idx (lengthZ (pageItems s))); [lia|].
  simpl orb. cbv iota. rewrite Hf. cbv zeta.
  change (getPreviewInnerWidth (logRead MetaCache (path f) s))
    with (getPreviewInnerWidth s).
  change (previewCache (logRead MetaCache (path f) s)) with (previewCache s).
  rewrite Hmiss. reflexivity.
Qed.

Lemma previewResume_stores (p : PendingPreview) (parsed : Parsed) (s : State) :
  previewCache (previewResume stringWidth fmtTime chalkHex opts p (inl parsed) s)
    !! previewKey (path (pendingFile p)) (pendingWidth p)
  = Some (buildDialogPreviewBlocks stringWidth fmtTime chalkHex
            (parsedMessages parsed) (hide opts) (Some (pendingWidth p))).
Proof.
  unfold previewResume. cbv zeta.
  match goal with
  | |- previewCache (if destroyed ?s0 then _ else _) !! _ = _ =>
      destruct (destroyed s0)
  end; apply lookup_insert_eq.
Qed.

End AwaitedFacts.

(** C9. Two sessions, A and B, A selected.  'd' on A, answered Yes:
    the unlink succeeds, B is selected, and the load of its preview
    awaits the log of B (had the log been there at once, this would be
    the step of the picker).  While it is awaited: 'd' on B, answered
    Yes.  No file is left, so the picker ends with no action and
    nothing is cached under the path of B.  Then the log of B arrives
    and the load resumes: it stores the summary and the preview of B
    again and renders its row, which looks the metadata and the summary
    up under the path of B, after the end. *)
Theorem pending_load_reads_the_deleted_path :
  deletingAofAB.2 = Some (mkPending 0 fileB 47)
  ∧ selectedFile deletingAofAB.1 = Some fileB
  ∧ browsing deletingAofAB.1
  ∧ run columns clock sgrHex sampleOpts (presses sampleWorld [KD; KY]) startedAB
    = afterDelete (settlePreview columns clock sgrHex sampleOpts sampleWorld deletingAofAB)
  ∧ terminated None deletedBofAB
  ∧ visibleFiles deletedBofAB = []
  ∧ metaCache deletedBofAB !! path fileB = None
  ∧ msgSummaryCache deletedBofAB !! path fileB = None
  ∧ previewCache deletedBofAB !! previewKey (path fileB) 47 = None
  ∧ cacheReads lateLoadOfB
    = cacheReads deletedBofAB
      ++ [(MetaCache, path fileB); (SummaryCache, path fileB)]
  ∧ msgSummaryCache lateLoadOfB !! path fileB = Some (summarize sampleLog)
  ∧ previewCache lateLoadOfB !! previewKey (path fileB) 47
    = Some (buildDialogPreviewBlocks columns clock sgrHex sampleLog
              (hide sampleOpts) (Some 47))
  ∧ terminated None lateLoadOfB.
Proof.
  split; [vm_compute; reflexivity|].
  split; [vm_compute; reflexivity|].
  split; [vm_compute; repeat split|].
  split; [vm_compute; reflexivity|].
  split; [vm_compute; split; reflexivity|].
  split; [vm_compute; reflexivity|].
  split; [vm_compute; reflexivity|].
  split; [vm_compute; reflexivity|].
  split; [vm_compute; reflexivity|].
  split; [vm_compute; reflexivity|].
  split; [vm_compute; reflexivity|].
  split; [vm_compute; reflexivity|].
  vm_compute; split; reflexivity.
Qed.

(** * Modals *)

(** While the flag is set, the screen's handlers for navigation, page
    change, layout, delete, edit, resume, start-fresh, workspace-create
    and quit return at once; only 'c' (copy id) does not test it. *)
Lemma modal_flag_suppresses
    (stringWidth : jsstring → nat) (fmtTime : Z → jsstring)
    (chalkHex : jsstring → jsstring → text) (opts : Options)
    (w : World) (k : Key) (s : State) :
  modalActive s = true → k ≠ KC →
  screenKey stringWidth fmtTime chalkHex opts w k s = s.
Proof.
  intros Hm Hk.
  destruct k; simpl; try reflexivity; try congruence;
    unfold onNavKey, onLeft, onRight, onToggleFull, onDelete, onStartNew,
      onWorkspaceCreate, onQuit, onEnter;
    rewrite Hm; reflexivity.
Qed.

(** C4. The flag [modalActive] is what keeps the screen's handlers
    quiet, and only confirmDeleteDialog sets it.
    With the edit box open (from the list A, B, C) the flag is not set:
    the screen's 'q' handler ends the picker, and its 'd' handler opens
    the confirmation on top of the edit box, two modals at once.
    With the 'Delete Failed' notice open (unlink of C failed) the flag
    is not set either: 'up' moves the selection under the notice, 'n'
    ends the picker with 'startNew', Enter closes the notice and also
    resolves 'resume' for C, q closes it and also quits. *)
Theorem modal_flag_not_set_by_edit_box_or_notice :
  (overlays editingABC = [EditOptionsBox []] ∧ modalActive editingABC = false
   ∧ terminated None (onQuit editingABC)
   ∧ overlays (screenKey columns clock sgrHex sampleOpts sampleWorld KD editingABC)
     = [ConfirmDelete fileA (lit "id:" ++ path fileA) 1; EditOptionsBox []])
  ∧ (overlays noticeC = [DeleteFailed fileC (lit "EACCES: permission denied")]
     ∧ modalActive noticeC = false
     ∧ selectedIndex noticeC = 2
     ∧ (let s' := step columns clock sgrHex sampleOpts sampleWorld
                    (Press (KNav KUp)) noticeC in
        selectedIndex s' = 1 ∧ overlays s' = overlays noticeC)
     ∧ terminated (Some (StartNew (Some (lit "/work")) []))
         (step columns clock sgrHex sampleOpts sampleWorld (Press KN) noticeC)
     ∧ terminated (Some (Resume (path fileC) []))
         (step columns clock sgrHex sampleOpts sampleWorld (Press KEnter) noticeC)
     ∧ terminated None
         (step columns clock sgrHex sampleOpts sampleWorld (Press KQ) noticeC)).
Proof. vm_compute. repeat split. Qed.

(** * Pages and the prefetch workers *)

Lemma worker_turns_idle
    (stringWidth : jsstring → nat) (fmtTime : Z → jsstring)
    (chalkHex : jsstring → jsstring → text) (opts : Options)
    (evs : list (World * Event)) (s : State) :
  metaWorkers s = 0%nat → sumWorkers s = 0%nat →
  Forall (fun we => workerEvent we.2) evs →
  run stringWidth fmtTime chalkHex opts evs s = s.
Proof.
  intros Hm Hs Hall. induction Hall as [|[w e] evs He _ IH]; [reflexivity|].
  simpl. destruct He as [He|He]; simpl in He; subst e; simpl.
  - unfold metaWorkerTurn. rewrite Hm. exact IH.
  - unfold summaryWorkerTurn. rewrite Hs. exact IH.
Qed.

(** What the right arrow does when a next page exists: the page index
    moves on, the page is the new slice, the first item is selected and
    both cursors are back at 0; the number of live workers is what it
    was. Without a next page, nothing. *)
Lemma onRight_effect
    (stringWidth : jsstring → nat) (fmtTime : Z → jsstring)
    (chalkHex : jsstring → jsstring → text) (opts : Options)
    (w : World) (s : State) :
  modalActive s = false →
  let s' := onRight stringWidth fmtTime chalkHex opts w s in
  (currentPage s < ceilDiv (lengthZ (visibleFiles s)) ITEMS_PER_PAGE - 1 →
     currentPage s' = currentPage s + 1
     ∧ selectedIndex s' = 0
     ∧ pageItems s'
       = jsSlice (visibleFiles s) ((currentPage s + 1) * ITEMS_PER_PAGE)
           (Z.min (lengthZ (visibleFiles s))
                  ((currentPage s + 1) * ITEMS_PER_PAGE + ITEMS_PER_PAGE))
     ∧ idxLoad s' = 0 ∧ idxSum s' = 0
     ∧ metaWorkers s' = metaWorkers s ∧ sumWorkers s' = sumWorkers s)
  ∧ (¬ currentPage s < ceilDiv (lengthZ (visibleFiles s)) ITEMS_PER_PAGE - 1 →
     s' = s).
Proof.
  intros Hm. unfold onRight. rewrite Hm. cbv zeta. split.
  - intros Hnext. apply Z.ltb_lt in Hnext. rewrite Hnext.
    set (s1 := set_currentPage (currentPage s + 1) s).
    pose proof (core_fields _ _ (updatePageItems_core s1)) as Hc.
    pose proof (core_geometry _ _ (updatePageItems_core s1)) as Hg.
    set (s2 := updatePageItems s1) in *. clearbody s2. simpl in Hc, Hg.
    set (s3 := set_idxSum 0 (set_idxLoad 0 s2)).
    pose proof (skeleton_fields _ _
                  (skeleton_updatePreviewForIndex stringWidth fmtTime chalkHex opts
                     w 0 s3)) as Hk.
    simpl in Hk.
    destruct Hk as (_ & Hcp & Hpi & Hi & _ & _ & _ & _ & Hil & His & Hmw & Hsw & _).
    destruct Hc as (_ & Hcp2 & Hpi2 & Hi2 & _).
    destruct Hg as (_ & _ & _ & _ & _ & _ & Hmw2 & Hsw2).
    rewrite Hcp, Hpi, Hi, Hil, His, Hmw, Hsw, Hcp2, Hpi2, Hi2, Hmw2, Hsw2.
    repeat split; reflexivity.
  - intros Hlast. apply Z.ltb_nlt in Hlast. rewrite Hlast. reflexivity.
Qed.

(** The left arrow, likewise, when a previous page exists. *)
Lemma onLeft_effect
    (stringWidth : jsstring → nat) (fmtTime : Z → jsstring)
    (chalkHex : jsstring → jsstring → text) (opts : Options)
    (w : World) (s : State) :
  modalActive s = false →
  let s' := onLeft stringWidth fmtTime chalkHex opts w s in
  (0 < currentPage s →
     currentPage s' = currentPage s - 1
     ∧ selectedIndex s' = 0
     ∧ pageItems s'
       = jsSlice (visibleFiles s) ((currentPage s - 1) * ITEMS_PER_PAGE)
           (Z.min (lengthZ (visibleFiles s))
                  ((currentPage s - 1) * ITEMS_PER_PAGE + ITEMS_PER_PAGE))
     ∧ idxLoad s' = 0 ∧ idxSum s' = 0
     ∧ metaWorkers s' = metaWorkers s ∧ sumWorkers s' = sumWorkers s)
  ∧ (¬ 0 < currentPage s → s' = s).
Proof.
  intros Hm. unfold onLeft. rewrite Hm. cbv zeta. split.
  - intros Hprev. rewrite Z.gtb_ltb. apply Z.ltb_lt in Hprev. rewrite Hprev.
    set (s1 := set_currentPage (currentPage s - 1) s).
    pose proof (core_fields _ _ (updatePageItems_core s1)) as Hc.
    pose proof (core_geometry _ _ (updatePageItems_core s1)) as Hg.
    set (s2 := updatePageItems s1) in *. clearbody s2. simpl in Hc, Hg.
    set (s3 := set_idxSum 0 (set_idxLoad 0 s2)).
    pose proof (skeleton_fields _ _
                  (skeleton_updatePreviewForIndex stringWidth fmtTime chalkHex opts
                     w 0 s3)) as Hk.
    simpl in Hk.
    destruct Hk as (_ & Hcp & Hpi & Hi & _ & _ & _ & _ & Hil & His & Hmw & Hsw & _).
    destruct Hc as (_ & Hcp2 & Hpi2 & Hi2 & _).
    destruct Hg as (_ & _ & _ & _ & _ & _ & Hmw2 & Hsw2).
    rewrite Hcp, Hpi, Hi, Hil, His, Hmw, Hsw, Hcp2, Hpi2, Hi2, Hmw2, Hsw2.
    repeat split; reflexivity.
  - intros Hfirst. rewrite Z.gtb_ltb. apply Z.ltb_nlt in Hfirst. rewrite Hfirst.
    reflexivity.
Qed.

(** C5. Thirty-two sessions; the eight metadata and three summary
    workers have loaded the first page and returned; right arrow.
    The second page is shown with its first item selected and both
    cursors at 0, but no worker is alive and none is started: the
    metadata cache has no entry for either item of the new page, the
    summary cache none for the second, and no worker turn, however
    many, changes anything. *)
Theorem page_change_starts_no_worker :
  (metaWorkers prefetched32 = 0%nat ∧ sumWorkers prefetched32 = 0%nat)
  ∧ currentPage secondPage32 = 1 ∧ selectedIndex secondPage32 = 0
  ∧ pageItems secondPage32 = [fileNo 30; fileNo 31]
  ∧ idxLoad secondPage32 = 0 ∧ idxSum secondPage32 = 0
  ∧ metaWorkers secondPage32 = 0%nat ∧ sumWorkers secondPage32 = 0%nat
  ∧ metaCache secondPage32 !! path (fileNo 30) = None
  ∧ metaCache secondPage32 !! path (fileNo 31) = None
  ∧ msgSummaryCache secondPage32 !! path (fileNo 31) = None
  ∧ (∀ evs : list (World * Event),
       Forall (fun we => workerEvent we.2) evs →
       run columns clock sgrHex sampleOpts evs secondPage32 = secondPage32).
Proof.
  split; [split; vm_compute; reflexivity|].
  do 10 (split; [vm_compute; reflexivity|]).
  intros evs Hall. apply worker_turns_idle; [vm_compute; reflexivity..|exact Hall].
Qed.

(** * Layout *)

Lemma overlayKey_toggle
    (stringWidth : jsstring → nat) (fmtTime : Z → jsstring)
    (chalkHex : jsstring → jsstring → text) (opts : Options)
    (w : World) (s : State) :
  overlayKey stringWidth fmtTime chalkHex opts w KF s = s.
Proof. unfold overlayKey. repeat case_match; reflexivity. Qed.

(** C6, as stated, fails.  A, B, C listed in a terminal of 80 columns,
    A selected and its preview shown, rendered at the pane's 47
    columns.  After 'f' the pane is 78 columns wide, and the preview
    shown is still the one rendered at 47 columns, not the one at 78;
    the cache holds what it held. *)
Lemma toggle_keeps_stale_preview :
  let s := startedABC in
  let s' := step columns clock sgrHex sampleOpts sampleWorld (Press KF) s in
  previewIsCurrent columns clock sgrHex sampleOpts sampleWorld s
  ∧ getPreviewInnerWidth s = 47 ∧ getPreviewInnerWidth s' = 78
  ∧ ¬ previewIsCurrent columns clock sgrHex sampleOpts sampleWorld s'
  ∧ previewCache s' = previewCache s
  ∧ previewCache s' !! previewKey (path fileA) 78 = None.
Proof.
  cbv zeta. split.
  { intros f parsed Hsel Hparse. injection Hparse as <-. vm_compute. reflexivity. }
  split; [vm_compute; reflexivity|].
  split; [vm_compute; reflexivity|].
  split.
  { intros Hcur. specialize (Hcur fileA (mkParsed None sampleLog)).
    assert (Hsel : selectedFile (step columns clock sgrHex sampleOpts sampleWorld
                                   (Press KF) startedABC) = Some fileA)
      by (vm_compute; reflexivity).
    specialize (Hcur Hsel eq_refl). vm_compute in Hcur. discriminate Hcur. }
  split; vm_compute; reflexivity.
Qed.

Lemma length_updateBoxesFrom (n : nat) (i : Z) (s : State) :
  length (itemBoxes (updateBoxesFrom n i s)) = length (itemBoxes s).
Proof.
  revert i s. induction n as [|n IH]; intros i s; [reflexivity|].
  simpl. destruct (length (faults (updateItemBox i s)) =? length (faults s))%nat.
  - rewrite IH. apply length_updateItemBox.
  - apply length_updateItemBox.
Qed.

Lemma faults_updateBoxesFrom (n : nat) (i : Z) (s : State) :
  0 ≤ i → i + Z.of_nat n ≤ lengthZ (pageItems s) →
  faults (updateBoxesFrom n i s) = faults s.
Proof.
  revert i s. induction n as [|n IH]; intros i s Hi Hn; [reflexivity|].
  simpl.
  assert (Hf : faults (updateItemBox i s) = faults s)
    by (apply faults_updateItemBox, nthZ_in_range; lia).
  rewrite Hf, Nat.eqb_refl, IH, Hf; [reflexivity|lia|].
  pose proof (core_fields _ _ (core_updateItemBox i s)) as Hc.
  destruct Hc as (_ & _ & Hpi & _). rewrite Hpi. lia.
Qed.

Lemma itemBoxes_updateItemBox (i : nat) (s : State) (f : SessionFile) :
  pageItems s !! i = Some f → (i < length (itemBoxes s))%nat →
  itemBoxes (updateItemBox (Z.of_nat i) s) = <[i := (renderRow f s).1]> (itemBoxes s).
Proof.
  intros Hf Hlt. unfold updateItemBox, nthZ.
  destruct (Z.ltb_spec (Z.of_nat i) 0); [lia|]. rewrite Nat2Z.id, Hf.
  destruct (lookup_lt_is_Some_2 (itemBoxes s) i Hlt) as [b ->]. reflexivity.
Qed.

(** Re-rendering the rows from [i] on: each shows what the caches hold. *)
Lemma itemBoxes_updateBoxesFrom (n i : nat) (s : State) :
  length (itemBoxes s) = length (pageItems s) →
  (i + n = length (pageItems s))%nat →
  itemBoxes (updateBoxesFrom n (Z.of_nat i) s)
  = take i (itemBoxes s) ++ map (fun f => (renderRow f s).1) (drop i (pageItems s)).
Proof.
  revert i s. induction n as [|n IH]; intros i s Hlen Hin.
  - simpl. rewrite drop_ge by lia. rewrite take_ge by lia. rewrite app_nil_r. reflexivity.
  - cbn [updateBoxesFrom].
    destruct (lookup_lt_is_Some_2 (pageItems s) i ltac:(lia)) as [f Hf].
    assert (Hfa : faults (updateItemBox (Z.of_nat i) s) = faults s).
    { apply faults_updateItemBox. unfold nthZ.
      destruct (Z.ltb_spec (Z.of_nat i) 0); [lia|]. rewrite Nat2Z.id. eauto. }
    rewrite Hfa, Nat.eqb_refl.
    pose proof (itemBoxes_updateItemBox i s f Hf ltac:(lia)) as Hrow.
    pose proof (core_fields _ _ (core_updateItemBox (Z.of_nat i) s)) as Hc.
    destruct Hc as (_ & _ & Hpi & _ & Hmc & Hsc & _).
    set (s1 := updateItemBox (Z.of_nat i) s) in *. clearbody s1.
    replace (Z.of_nat i + 1) with (Z.of_nat (S i)) by lia.
    rewrite IH; [|rewrite Hrow, length_insert, Hpi; exact Hlen|rewrite Hpi; lia].
    rewrite Hrow, Hpi.
    assert (Hrender : ∀ g, (renderRow g s1).1 = (renderRow g s).1).
    { intros g. unfold renderRow. simpl. rewrite Hmc, Hsc. reflexivity. }
    rewrite (map_ext _ _ Hrender).
    rewrite (drop_S _ _ _ Hf). cbn [map].
    rewrite (take_S_r _ _ ((renderRow f s).1)).
    + rewrite take_insert_ge by lia. rewrite <- app_assoc. reflexivity.
    + apply list_lookup_insert_eq. lia.
Qed.

(** The preview pane is as wide in full view as in split view only on
    a screen of at most 12 columns, where both widths are the minimum
    of 10. *)
Lemma preview_width_by_layout (total left : Z) :
  0 ≤ left →
  (Z.max 10 (total - 2) ≠ Z.max 10 (total - (left + gap) - 2) ↔ 12 < total).
Proof. unfold gap. lia. Qed.

(** C6, amended.  'f' in Browsing flips the layout and applies it: the
    total width follows the screen and the list pane gets its width
    back when it is shown.  The width of the preview pane is computed
    from them; it differs from the width before exactly when the screen
    is wider than 12 columns (below, both are the minimum of 10).  The
    rows of the list are rendered again from the metadata and summary
    caches.  The rendered previews are left alone: the preview cache
    and the text in the preview pane are what they were, as are the
    selection, the page and the two other caches.  A preview at the new
    width is made only by the next load of a preview that finds none
    cached at that width, and is stored under the key of that width,
    also when the load resumes later, in another state. *)
Theorem toggle_layout_keeps_rendered_previews
    (stringWidth : jsstring → nat) (fmtTime : Z → jsstring)
    (chalkHex : jsstring → jsstring → text) (opts : Options)
    (w : World) (s : State) :
  modalActive s = false → destroyed s = false →
  let s' := step stringWidth fmtTime chalkHex opts w (Press KF) s in
  fullView s' = negb (fullView s)
  ∧ totalW s' = (if screenWidth s =? 0 then totalW s else screenWidth s)
  ∧ leftW s' = (if fullView s' then leftW s
                else Z.max 30 (floorScale35 (totalW s')))
  ∧ getPreviewInnerWidth s'
    = Z.max 10 ((if fullView s' then screenWidth s
                 else screenWidth s - (leftW s' + gap)) - 2)
  ∧ (0 ≤ leftW s →
     (getPreviewInnerWidth s' ≠ getPreviewInnerWidth s ↔ 12 < screenWidth s))
  ∧ (length (itemBoxes s) = length (pageItems s) →
     itemBoxes s' = map (fun f => (renderRow f s).1) (pageItems s)
     ∧ faults s' = faults s)
  ∧ previewCache s' = previewCache s
  ∧ previewContent s' = previewContent s
  ∧ metaCache s' = metaCache s ∧ msgSummaryCache s' = msgSummaryCache s
  ∧ selectedIndex s' = selectedIndex s ∧ pageItems s' = pageItems s
  ∧ modalActive s' = false ∧ destroyed s' = false
  ∧ (∀ (w' : World) (idx : Z) (f : SessionFile) (parsed : Parsed),
       nthZ (pageItems s') idx = Some f →
       previewCache s' !! previewKey (path f) (getPreviewInnerWidth s') = None →
       parseSessionFile w' (path f) = inl parsed →
       let s'' := updatePreviewForIndex stringWidth fmtTime chalkHex opts w' idx s' in
       let body := buildDialogPreviewBlocks stringWidth fmtTime chalkHex
                     (parsedMessages parsed) (hide opts)
                     (Some (getPreviewInnerWidth s')) in
       previewContent s'' = body
       ∧ previewCache s'' !! previewKey (path f) (getPreviewInnerWidth s') = Some body)
  ∧ (∀ (idx : Z) (f : SessionFile),
       nthZ (pageItems s') idx = Some f →
       previewCache s' !! previewKey (path f) (getPreviewInnerWidth s') = None →
       (previewStart idx s').2 = Some (mkPending idx f (getPreviewInnerWidth s'))
       ∧ ∀ (parsed : Parsed) (later : State),
           previewCache
             (previewResume stringWidth fmtTime chalkHex opts
                (mkPending idx f (getPreviewInnerWidth s')) (inl parsed) later)
             !! previewKey (path f) (getPreviewInnerWidth s')
           = Some (buildDialogPreviewBlocks stringWidth fmtTime chalkHex
                     (parsedMessages parsed) (hide opts)
                     (Some (getPreviewInnerWidth s')))).
Proof.
  intros Hm Hd. cbv zeta. simpl. rewrite Hd. unfold press.
  rewrite overlayKey_toggle. simpl. unfold onToggleFull. rewrite Hm. cbv zeta.
  unfold applyLayout. cbv zeta.
  set (s1 := set_totalW _ (set_fullView (negb (fullView s)) s)).
  set (s2 := if fullView s1 then s1 else set_leftW _ s1).
  assert (Hrows2 : itemBoxes s2 = itemBoxes s ∧ pageItems s2 = pageItems s
                   ∧ metaCache s2 = metaCache s
                   ∧ msgSummaryCache s2 = msgSummaryCache s
                   ∧ faults s2 = faults s ∧ destroyed s2 = false)
    by (subst s2 s1; destruct (fullView s); simpl; repeat split; assumption).
  destruct Hrows2 as (Hib2 & Hpi2 & Hmc2 & Hsc2 & Hfa2 & Hd2).
  pose proof (itemBoxes_updateBoxesFrom (length (itemBoxes s2)) 0 s2) as Hrows.
  pose proof (faults_updateBoxesFrom (length (itemBoxes s2)) 0 s2) as Hfaults.
  pose proof (core_fields _ _
                (core_updateBoxesFrom (length (itemBoxes s2)) 0 s2)) as Hc.
  pose proof (core_geometry _ _
                (core_updateBoxesFrom (length (itemBoxes s2)) 0 s2)) as Hg.
  change (Z.of_nat 0) with 0 in Hrows.
  set (s3 := updateBoxesFrom _ 0 s2) in *.
  assert (Hmiss : ∀ (w' : World) (idx : Z) (f : SessionFile) (parsed : Parsed),
       nthZ (pageItems s3) idx = Some f →
       previewCache s3 !! previewKey (path f) (getPreviewInnerWidth s3) = None →
       parseSessionFile w' (path f) = inl parsed →
       previewContent (updatePreviewForIndex stringWidth fmtTime chalkHex opts w' idx s3)
       = buildDialogPreviewBlocks stringWidth fmtTime chalkHex
           (parsedMessages parsed) (hide opts) (Some (getPreviewInnerWidth s3))
       ∧ previewCache (updatePreviewForIndex stringWidth fmtTime chalkHex opts w' idx s3)
           !! previewKey (path f) (getPreviewInnerWidth s3)
         = Some (buildDialogPreviewBlocks stringWidth fmtTime chalkHex
                   (parsedMessages parsed) (hide opts) (Some (getPreviewInnerWidth s3)))).
  { intros w' idx f parsed Hf Hnone Hparse.
    apply (updatePreview_miss stringWidth fmtTime chalkHex opts w' idx s3 f parsed
             Hf Hnone Hparse).
    destruct Hc as (_ & _ & _ & _ & _ & _ & _ & _ & Hd3 & _). rewrite Hd3. exact Hd2. }
  clearbody s3.
  destruct Hc as (_ & _ & Hpi & Hi & Hmc & Hsc & Hpc & Hpv & Hd3 & Hfv & Hmo & _).
  destruct Hg as (_ & Htw & Hlw & Hsw & _).
  assert (Hwidth : getPreviewInnerWidth s3
            = Z.max 10 ((if negb (fullView s) then screenWidth s
                         else screenWidth s
                              - ((if negb (fullView s) then leftW s
                                  else Z.max 30 (floorScale35
                                         (if screenWidth s =? 0 then totalW s
                                          else screenWidth s))) + gap)) - 2)).
  { unfold getPreviewInnerWidth. rewrite Hfv, Hlw, Hsw.
    subst s2 s1. simpl. destruct (fullView s); reflexivity. }
  split; [rewrite Hfv; subst s2 s1; simpl; destruct (fullView s); reflexivity|].
  split; [rewrite Htw; subst s2 s1; simpl; destruct (fullView s); reflexivity|].
  split; [rewrite Hlw, Hfv, Htw; subst s2 s1; simpl; destruct (fullView s); reflexivity|].
  split; [rewrite Hwidth, Hfv, Hlw; subst s2 s1; simpl;
          destruct (fullView s); reflexivity|].
  split.
  { intros Hleft. rewrite Hwidth. unfold getPreviewInnerWidth.
    destruct (fullView s); cbn [negb]; unfold gap; lia. }
  split.
  { intros Hlen. split.
    - rewrite Hrows; [|rewrite Hib2, Hpi2; exact Hlen|rewrite Hib2, Hpi2; lia].
      rewrite take_0, drop_0, Hpi2. cbn [app]. apply map_ext.
      intros g. unfold renderRow. simpl. rewrite Hmc2, Hsc2. reflexivity.
    - rewrite Hfaults; [exact Hfa2|lia|].
      rewrite Hib2, Hpi2. unfold lengthZ. lia. }
  split; [rewrite Hpc; subst s2 s1; destruct (fullView s); reflexivity|].
  split; [rewrite Hpv; subst s2 s1; destruct (fullView s); reflexivity|].
  split; [rewrite Hmc; exact Hmc2|].
  split; [rewrite Hsc; exact Hsc2|].
  split; [rewrite Hi; subst s2 s1; destruct (fullView s); reflexivity|].
  split; [rewrite Hpi; exact Hpi2|].
  split; [rewrite Hmo; subst s2 s1; destruct (fullView s); simpl; assumption|].
  split; [rewrite Hd3; exact Hd2|].
  split; [intros w' idx f parsed Hf Hnone Hparse; apply Hmiss; assumption|].
  intros idx f Hf Hnone. split; [apply previewStart_miss; assumption|].
  intros parsed later.
  apply (previewResume_stores stringWidth fmtTime chalkHex opts
           (mkPending idx f (getPreviewInnerWidth s3)) parsed later).
Qed.

Lemma toggle_layout_keeps_rendered_previews_witness :
  let s := startedABC in
  let s' := step columns clock sgrHex sampleOpts sampleWorld (Press KF) s in
  fullView s' = negb (fullView s)
  ∧ totalW s' = (if screenWidth s =? 0 then totalW s else screenWidth s)
  ∧ leftW s' = (if fullView s' then leftW s
                else Z.max 30 (floorScale35 (totalW s')))
  ∧ getPreviewInnerWidth s'
    = Z.max 10 ((if fullView s' then screenWidth s
                 else screenWidth s - (leftW s' + gap)) - 2)
  ∧ (0 ≤ leftW s →
     (getPreviewInnerWidth s' ≠ getPreviewInnerWidth s ↔ 12 < screenWidth s))
  ∧ (length (itemBoxes s) = length (pageItems s) →
     itemBoxes s' = map (fun f => (renderRow f s).1) (pageItems s)
     ∧ faults s' = faults s)
  ∧ previewCache s' = previewCache s
  ∧ previewContent s' = previewContent s
  ∧ metaCache s' = metaCache s ∧ msgSummaryCache s' = msgSummaryCache s
  ∧ selectedIndex s' = selectedIndex s ∧ pageItems s' = pageItems s
  ∧ modalActive s' = false ∧ destroyed s' = false
  ∧ (∀ (w' : World) (idx : Z) (f : SessionFile) (parsed : Parsed),
       nthZ (pageItems s') idx = Some f →
       previewCache s' !! previewKey (path f) (getPreviewInnerWidth s') = None →
       parseSessionFile w' (path f) = inl parsed →
       let s'' := updatePreviewForIndex columns clock sgrHex sampleOpts w' idx s' in
       let body := buildDialogPreviewBlocks columns clock sgrHex
                     (parsedMessages parsed) (hide sampleOpts)
                     (Some (getPreviewInnerWidth s')) in
       previewContent s'' = body
       ∧ previewCache s'' !! previewKey (path f) (getPreviewInnerWidth s') = Some body)
  ∧ (∀ (idx : Z) (f : SessionFile),
       nthZ (pageItems s') idx = Some f →
       previewCache s' !! previewKey (path f) (getPreviewInnerWidth s') = None →
       (previewStart idx s').2 = Some (mkPending idx f (getPreviewInnerWidth s'))
       ∧ ∀ (parsed : Parsed) (later : State),
           previewCache
             (previewResume columns clock sgrHex sampleOpts
                (mkPending idx f (getPreviewInnerWidth s')) (inl parsed) later)
             !! previewKey (path f) (getPreviewInnerWidth s')
           = Some (buildDialogPreviewBlocks columns clock sgrHex
                     (parsedMessages parsed) (hide sampleOpts)
                     (Some (getPreviewInnerWidth s')))).
Proof.
  apply (toggle_layout_keeps_rendered_previews columns clock sgrHex sampleOpts
           sampleWorld startedABC).
  - vm_compute. reflexivity.
  - vm_compute. reflexivity.
Defined.

(** * More about the preview formatter *)

Lemma collectRecent_limited (k : nat) (backwards : list (option Message))
    (subset : list Message) :
  (length subset ≤ k)%nat →
  collectRecent (Some k) backwards subset
  = subset ++ take (k - length subset) (omap dialogEntry backwards).
Proof.
  revert subset. induction backwards as [|m rest IH]; intros subset Hle; simpl.
  - rewrite take_nil, app_nil_r. reflexivity.
  - destruct (Nat.ltb_spec (length subset) k) as [Hlt|Hge].
    + destruct m as [m|]; simpl; [|apply IH; assumption].
      destruct (isDialog m); simpl; [|apply IH; assumption].
      rewrite IH by (rewrite length_app; simpl; lia).
      rewrite length_app. simpl.
      replace (k - length subset)%nat with (S (k - (length subset + 1)))%nat by lia.
      simpl. rewrite <- app_assoc. reflexivity.
    + replace (k - length subset)%nat with 0%nat by lia.
      rewrite take_0, app_nil_r. reflexivity.
Qed.

(** X1. With a limit, selectRecentDialogMessages returns the last
    [limit] user and assistant records of the log, oldest first: null
    records and other roles neither appear nor count against the
    limit. *)
Theorem selectRecent_last_dialog_records (messages : list (option Message))
    (limit : nat) :
  let dialog := omap dialogEntry messages in
  selectRecentDialogMessages messages (Some limit)
  = drop (length dialog - limit) dialog
  ∧ length (selectRecentDialogMessages messages (Some limit))
    = Nat.min limit (length dialog).
Proof.
  intros dialog.
  assert (Heq : selectRecentDialogMessages messages (Some limit)
                = drop (length dialog - limit) dialog).
  { unfold selectRecentDialogMessages.
    rewrite collectRecent_limited by (simpl; lia). simpl.
    rewrite Nat.sub_0_r, omap_rev. fold dialog.
    rewrite firstn_rev, rev_involutive. reflexivity. }
  split; [exact Heq|].
  rewrite Heq, length_drop. lia.
Qed.

Lemma wrapLoop_nonempty (stringWidth : jsstring → nat) (maxWidth : Z)
    (chars : jsstring) :
  ∀ result cur width,
    Forall (fun seg => seg ≠ []) result →
    Forall (fun seg => seg ≠ [])
      (wrapLoop stringWidth maxWidth chars result cur width).1
    ∧ (cur ≠ [] ∨ chars ≠ [] →
       (wrapLoop stringWidth maxWidth chars result cur width).2 ≠ []).
Proof.
  induction chars as [|ch rest IH]; intros result cur width Hres; simpl.
  - split; [assumption|]. intros [H|H]; [assumption|congruence].
  - destruct ((Z.of_nat (width + stringWidth [ch]) >? maxWidth) && negb (isEmpty cur))
      eqn:Hbreak.
    + apply andb_true_iff in Hbreak as [_ Hcur].
      destruct (IH (result ++ [cur]) [ch] (stringWidth [ch])) as [H1 H2].
      { apply Forall_app. split; [assumption|].
        apply Forall_cons. split; [|apply Forall_nil; exact I].
        destruct cur; [discriminate|discriminate]. }
      split; [assumption|]. intros _. apply H2. left. discriminate.
    + destruct (IH result (cur ++ [ch]) (width + stringWidth [ch])%nat Hres) as [H1 H2].
      split; [assumption|]. intros _. apply H2. left.
      destruct cur; discriminate.
Qed.

(** X2. Hard-wrapping cuts a line and does nothing else: the segments,
    put end to end, are the line itself, there is at least one, and
    a segment is empty only when the line is (then it is the only
    one). *)
Theorem wrapPlainLine_cuts_the_line (stringWidth : jsstring → nat)
    (line : jsstring) (maxWidth : Z) :
  concat (wrapPlainLine stringWidth line maxWidth) = line
  ∧ wrapPlainLine stringWidth line maxWidth ≠ []
  ∧ Forall (fun seg => isEmpty seg = isEmpty line)
      (wrapPlainLine stringWidth line maxWidth)
  ∧ wrapPlainLine stringWidth [] maxWidth = [[]].
Proof.
  split; [apply wrapPlainLine_concat|].
  split; [|split; [|reflexivity]].
  - unfold wrapPlainLine.
    destruct (wrapLoop_nonempty stringWidth maxWidth line [] [] 0%nat) as [_ H2];
      [apply Forall_nil; exact I|].
    destruct (wrapLoop stringWidth maxWidth line [] [] 0%nat) as [result cur] eqn:E.
    unfold jsstring in *. rewrite E in H2. simpl in H2. clear E. destruct line as [|c r].
    + destruct cur; simpl; destruct result; discriminate.
    + destruct cur as [|d cur]; [exfalso; apply H2; [right; discriminate|reflexivity]|].
      simpl. destruct result; discriminate.
  - unfold wrapPlainLine.
    destruct (wrapLoop_nonempty stringWidth maxWidth line [] [] 0%nat) as [H1 H2];
      [apply Forall_nil; exact I|].
    destruct line as [|c r]; [simpl; apply Forall_cons; split; [reflexivity|apply Forall_nil; exact I]|].
    destruct (wrapLoop stringWidth maxWidth (c :: r) [] [] 0%nat) as [result cur] eqn:E.
    unfold jsstring in *. rewrite E in H1, H2. simpl in H1, H2. clear E.
    assert (Hcur : cur ≠ []) by (apply H2; right; discriminate).
    destruct cur as [|d cur]; [congruence|]. simpl.
    apply Forall_app. split.
    + eapply Forall_impl; [exact H1|]. intros [|x seg] Hseg; [congruence|reflexivity].
    + apply Forall_cons. split; [reflexivity|apply Forall_nil; exact I].
Qed.

Lemma forcedBreaks_prefix (stringWidth : jsstring → nat) (maxWidth : Z)
    (l l' : list jsstring) :
  forcedBreaks stringWidth maxWidth (l ++ l') → forcedBreaks stringWidth maxWidth l.
Proof.
  intros H i a c b Hi HSi.
  apply (H i a c b); apply lookup_app_l_Some; assumption.
Qed.

Lemma forcedBreaks_push (stringWidth : jsstring → nat) (maxWidth : Z)
    (l : list jsstring) (cur : jsstring) (ch : N) :
  forcedBreaks stringWidth maxWidth (l ++ [cur]) →
  maxWidth < Z.of_nat (charSum stringWidth cur + stringWidth [ch]) →
  forcedBreaks stringWidth maxWidth ((l ++ [cur]) ++ [[ch]]).
Proof.
  intros H Hfull i a c b Hi HSi. unfold jsstring in *.
  destruct (decide (S i < length (l ++ [cur]))%nat) as [Hlt|Hge].
  - rewrite lookup_app_l in Hi, HSi by lia. apply (H i a c b Hi HSi).
  - apply lookup_lt_Some in HSi as Hbound.
    repeat rewrite length_app in Hbound. repeat rewrite length_app in Hge.
    simpl in Hbound, Hge.
    assert (Hi' : i = length l) by lia. subst i.
    rewrite lookup_app_l in Hi by (rewrite length_app; simpl; lia).
    rewrite lookup_app_r in Hi by lia. rewrite Nat.sub_diag in Hi. simpl in Hi.
    rewrite lookup_app_r in HSi by (rewrite length_app; simpl; lia).
    rewrite length_app in HSi. simpl in HSi.
    replace (S (length l) - (length l + 1))%nat with 0%nat in HSi by lia.
    simpl in HSi. simplify_eq. assumption.
Qed.

Lemma forcedBreaks_grow (stringWidth : jsstring → nat) (maxWidth : Z)
    (l : list jsstring) (cur : jsstring) (ch : N) :
  forcedBreaks stringWidth maxWidth (l ++ [cur]) →
  (cur = [] → l = []) →
  forcedBreaks stringWidth maxWidth (l ++ [cur ++ [ch]]).
Proof.
  intros H Hcur i a c b Hi HSi. unfold jsstring in *.
  apply lookup_lt_Some in HSi as Hbound.
  rewrite length_app in Hbound. simpl in Hbound.
  destruct (decide (S i < length l)%nat) as [Hlt|Hge].
  - rewrite lookup_app_l in Hi, HSi by lia.
    apply (H i a c b); apply lookup_app_l_Some; assumption.
  - assert (HSi' : S i = length l) by lia.
    rewrite lookup_app_l in Hi by lia.
    rewrite lookup_app_r in HSi by lia.
    rewrite HSi', Nat.sub_diag in HSi. simpl in HSi.
    destruct cur as [|d cur].
    + rewrite Hcur in HSi' by reflexivity. discriminate.
    + simpl in HSi. simplify_eq.
      apply (H i a c cur).
      * apply lookup_app_l_Some. assumption.
      * rewrite lookup_app_r by lia. rewrite HSi', Nat.sub_diag. reflexivity.
Qed.

Lemma charSum_snoc (stringWidth : jsstring → nat) (s : jsstring) (c : N) :
  charSum stringWidth (s ++ [c]) = (charSum stringWidth s + stringWidth [c])%nat.
Proof. induction s as [|d s IH]; simpl; [|rewrite IH]; lia. Qed.

Lemma wrapLoop_forced (stringWidth : jsstring → nat) (maxWidth : Z)
    (chars : jsstring) :
  ∀ result cur width,
    width = charSum stringWidth cur →
    (cur = [] → result = []) →
    forcedBreaks stringWidth maxWidth (result ++ [cur]) →
    forcedBreaks stringWidth maxWidth
      ((wrapLoop stringWidth maxWidth chars result cur width).1
       ++ [(wrapLoop stringWidth maxWidth chars result cur width).2]).
Proof.
  induction chars as [|ch rest IH]; intros result cur width Hw Hcur Hf; simpl.
  - assumption.
  - destruct ((Z.of_nat (width + stringWidth [ch]) >? maxWidth) && negb (isEmpty cur))
      eqn:Hbreak.
    + apply andb_true_iff in Hbreak as [Hgt _].
      rewrite Z.gtb_ltb in Hgt. apply Z.ltb_lt in Hgt.
      apply IH.
      * simpl. lia.
      * discriminate.
      * apply forcedBreaks_push; [assumption|]. subst width. assumption.
    + apply IH.
      * rewrite charSum_snoc. lia.
      * destruct cur; discriminate.
      * apply forcedBreaks_grow; assumption.
Qed.

(** X3. Hard-wrapping is greedy: wherever a wrapped line is cut, the
    segment before the cut could not have taken the character that
    starts the next segment without exceeding the width. *)
Theorem wrapPlainLine_breaks_only_when_full (stringWidth : jsstring → nat)
    (line : jsstring) (maxWidth : Z) (i : nat) (a b : jsstring) (c : N) :
  wrapPlainLine stringWidth line maxWidth !! i = Some a →
  wrapPlainLine stringWidth line maxWidth !! S i = Some (c :: b) →
  maxWidth < Z.of_nat (charSum stringWidth a + stringWidth [c]).
Proof.
  assert (Hf : forcedBreaks stringWidth maxWidth
                 (wrapPlainLine stringWidth line maxWidth)).
  { pose proof (wrapLoop_forced stringWidth maxWidth line [] [] 0%nat eq_refl
                  (fun _ => eq_refl)) as H.
    destruct (wrapPlainLine_segments stringWidth line maxWidth) as (dropped & Heq & _).
    unfold jsstring in *. rewrite Heq in H.
    apply (forcedBreaks_prefix _ _ _ dropped). apply H.
    intros j x y z Hj HSj. destruct j; discriminate. }
  intros Hi HSi. apply (Hf i a c b Hi HSi).
Qed.

Lemma wrapPlainLine_breaks_only_when_full_witness :
  wrapPlainLine columns (lit "abcdef") 4 !! 0%nat = Some (lit "abcd")
  ∧ wrapPlainLine columns (lit "abcdef") 4 !! 1%nat = Some (lit "ef")
  ∧ 4 < Z.of_nat (charSum columns (lit "abcd") + columns (lit "e")).
Proof.
  split; [vm_compute; reflexivity|]. split; [vm_compute; reflexivity|].
  apply (wrapPlainLine_breaks_only_when_full columns (lit "abcdef") 4 0
           (lit "abcd") (lit "f") 101%N); vm_compute; reflexivity.
Defined.

Lemma joinWith_splitOn {A} `{EqDecision A} (sep : A) (s : list A) :
  joinWith [sep] (splitOn sep s) = s.
Proof.
  induction s as [|c r IH]; [reflexivity|]. simpl.
  pose proof (splitOn_nonempty sep r) as Hne.
  destruct (decide (c = sep)) as [->|Hc].
  - destruct (splitOn sep r) as [|l ls]; [congruence|].
    change (joinWith [sep] ([] :: l :: ls)) with ([] ++ [sep] ++ joinWith [sep] (l :: ls)).
    rewrite IH. reflexivity.
  - destruct (splitOn sep r) as [|l ls]; [congruence|].
    destruct ls as [|l' ls]; simpl in *; rewrite <- IH; reflexivity.
Qed.

Lemma stripAnsi_joinWith (ls : list text) :
  stripAnsi (joinWith [Ch NL] ls) = joinWith [NL] (map stripAnsi ls).
Proof.
  induction ls as [|l ls IH]; [reflexivity|].
  destruct ls as [|l' ls]; [reflexivity|].
  change (joinWith [Ch NL] (l :: l' :: ls))
    with (l ++ [Ch NL] ++ joinWith [Ch NL] (l' :: ls)).
  rewrite !stripAnsi_app, IH. reflexivity.
Qed.

Lemma stripAnsi_paint (chalkHex : jsstring → jsstring → text)
    (chalk : option (jsstring → jsstring → text)) (colour s : jsstring) :
  (∀ colour s, stripAnsi (chalkHex colour s) = s) →
  chalk = None ∨ chalk = Some chalkHex →
  stripAnsi (paint chalk colour s) = s.
Proof.
  intros Hstrip [->| ->]; simpl; [apply stripAnsi_plain|apply Hstrip].
Qed.

(** What a turn's lines read once the colours are taken away. *)
Lemma blockLines_stripped (stringWidth : jsstring → nat) (fmtTime : Z → jsstring)
    (chalkHex : jsstring → jsstring → text)
    (chalk : option (jsstring → jsstring → text)) (wrapWidth : option Z)
    (it : Message) :
  (∀ colour s, stripAnsi (chalkHex colour s) = s) →
  chalk = None ∨ chalk = Some chalkHex →
  map stripAnsi (blockLines stringWidth fmtTime chalk wrapWidth it)
  = map stripAnsi (blockLines stringWidth fmtTime None wrapWidth it).
Proof.
  intros Hstrip Hchalk. unfold blockLines.
  set (colour := if bool_decide (role it = roleUser) then THEME_orange else THEME_green).
  set (label := if bool_decide (role it = roleUser) then lit "User" else lit "AI").
  set (ts := match timestamp it with Some t => fmtTime t | None => [] end).
  set (cw := match wrapWidth with
             | Some w => if w >? Z.of_nat (stringWidth [BAR; SPACE]) + 1
                         then Some (w - Z.of_nat (stringWidth [BAR; SPACE])) else None
             | None => None
             end).
  assert (Hp : ∀ ch colour s, ch = None ∨ ch = Some chalkHex →
                 stripAnsi (paint ch colour s) = s).
  { intros ch c s Hch. apply (stripAnsi_paint chalkHex); assumption. }
  cbn [map]. f_equal.
  - rewrite !stripAnsi_app, !Hp by auto. reflexivity.
  - rewrite !map_app. f_equal.
    induction (splitOn NL (mtext it)) as [|raw raws IH]; [reflexivity|].
    cbn [flat_map]. rewrite !map_app, IH. f_equal.
    destruct cw as [w|]; cbv beta iota.
    + rewrite !map_map. apply map_ext. intros seg.
      rewrite !stripAnsi_app, !Hp by auto. reflexivity.
    + cbn [map]. rewrite !stripAnsi_app, !Hp by auto. reflexivity.
Qed.

(** X4. Colour is only colour: with a chalk that adds nothing but escape
    sequences, both formatters print the same characters with and
    without it, at any wrap width. *)
Theorem colour_changes_no_character (stringWidth : jsstring → nat)
    (fmtTime : Z → jsstring) (chalkHex : jsstring → jsstring → text)
    (items : list Message) (wrapWidth : option Z)
    (chalk_strip : ∀ colour s, stripAnsi (chalkHex colour s) = s) :
  stripAnsi (formatPreviewBlocks stringWidth fmtTime items (Some chalkHex) wrapWidth)
  = stripAnsi (formatPreviewBlocks stringWidth fmtTime items None wrapWidth)
  ∧ map stripAnsi (formatPreviewLines fmtTime items true (Some chalkHex))
    = map stripAnsi (formatPreviewLines fmtTime items false (Some chalkHex)).
Proof.
  split.
  - unfold formatPreviewBlocks. rewrite !stripAnsi_joinWith. f_equal.
    unfold formatPreviewLinesOut.
    induction items as [|it items IH]; [reflexivity|].
    cbn [flat_map]. rewrite !map_app, IH. f_equal.
    apply (blockLines_stripped stringWidth fmtTime chalkHex); [assumption|].
    right. reflexivity.
  - unfold formatPreviewLines. rewrite !map_map. apply map_ext. intros it.
    cbv beta zeta iota. unfold paint.
    rewrite !stripAnsi_app, !chalk_strip, !stripAnsi_plain. reflexivity.
Qed.

Lemma colour_changes_no_character_witness :
  stripAnsi (formatPreviewBlocks columns clock
               [mkMessage roleUser (lit "hello") (Some 0)] (Some sgrHex) (Some 20))
  = stripAnsi (formatPreviewBlocks columns clock
               [mkMessage roleUser (lit "hello") (Some 0)] None (Some 20))
  ∧ map stripAnsi (formatPreviewLines clock
                     [mkMessage roleUser (lit "hello") (Some 0)] true (Some sgrHex))
    = map stripAnsi (formatPreviewLines clock
                     [mkMessage roleUser (lit "hello") (Some 0)] false (Some sgrHex)).
Proof.
  apply (colour_changes_no_character columns clock sgrHex
           [mkMessage roleUser (lit "hello") (Some 0)] (Some 20)).
  intros colour s. apply sgrHex_strip.
Defined.

(** X5. With no wrap width, or one too small to leave a column after
    the bar (at most the bar prefix's width plus one), nothing is
    wrapped: a turn prints its header, then one line for each line of
    its text, then a blank line; and the lines of the text, joined by
    line breaks, are the text. *)
Theorem unwrapped_turn_prints_its_lines (stringWidth : jsstring → nat)
    (fmtTime : Z → jsstring) (chalkHex : jsstring → jsstring → text)
    (wrapWidth : option Z) (it : Message)
    (chalk_strip : ∀ colour s, stripAnsi (chalkHex colour s) = s)
    (Hsmall : match wrapWidth with
              | Some w => w ≤ Z.of_nat (stringWidth [BAR; SPACE]) + 1
              | None => True
              end) :
  let ts := match timestamp it with Some t => fmtTime t | None => [] end in
  let label := if bool_decide (role it = roleUser) then lit "User" else lit "AI" in
  map stripAnsi (blockLines stringWidth fmtTime (Some chalkHex) wrapWidth it)
  = ([BAR; SPACE] ++ label ++ [SPACE] ++ ts)
    :: map (fun raw => [BAR; SPACE] ++ raw) (splitOn NL (mtext it)) ++ [[]]
  ∧ joinWith [NL] (splitOn NL (mtext it)) = mtext it.
Proof.
  intros ts label. split; [|apply joinWith_splitOn].
  rewrite (blockLines_stripped stringWidth fmtTime chalkHex) by (auto).
  unfold blockLines.
  assert (Hcw : match wrapWidth with
                | Some w => if w >? Z.of_nat (stringWidth [BAR; SPACE]) + 1
                            then Some (w - Z.of_nat (stringWidth [BAR; SPACE])) else None
                | None => None
                end = None).
  { destruct wrapWidth as [w|]; [|reflexivity].
    destruct (Z.gtb_spec w (Z.of_nat (stringWidth [BAR; SPACE]) + 1)); [lia|reflexivity]. }
  rewrite Hcw. cbn [map]. f_equal.
  - unfold paint. rewrite !stripAnsi_app, !stripAnsi_plain. reflexivity.
  - rewrite map_app. f_equal.
    induction (splitOn NL (mtext it)) as [|raw raws IH]; [reflexivity|].
    cbn [flat_map map app]. rewrite IH. unfold paint.
    rewrite !stripAnsi_app, !stripAnsi_plain. reflexivity.
Qed.

Lemma unwrapped_turn_prints_its_lines_witness :
  map stripAnsi (blockLines columns clock (Some sgrHex) (Some 3)
                   (mkMessage roleUser (lit "hello" ++ [NL] ++ lit "wide world") None))
  = [ [BAR; SPACE] ++ lit "User ";
      [BAR; SPACE] ++ lit "hello";
      [BAR; SPACE] ++ lit "wide world";
      [] ].
Proof.
  apply (unwrapped_turn_prints_its_lines columns clock sgrHex (Some 3)
           (mkMessage roleUser (lit "hello" ++ [NL] ++ lit "wide world") None)).
  - intros colour s. apply sgrHex_strip.
  - vm_compute. discriminate.
Defined.

Lemma filter_none {A} (P : A → Prop) `{∀ x, Decision (P x)} (l : list A) :
  (∀ x, x ∈ l → ¬ P x) → filter P l = [].
Proof.
  induction l as [|x l IH]; intros Hall; [reflexivity|].
  rewrite filter_cons_False by (apply Hall; left).
  apply IH. intros y Hy. apply Hall. right. assumption.
Qed.

Lemma filter_all {A} (P : A → Prop) `{∀ x, Decision (P x)} (l : list A) :
  (∀ x, x ∈ l → P x) → filter P l = l.
Proof.
  induction l as [|x l IH]; intros Hall; [reflexivity|].
  rewrite filter_cons_True by (apply Hall; left).
  f_equal. apply IH. intros y Hy. apply Hall. right. assumption.
Qed.

(** X6. Of the roles listed in [hide], only "user" and "assistant" have
    an effect on the split view's preview: two lists that agree on
    these two give the same output.  The command line's default,
    'tool' and 'thinking', hides nothing. *)
Theorem hide_only_user_and_assistant_matter (stringWidth : jsstring → nat)
    (fmtTime : Z → jsstring) (chalkHex : jsstring → jsstring → text)
    (messages : list (option Message)) (hide1 hide2 : list jsstring)
    (wrapWidth : option Z)
    (Huser : roleUser ∈ hide1 ↔ roleUser ∈ hide2)
    (Hassistant : roleAssistant ∈ hide1 ↔ roleAssistant ∈ hide2) :
  buildDialogPreviewBlocks stringWidth fmtTime chalkHex messages hide1 wrapWidth
  = buildDialogPreviewBlocks stringWidth fmtTime chalkHex messages hide2 wrapWidth.
Proof.
  unfold buildDialogPreviewBlocks, previewItems. do 3 f_equal.
  apply list_filter_iff. intros it. unfold keptByHide, includes.
  rewrite (bool_decide_ext _ _ Huser), (bool_decide_ext _ _ Hassistant).
  reflexivity.
Qed.

Lemma hide_only_user_and_assistant_matter_witness :
  buildDialogPreviewBlocks columns clock sgrHex sampleLog
    [lit "tool"; lit "thinking"] (Some 40)
  = buildDialogPreviewBlocks columns clock sgrHex sampleLog [] (Some 40).
Proof.
  apply (hide_only_user_and_assistant_matter columns clock sgrHex sampleLog
           [lit "tool"; lit "thinking"] [] (Some 40)).
  - split; intros H; exfalso; revert H; vm_compute; intros H;
      repeat (apply elem_of_cons in H as [H|H]; [discriminate H|]); inversion H.
  - split; intros H; exfalso; revert H; vm_compute; intros H;
      repeat (apply elem_of_cons in H as [H|H]; [discriminate H|]); inversion H.
Defined.

Lemma dialogEntry_role (m : option Message) (it : Message) :
  dialogEntry m = Some it → role it = roleUser ∨ role it = roleAssistant.
Proof.
  destruct m as [m|]; simpl; [|discriminate].
  unfold isDialog. destruct (decide (role m = roleUser)) as [Hu|Hu].
  - rewrite bool_decide_eq_true_2 by assumption. simpl.
    intros [= <-]. left. assumption.
  - rewrite bool_decide_eq_false_2 by assumption. simpl.
    destruct (decide (role m = roleAssistant)) as [Ha|Ha].
    + rewrite bool_decide_eq_true_2 by assumption. intros [= <-]. right. assumption.
    + rewrite bool_decide_eq_false_2 by assumption. discriminate.
Qed.

(** X7. Hiding both "user" and "assistant" leaves the preview empty,
    whatever the log holds. *)
Theorem hiding_both_roles_empties_the_preview (stringWidth : jsstring → nat)
    (fmtTime : Z → jsstring) (chalkHex : jsstring → jsstring → text)
    (messages : list (option Message)) (hide : list jsstring)
    (wrapWidth : option Z)
    (Huser : roleUser ∈ hide) (Hassistant : roleAssistant ∈ hide) :
  previewItems messages hide = []
  ∧ buildDialogPreviewBlocks stringWidth fmtTime chalkHex messages hide wrapWidth = [].
Proof.
  assert (Hnone : previewItems messages hide = []).
  { unfold previewItems. rewrite selectRecentDialogMessages_unbounded.
    replace (filter (fun it => keptByHide hide it = true) (omap dialogEntry messages))
      with (@nil Message); [reflexivity|].
    symmetry. apply filter_none. intros it Hit.
    apply list_elem_of_omap in Hit as (m & _ & Hm).
    unfold keptByHide, includes.
    rewrite !(bool_decide_eq_true_2 (_ ∈ hide)) by assumption.
    destruct (dialogEntry_role m it Hm) as [Hr|Hr].
    - rewrite (bool_decide_eq_true_2 _ Hr). simpl. discriminate.
    - rewrite (bool_decide_eq_true_2 (role it = roleAssistant) Hr).
      destruct (bool_decide (role it = roleUser)); simpl; discriminate. }
  split; [exact Hnone|].
  unfold buildDialogPreviewBlocks. rewrite Hnone. reflexivity.
Qed.

Lemma hiding_both_roles_empties_the_preview_witness :
  previewItems sampleLog [roleAssistant; roleUser] = []
  ∧ buildDialogPreviewBlocks columns clock sgrHex sampleLog
      [roleAssistant; roleUser] (Some 40) = [].
Proof.
  apply (hiding_both_roles_empties_the_preview columns clock sgrHex sampleLog
           [roleAssistant; roleUser] (Some 40)).
  - apply elem_of_cons. right. apply elem_of_cons. left. reflexivity.
  - apply elem_of_cons. left. reflexivity.
Defined.

Lemma length_filter_omap_dialog (messages : list (option Message)) :
  length (filter (fun m => isDialogEntry m = true) messages)
  = length (omap dialogEntry messages).
Proof.
  induction messages as [|m rest IH]; [reflexivity|].
  rewrite filter_cons. destruct m as [m|]; simpl.
  - destruct (isDialog m) eqn:E; simpl.
    + destruct (decide (true = true)); [|congruence]. simpl. rewrite IH. reflexivity.
    + destruct (decide (false = true)); [discriminate|]. exact IH.
  - destruct (decide (false = true)); [discriminate|]. exact IH.
Qed.

(** X8. The message count a list row shows for a session is the number
    of turns its preview prints, when neither "user" nor "assistant" is
    hidden. *)
Theorem summary_counts_the_preview_turns (messages : list (option Message))
    (hide : list jsstring)
    (Huser : roleUser ∉ hide) (Hassistant : roleAssistant ∉ hide) :
  sumCount (summarize messages) = lengthZ (previewItems messages hide).
Proof.
  unfold summarize, previewItems, lengthZ. simpl.
  rewrite length_map, selectRecentDialogMessages_unbounded.
  rewrite length_filter_omap_dialog. do 2 f_equal.
  symmetry. apply filter_all. intros it _. unfold keptByHide, includes.
  rewrite !(bool_decide_eq_false_2 (_ ∈ hide)) by assumption.
  rewrite !andb_false_r. reflexivity.
Qed.

Lemma summary_counts_the_preview_turns_witness :
  sumCount (summarize sampleLog) = lengthZ (previewItems sampleLog [lit "tool"]).
Proof.
  apply (summary_counts_the_preview_turns sampleLog [lit "tool"]).
  - intros H. apply list_elem_of_singleton in H. discriminate H.
  - intros H. apply list_elem_of_singleton in H. discriminate H.
Defined.

(** * The age shown in a list row *)

(** X9. formatRelativeAge as a table of the elapsed time: seconds below
    a minute, minutes below an hour, hours below a day, days below a
    week, weeks below 28 days, months of 30 days below 360 days, years
    of 365 days from there on; an instant in the future counts as
    now. *)
Theorem formatRelativeAge_by_elapsed_time (now date : Z) :
  let diff := Z.max 0 (now - date) in
  formatRelativeAge now date
  = if diff <? 60000 then showZ (diff / 1000) ++ lit "s ago"
    else if diff <? 3600000 then showZ (diff / 60000) ++ lit "m ago"
    else if diff <? msPerDay then showZ (diff / 3600000) ++ lit "h ago"
    else if diff <? 7 * msPerDay then showZ (diff / msPerDay) ++ lit "d ago"
    else if diff <? 28 * msPerDay
         then showZ (diff / (7 * msPerDay)) ++ lit "w ago"
    else if diff <? 360 * msPerDay
         then showZ (diff / (30 * msPerDay)) ++ lit "mo ago"
    else showZ (diff / (365 * msPerDay)) ++ lit "y ago".
Proof.
  intros diff. unfold formatRelativeAge, msPerDay. fold diff. cbv zeta.
  assert (Hd : 0 ≤ diff) by (unfold diff; lia). clearbody diff.
  repeat match goal with
         | |- context [?a <? ?b] => destruct (Z.ltb_spec a b)
         end;
    first [ exfalso; Z.div_mod_to_equations; lia
          | do 2 f_equal; Z.div_mod_to_equations; lia ].
Qed.

(** X10. Between 28 and 30 days the age is shown as '0mo ago', and
    between 360 and 365 days as '0y ago': four weeks is no longer
    counted in weeks, and twelve 30-day months no longer in months. *)
Theorem formatRelativeAge_zero_counts (now date : Z)
    (H : 28 * msPerDay ≤ now - date < 30 * msPerDay
         ∨ 360 * msPerDay ≤ now - date < 365 * msPerDay) :
  formatRelativeAge now date
  = if now - date <? 30 * msPerDay then lit "0mo ago" else lit "0y ago".
Proof.
  unfold formatRelativeAge, msPerDay in *. cbv zeta.
  replace (Z.max 0 (now - date)) with (now - date) by lia.
  set (diff := now - date) in *. clearbody diff.
  repeat match goal with
         | |- context [?a <? ?b] => destruct (Z.ltb_spec a b)
         end; try (exfalso; Z.div_mod_to_equations; lia).
  - replace (diff / 1000 / 60 / 60 / 24 / 30) with 0; [reflexivity|].
    Z.div_mod_to_equations; lia.
  - replace (diff / 1000 / 60 / 60 / 24 / 365) with 0; [reflexivity|].
    Z.div_mod_to_equations; lia.
Qed.

Lemma formatRelativeAge_zero_counts_witness :
  formatRelativeAge (29 * msPerDay) 0 = lit "0mo ago".
Proof.
  apply (formatRelativeAge_zero_counts (29 * msPerDay) 0).
  left. unfold msPerDay. lia.
Defined.

(** * The picker between two events *)

Lemma pageConsistent_ext (s s' : State) :
  visibleFiles s' = visibleFiles s → currentPage s' = currentPage s →
  pageItems s' = pageItems s → selectedIndex s' = selectedIndex s →
  destroyed s' = destroyed s → resolved s' = resolved s →
  idxLoad s' = idxLoad s → idxSum s' = idxSum s →
  length (itemBoxes s') = length (itemBoxes s) →
  pageConsistent s → pageConsistent s'.
Proof.
  unfold pageConsistent, pageOf, selectionValid.
  intros -> -> -> -> -> -> -> -> ->. tauto.
Qed.

Lemma steady_refl (s : State) : steady s s.
Proof. repeat split; reflexivity. Qed.

Lemma steady_trans (s1 s2 s3 : State) : steady s1 s2 → steady s2 s3 → steady s1 s3.
Proof. intros (H1 & H2 & H3) (H4 & H5 & H6). repeat split; congruence. Qed.

Lemma pageConsistent_steady (s s' : State) :
  steady s s' → pageConsistent s → pageConsistent s'.
Proof.
  intros (Hsk & _ & Hlen). apply skeleton_fields in Hsk.
  destruct Hsk as (? & ? & ? & ? & ? & _ & _ & _ & ? & ? & _ & _ & _ & ? & _).
  apply pageConsistent_ext; assumption.
Qed.

Lemma steady_pageItems (s s' : State) : steady s s' → pageItems s' = pageItems s.
Proof. intros (Hsk & _). apply skeleton_fields in Hsk. tauto. Qed.

Lemma length_loadMeta (w : World) (i : Z) (s : State) :
  length (itemBoxes (loadMeta w i s)) = length (itemBoxes s).
Proof.
  unfold loadMeta, refreshListRow.
  repeat case_match; try reflexivity; rewrite length_updateItemBox; reflexivity.
Qed.

Lemma length_loadSummary (w : World) (i : Z) (s : State) :
  length (itemBoxes (loadSummary w i s)) = length (itemBoxes s).
Proof.
  unfold loadSummary.
  repeat case_match; try reflexivity; rewrite length_updateItemBox; reflexivity.
Qed.

Lemma steady_loadMeta (w : World) (i : Z) (s : State) :
  is_Some (nthZ (pageItems s) i) → steady s (loadMeta w i s).
Proof.
  intros H. split; [apply skeleton_loadMeta|].
  split; [apply faults_loadMeta, H|apply length_loadMeta].
Qed.

Lemma steady_loadSummary (w : World) (i : Z) (s : State) :
  steady s (loadSummary w i s).
Proof.
  split; [apply skeleton_loadSummary|].
  split; [apply faults_loadSummary|apply length_loadSummary].
Qed.

Lemma length_buildBoxes (items : list SessionFile) (s : State) :
  length (itemBoxes (buildBoxes items s)) = (length (itemBoxes s) + length items)%nat.
Proof.
  revert s. induction items as [|f rest IH]; intros s; simpl; [lia|].
  rewrite IH. simpl. rewrite length_app. simpl. lia.
Qed.

Lemma length_pageOf (s : State) :
  0 ≤ currentPage s →
  currentPage s * ITEMS_PER_PAGE < lengthZ (visibleFiles s) →
  1 ≤ lengthZ (pageOf s) ≤ ITEMS_PER_PAGE.
Proof.
  intros Hcp Hlt. unfold pageOf. rewrite jsSlice_length; unfold ITEMS_PER_PAGE in *; lia.
Qed.

Lemma pageConsistent_updatePageItems (s : State) :
  destroyed s = false → resolved s = None →
  0 ≤ currentPage s →
  currentPage s * ITEMS_PER_PAGE < lengthZ (visibleFiles s) →
  0 ≤ idxLoad s → 0 ≤ idxSum s →
  pageConsistent (updatePageItems s).
Proof.
  intros Hd Hr Hcp Hlt Hil His.
  pose proof (core_fields _ _ (updatePageItems_core s)) as Hc.
  pose proof (core_geometry _ _ (updatePageItems_core s)) as Hg.
  pose proof (length_pageOf s Hcp Hlt) as Hlen.
  assert (Hboxes : length (itemBoxes (updatePageItems s)) = length (pageOf s)).
  { unfold updatePageItems, buildItemBoxes. cbv zeta. simpl.
    rewrite length_buildBoxes. reflexivity. }
  set (s1 := updatePageItems s) in *. clearbody s1.
  simpl in Hc, Hg. fold (pageOf s) in Hc.
  destruct Hc as (Hvis & Hcur & Hpi & Hsel & _ & _ & _ & _ & Hdes & _ & _ & _ & _ & Hres).
  destruct Hg as (_ & _ & _ & _ & Hl & Hs & _).
  unfold pageConsistent, selectionValid.
  replace (pageOf s1) with (pageOf s) by (unfold pageOf; rewrite Hvis, Hcur; reflexivity).
  rewrite Hboxes, Hvis, Hcur, Hpi, Hsel, Hdes, Hres, Hl, Hs.
  unfold lengthZ in Hlen.
  repeat split; try assumption; try reflexivity; unfold lengthZ; lia.
Qed.

Lemma pageConsistent_select (i : Z) (s : State) :
  pageConsistent s → 0 ≤ i < lengthZ (pageItems s) →
  pageConsistent (set_selectedIndex i s).
Proof.
  unfold pageConsistent, pageOf, selectionValid. simpl. tauto.
Qed.

Lemma pageConsistent_nonempty (s : State) :
  pageConsistent s → isEmpty (visibleFiles s) = false.
Proof.
  intros (_ & _ & Hcp & Hlt & _). unfold ITEMS_PER_PAGE, lengthZ in Hlt.
  destruct (visibleFiles s); [simpl in Hlt; lia|reflexivity].
Qed.

Lemma pageConsistent_selected (s : State) :
  pageConsistent s → is_Some (selectedFile s).
Proof.
  intros (_ & _ & _ & _ & _ & _ & Hsel & _). apply nthZ_in_range, Hsel.
Qed.

Lemma afterDelete_consistent (s : State) : pageConsistent s → afterDelete s = s.
Proof.
  intros Hc. unfold afterDelete. rewrite (pageConsistent_nonempty s Hc). reflexivity.
Qed.

(** Laying the panes out again leaves the list as it is. *)
Lemma applyLayout_consistent (s : State) :
  pageConsistent s →
  pageConsistent (applyLayout s) ∧ faults (applyLayout s) = faults s.
Proof.
  intros Hc. unfold applyLayout. cbv zeta.
  set (s1 := set_totalW _ s).
  set (s2 := if fullView s1 then s1 else set_leftW _ s1).
  assert (H2 : pageConsistent s2 ∧ faults s2 = faults s).
  { subst s2. destruct (fullView s1); split; try reflexivity;
      revert Hc; apply pageConsistent_ext; reflexivity. }
  clearbody s2. clear s1. destruct H2 as [Hc2 Hf2].
  pose proof (core_fields _ _ (core_updateBoxesFrom (length (itemBoxes s2)) 0 s2)) as Hcf.
  pose proof (core_geometry _ _ (core_updateBoxesFrom (length (itemBoxes s2)) 0 s2)) as Hcg.
  destruct Hcf as (? & ? & ? & ? & _ & _ & _ & _ & ? & _ & _ & _ & _ & ?).
  destruct Hcg as (_ & _ & _ & _ & ? & ? & _).
  split.
  - revert Hc2. apply pageConsistent_ext; try assumption.
    apply length_updateBoxesFrom.
  - rewrite faults_updateBoxesFrom, Hf2; [reflexivity|lia|].
    destruct Hc2 as (_ & _ & _ & _ & _ & Hlen & _). unfold lengthZ. lia.
Qed.

Section Invariant.

Variable stringWidth : jsstring -> nat.
Variable fmtTime : Z -> jsstring.
Variable chalkHex : jsstring -> jsstring -> text.
Variable opts : Options.

Local Abbreviation updatePreview := (updatePreviewForIndex stringWidth fmtTime chalkHex opts).

Lemma length_updatePreview (w : World) (idx : Z) (s : State) :
  length (itemBoxes (updatePreview w idx s)) = length (itemBoxes s).
Proof.
  unfold updatePreviewForIndex.
  repeat case_match; simpl; rewrite ?length_updateItemBox; reflexivity.
Qed.

Lemma steady_updatePreview (w : World) (idx : Z) (s : State) :
  steady s (updatePreview w idx s).
Proof.
  split; [apply skeleton_updatePreviewForIndex|].
  split; [apply faults_updatePreviewForIndex|apply length_updatePreview].
Qed.

Lemma length_onNavKey (w : World) (k : NavKey) (s : State) :
  length (itemBoxes (onNavKey stringWidth fmtTime chalkHex opts w k s))
  = length (itemBoxes s).
Proof.
  unfold onNavKey, setSelectedIndex.
  repeat case_match;
    repeat (rewrite length_loadMeta || rewrite length_loadSummary
            || rewrite length_updatePreview);
    reflexivity.
Qed.

Lemma onNavKey_consistent (w : World) (k : NavKey) (s : State) :
  pageConsistent s →
  pageConsistent (onNavKey stringWidth fmtTime chalkHex opts w k s)
  ∧ faults (onNavKey stringWidth fmtTime chalkHex opts w k s) = faults s.
Proof.
  intros Hc. destruct (modalActive s) eqn:Hm.
  - unfold onNavKey. rewrite Hm. split; [assumption|reflexivity].
  - assert (Hsel : selectionValid s) by (unfold pageConsistent in Hc; tauto).
    pose proof (onNavKey_quiet stringWidth fmtTime chalkHex opts w k s Hm Hsel)
      as [Hsk Hf].
    pose proof (navTarget_in_range k s Hsel) as Hrange.
    split; [|exact Hf].
    apply (pageConsistent_steady (set_selectedIndex (navTarget k s) s)).
    + split; [exact Hsk|]. split; [exact Hf|]. exact (length_onNavKey w k s).
    + apply pageConsistent_select; assumption.
Qed.

(** Showing another page. *)
Lemma turnPage_consistent (w : World) (p : Z) (s : State) :
  pageConsistent s → 0 ≤ p → p * ITEMS_PER_PAGE < lengthZ (visibleFiles s) →
  let s' := updatePreview w 0
              (set_idxSum 0 (set_idxLoad 0 (updatePageItems (set_currentPage p s)))) in
  pageConsistent s' ∧ faults s' = faults s.
Proof.
  intros (Hd & Hr & _ & _ & _ & _ & _ & Hil & His) Hp Hlt s'.
  assert (H1 : pageConsistent (updatePageItems (set_currentPage p s)))
    by (apply pageConsistent_updatePageItems; assumption).
  pose proof (updatePageItems_faults (set_currentPage p s)) as Hf1.
  set (s1 := updatePageItems (set_currentPage p s)) in *. clearbody s1.
  assert (H2 : pageConsistent (set_idxSum 0 (set_idxLoad 0 s1))).
  { unfold pageConsistent, pageOf, selectionValid in *. simpl. intuition lia. }
  subst s'. split.
  - apply (pageConsistent_steady _ _ (steady_updatePreview w 0 _) H2).
  - rewrite faults_updatePreviewForIndex. exact Hf1.
Qed.


Local Abbreviation afterAnswer := (deleteConfirmed stringWidth fmtTime chalkHex opts).

Lemma ended_ext (s s' : State) :
  destroyed s' = destroyed s → resolved s' = resolved s → ended s → ended s'.
Proof. unfold ended. intros -> ->. tauto. Qed.

Lemma ended_resolve (v : option Action) (s : State) :
  destroyed s = true → ended (resolve v s).
Proof.
  intros Hd. unfold ended, resolve.
  destruct (resolved s) eqn:E; simpl; rewrite ?E; split; eauto.
Qed.

Lemma faults_resolve (v : option Action) (s : State) :
  faults (resolve v s) = faults s.
Proof. unfold resolve. destruct (resolved s); reflexivity. Qed.

Lemma faults_afterDelete (s : State) : faults (afterDelete s) = faults s.
Proof.
  unfold afterDelete. destruct (isEmpty (visibleFiles s)); [|reflexivity].
  rewrite faults_resolve. destruct (destroyed s); reflexivity.
Qed.

Lemma ended_afterDelete (s : State) : ended s → ended (afterDelete s).
Proof.
  intros [Hd Hr]. unfold afterDelete.
  destruct (isEmpty (visibleFiles s)); [|split; assumption].
  rewrite Hd. apply ended_resolve, Hd.
Qed.

Lemma faults_setSelectedIndex (i : Z) (s : State) :
  faults (setSelectedIndex i s) = faults s.
Proof. unfold setSelectedIndex. case_match; reflexivity. Qed.

(** The end of a successful deletion that leaves files: the page is
    built anew, the selection clamped and its preview shown. *)
Lemma redraw_any (w : World) (n n' : Z) (s : State) :
  let s' := afterDelete (updatePreview w n' (setSelectedIndex n (updatePageItems s))) in
  faults s' = faults s ∧ (ended s → ended s').
Proof.
  intros s'. subst s'. split.
  - rewrite faults_afterDelete, faults_updatePreviewForIndex,
      faults_setSelectedIndex, updatePageItems_faults. reflexivity.
  - intros He. apply ended_afterDelete.
    pose proof (skeleton_fields _ _
                  (skeleton_updatePreviewForIndex stringWidth fmtTime chalkHex opts
                     w n' (setSelectedIndex n (updatePageItems s)))) as Hk.
    destruct Hk as (_ & _ & _ & _ & Hd & _ & _ & _ & _ & _ & _ & _ & _ & Hr & _).
    apply (ended_ext (setSelectedIndex n (updatePageItems s))); [assumption..|].
    pose proof (core_fields _ _ (updatePageItems_core s)) as Hc.
    destruct Hc as (_ & _ & _ & _ & _ & _ & _ & _ & Hd' & _ & _ & _ & _ & Hr').
    apply (ended_ext (updatePageItems s));
      [unfold setSelectedIndex; case_match; reflexivity..|].
    apply (ended_ext s); assumption.
Qed.

Lemma redraw_consistent (w : World) (prevSel : Z) (s : State) :
  destroyed s = false → resolved s = None →
  0 ≤ currentPage s →
  currentPage s * ITEMS_PER_PAGE < lengthZ (visibleFiles s) →
  0 ≤ idxLoad s → 0 ≤ idxSum s →
  let s4 := updatePageItems s in
  let newSel := Z.max 0 (Z.min prevSel (lengthZ (pageItems s4) - 1)) in
  pageConsistent (afterDelete (updatePreview w newSel (setSelectedIndex newSel s4))).
Proof.
  intros Hd Hr Hcp Hlt Hil His s4 newSel.
  assert (H4 : pageConsistent s4)
    by (apply pageConsistent_updatePageItems; assumption).
  clearbody s4.
  assert (Hrange : 0 ≤ newSel < lengthZ (pageItems s4)).
  { destruct H4 as (_ & _ & _ & _ & _ & _ & Hsel & _).
    unfold selectionValid in Hsel. subst newSel. lia. }
  clearbody newSel.
  rewrite (setSelectedIndex_in_range newSel s4 Hrange).
  assert (H6 : pageConsistent (updatePreview w newSel (set_selectedIndex newSel s4))).
  { apply (pageConsistent_steady _ _ (steady_updatePreview w newSel _)).
    apply pageConsistent_select; assumption. }
  rewrite (afterDelete_consistent _ H6). exact H6.
Qed.

Lemma deleteConfirmed_any (w : World) (f : SessionFile) (c : bool) (s : State) :
  faults (afterAnswer w f c s) = faults s
  ∧ (ended s → ended (afterAnswer w f c s)).
Proof.
  unfold deleteConfirmed. destruct c; simpl negb; cbv iota.
  2: { split; [apply faults_afterDelete|apply ended_afterDelete]. }
  destruct (unlink w (path f)) as [message|].
  { split; [reflexivity|]. apply ended_ext; reflexivity. }
  cbv zeta.
  set (s2 := set_visibleFiles _ (purgeCaches (path f) s)).
  assert (H2 : faults s2 = faults s ∧ (ended s → ended s2)).
  { split; [reflexivity|]. apply ended_ext; reflexivity. }
  clearbody s2. destruct H2 as [Hf2 He2].
  destruct (isEmpty (visibleFiles s2)).
  { split; [rewrite faults_afterDelete; exact Hf2|].
    intros He. apply ended_afterDelete. apply He2 in He.
    destruct He as [_ Hr]. split; [reflexivity|exact Hr]. }
  set (s3 := if currentPage s2 >=? _ then _ else s2).
  assert (H3 : faults s3 = faults s ∧ (ended s → ended s3)
               ∧ selectedIndex s3 = selectedIndex s3).
  { subst s3. case_match; (split; [exact Hf2|]); (split; [|reflexivity]);
      intros He; apply He2 in He; revert He; apply ended_ext; reflexivity. }
  clearbody s3. destruct H3 as (Hf3 & He3 & _).
  match goal with
  | |- context [updatePreviewForIndex _ _ _ _ w ?n' (setSelectedIndex ?n _)] =>
      destruct (redraw_any w n n' s3) as [Hf He]
  end.
  split; [rewrite Hf; exact Hf3|]. intros H. apply He, He3, H.
Qed.

Lemma deleteConfirmed_consistent (w : World) (f : SessionFile) (c : bool) (s : State) :
  pageConsistent s →
  ended (afterAnswer w f c s) ∨ pageConsistent (afterAnswer w f c s).
Proof.
  intros Hc. unfold deleteConfirmed. destruct c; simpl negb; cbv iota.
  2: { right. rewrite afterDelete_consistent; assumption. }
  destruct (unlink w (path f)) as [message|].
  { right. revert Hc. apply pageConsistent_ext; reflexivity. }
  cbv zeta.
  set (s2 := set_visibleFiles _ (purgeCaches (path f) s)).
  assert (H2 : destroyed s2 = false ∧ resolved s2 = None
               ∧ currentPage s2 = currentPage s
               ∧ idxLoad s2 = idxLoad s ∧ idxSum s2 = idxSum s).
  { destruct Hc as (Hd & Hr & _). repeat split; assumption. }
  clearbody s2. destruct H2 as (Hd2 & Hr2 & Hcp2 & Hil2 & His2).
  destruct (isEmpty (visibleFiles s2)) eqn:Hempty.
  { left. unfold afterDelete. simpl. rewrite Hempty. apply ended_resolve. reflexivity. }
  right.
  assert (Hlen : 1 ≤ lengthZ (visibleFiles s2)).
  { unfold lengthZ. destruct (visibleFiles s2); [discriminate|simpl; lia]. }
  pose proof (ceilDiv_pages _ Hlen) as Hpages.
  set (totalPages := Z.max 1 (ceilDiv (lengthZ (visibleFiles s2)) ITEMS_PER_PAGE)) in *.
  set (s3 := if currentPage s2 >=? totalPages then _ else s2).
  destruct Hc as (_ & _ & Hcp & _ & _ & _ & _ & Hil & His).
  assert (H3 : destroyed s3 = false ∧ resolved s3 = None
               ∧ 0 ≤ currentPage s3
               ∧ currentPage s3 * ITEMS_PER_PAGE < lengthZ (visibleFiles s3)
               ∧ 0 ≤ idxLoad s3 ∧ 0 ≤ idxSum s3).
  { subst s3. destruct (Z.geb_spec (currentPage s2) totalPages); simpl;
      repeat split; try assumption; unfold ITEMS_PER_PAGE in *; lia. }
  clearbody s3. destruct H3 as (Hd3 & Hr3 & Hcp3 & Hlt3 & Hil3 & His3).
  apply redraw_consistent; assumption.
Qed.

Lemma ended_or_consistent_ext (s s' : State) :
  visibleFiles s' = visibleFiles s → currentPage s' = currentPage s →
  pageItems s' = pageItems s → selectedIndex s' = selectedIndex s →
  destroyed s' = destroyed s → resolved s' = resolved s →
  idxLoad s' = idxLoad s → idxSum s' = idxSum s →
  length (itemBoxes s') = length (itemBoxes s) →
  ended s ∨ pageConsistent s → ended s' ∨ pageConsistent s'.
Proof.
  intros H1 H2 H3 H4 H5 H6 H7 H8 H9 [He|Hc].
  - left. revert He. apply ended_ext; assumption.
  - right. revert Hc. apply pageConsistent_ext; assumption.
Qed.

(** A key handler of the screen, run on a list in order, leaves it in
    order or ends the picker, and raises nothing. *)
Lemma screenKey_consistent (w : World) (k : Key) (s : State) :
  pageConsistent s →
  let s' := screenKey stringWidth fmtTime chalkHex opts w k s in
  faults s' = faults s ∧ (ended s' ∨ pageConsistent s').
Proof.
  intros Hc s'. subst s'.
  assert (Hkeep : faults s = faults s ∧ (ended s ∨ pageConsistent s))
    by (split; [reflexivity|right; assumption]).
  pose proof (pageConsistent_selected s Hc) as [f Hf].
  destruct k; simpl; try exact Hkeep.
  - (* navigation *)
    destruct (onNavKey_consistent w k s Hc) as [H1 H2]. split; [exact H2|right; exact H1].
  - (* left *)
    unfold onLeft. destruct (modalActive s); [exact Hkeep|].
    destruct (Z.gtb_spec (currentPage s) 0) as [Hgt|Hle]; [|exact Hkeep].
    destruct (turnPage_consistent w (currentPage s - 1) s Hc) as [H1 H2].
    + lia.
    + destruct Hc as (_ & _ & _ & Hlt & _). unfold ITEMS_PER_PAGE in *. lia.
    + split; [exact H2|right; exact H1].
  - (* right *)
    unfold onRight. destruct (modalActive s); [exact Hkeep|]. cbv zeta.
    destruct (Z.ltb_spec (currentPage s)
                (ceilDiv (lengthZ (visibleFiles s)) ITEMS_PER_PAGE - 1)) as [Hlt|Hge];
      [|exact Hkeep].
    destruct (turnPage_consistent w (currentPage s + 1) s Hc) as [H1 H2].
    + destruct Hc as (_ & _ & Hcp & _). lia.
    + unfold ceilDiv, ITEMS_PER_PAGE in *.
      pose proof (Z.div_mod (lengthZ (visibleFiles s) + 30 - 1) 30 ltac:(lia)).
      pose proof (Z.mod_pos_bound (lengthZ (visibleFiles s) + 30 - 1) 30 ltac:(lia)).
      lia.
    + split; [exact H2|right; exact H1].
  - (* f *)
    unfold onToggleFull. destruct (modalActive s); [exact Hkeep|]. cbv zeta.
    destruct (applyLayout_consistent (set_fullView (negb (fullView s)) s)) as [H1 H2].
    + revert Hc. apply pageConsistent_ext; reflexivity.
    + split; [exact H2|right; exact H1].
  - (* c *)
    unfold onCopy. rewrite Hf.
    repeat case_match; (split; [reflexivity|right]);
      revert Hc; apply pageConsistent_ext; reflexivity.
  - (* d *)
    unfold onDelete, deleteSelectedFile, confirmDeleteDialog.
    destruct (modalActive s); [exact Hkeep|]. rewrite Hf.
    repeat case_match; simplify_eq; (split; [reflexivity|right]);
      revert Hc; apply pageConsistent_ext; reflexivity.
  - (* - *)
    destruct (modalActive s); [exact Hkeep|].
    split; [reflexivity|right]. revert Hc. apply pageConsistent_ext; reflexivity.
  - (* n *)
    unfold onStartNew. destruct (modalActive s); [exact Hkeep|]. rewrite Hf.
    cbv zeta. split; [rewrite faults_resolve; reflexivity|left; apply ended_resolve; reflexivity].
  - (* s *)
    unfold onWorkspaceCreate.
    destruct (modalActive s || negb (workspaceMode opts)); [exact Hkeep|].
    split; [rewrite faults_resolve; reflexivity|left; apply ended_resolve; reflexivity].
  - unfold onQuit. destruct (modalActive s); [exact Hkeep|].
    split; [rewrite faults_resolve; reflexivity|left; apply ended_resolve; reflexivity].
  - unfold onQuit. destruct (modalActive s); [exact Hkeep|].
    split; [rewrite faults_resolve; reflexivity|left; apply ended_resolve; reflexivity].
  - unfold onQuit. destruct (modalActive s); [exact Hkeep|].
    split; [rewrite faults_resolve; reflexivity|left; apply ended_resolve; reflexivity].
  - (* enter *)
    unfold onEnter. destruct (modalActive s); [exact Hkeep|]. cbv zeta.
    change (selectedFile (set_destroyed true s)) with (selectedFile s). rewrite Hf.
    split; [rewrite faults_resolve; reflexivity|left; apply ended_resolve; reflexivity].
Qed.

(** So does a key handler of the focused overlay, also on a picker
    that has ended. *)
Lemma overlayKey_invariant (w : World) (k : Key) (s : State) :
  ended s ∨ pageConsistent s →
  let s' := overlayKey stringWidth fmtTime chalkHex opts w k s in
  faults s' = faults s ∧ (ended s' ∨ pageConsistent s').
Proof.
  intros Hs s'. subst s'.
  assert (Hkeep : faults s = faults s ∧ (ended s ∨ pageConsistent s))
    by (split; [reflexivity|assumption]).
  assert (Hset : ∀ ovs, faults (set_overlays ovs s) = faults s
                        ∧ (ended (set_overlays ovs s) ∨ pageConsistent (set_overlays ovs s))).
  { intros ovs. split; [reflexivity|].
    revert Hs. apply ended_or_consistent_ext; reflexivity. }
  assert (Hfinish : ∀ f ans below,
            faults (finish stringWidth fmtTime chalkHex opts w f ans below s) = faults s
            ∧ (ended (finish stringWidth fmtTime chalkHex opts w f ans below s)
               ∨ pageConsistent (finish stringWidth fmtTime chalkHex opts w f ans below s))).
  { intros f ans below. unfold finish. cbv zeta.
    set (s0 := set_modalActive false (set_overlays below s)).
    assert (H0 : ended s0 ∨ pageConsistent s0)
      by (revert Hs; apply ended_or_consistent_ext; reflexivity).
    destruct (deleteConfirmed_any w f ans s0) as [Hf He].
    split; [exact Hf|]. destruct H0 as [H0|H0]; [left; apply He, H0|].
    apply deleteConfirmed_consistent, H0. }
  assert (Hdismiss : ∀ below,
            faults (afterDelete (set_overlays below s)) = faults s
            ∧ (ended (afterDelete (set_overlays below s))
               ∨ pageConsistent (afterDelete (set_overlays below s)))).
  { intros below. split; [rewrite faults_afterDelete; reflexivity|].
    destruct (Hset below) as [_ [He|Hc]].
    - left. apply ended_afterDelete, He.
    - right. rewrite afterDelete_consistent; assumption. }
  unfold overlayKey.
  destruct (overlays s) as [|[v|f shownId selected|f message] below]; [exact Hkeep|..];
    destruct k;
    lazymatch goal with
    | |- context [finish] => apply Hfinish
    | |- context [afterDelete] => apply Hdismiss
    | |- context [set_overlays] => apply Hset
    | _ => exact Hkeep
    end.
Qed.

Lemma metaWorkerTurn_invariant (w : World) (s : State) :
  ended s ∨ pageConsistent s →
  faults (metaWorkerTurn w s) = faults s
  ∧ (ended (metaWorkerTurn w s) ∨ pageConsistent (metaWorkerTurn w s)).
Proof.
  intros Hs. unfold metaWorkerTurn.
  destruct (metaWorkers s) as [|n]; [split; [reflexivity|assumption]|].
  destruct (Z.ltb_spec (idxLoad s) (lengthZ (pageItems s))) as [Hlt|Hge]; simpl.
  2: { split; [reflexivity|]. revert Hs. apply ended_or_consistent_ext; reflexivity. }
  destruct (destroyed s) eqn:Hd; simpl.
  { split; [reflexivity|]. revert Hs. apply ended_or_consistent_ext; reflexivity. }
  destruct Hs as [[He _]|Hc]; [congruence|].
  set (s1 := set_idxLoad (idxLoad s + 1) s).
  assert (H1 : pageConsistent s1).
  { unfold pageConsistent, pageOf, selectionValid in *. simpl. intuition lia. }
  assert (Hin : is_Some (nthZ (pageItems s1) (idxLoad s))).
  { apply nthZ_in_range. simpl. destruct Hc as (_ & _ & _ & _ & _ & _ & _ & Hil & _). lia. }
  pose proof (steady_loadMeta w (idxLoad s) s1 Hin) as Hst.
  split; [destruct Hst as (_ & Hf & _); exact Hf|].
  right. apply (pageConsistent_steady _ _ Hst H1).
Qed.

Lemma summaryWorkerTurn_invariant (w : World) (s : State) :
  ended s ∨ pageConsistent s →
  faults (summaryWorkerTurn w s) = faults s
  ∧ (ended (summaryWorkerTurn w s) ∨ pageConsistent (summaryWorkerTurn w s)).
Proof.
  intros Hs. unfold summaryWorkerTurn.
  destruct (sumWorkers s) as [|n]; [split; [reflexivity|assumption]|].
  destruct (Z.ltb_spec (idxSum s) (lengthZ (pageItems s))) as [Hlt|Hge]; simpl.
  2: { split; [reflexivity|]. revert Hs. apply ended_or_consistent_ext; reflexivity. }
  destruct (destroyed s) eqn:Hd; simpl.
  { split; [reflexivity|]. revert Hs. apply ended_or_consistent_ext; reflexivity. }
  destruct Hs as [[He _]|Hc]; [congruence|].
  set (s1 := set_idxSum (idxSum s + 1) s).
  assert (H1 : pageConsistent s1).
  { unfold pageConsistent, pageOf, selectionValid in *. simpl. intuition lia. }
  pose proof (steady_loadSummary w (idxSum s) s1) as Hst.
  split; [destruct Hst as (_ & Hf & _); exact Hf|].
  right. apply (pageConsistent_steady _ _ Hst H1).
Qed.

Lemma onClick_consistent (w : World) (i : Z) (s : State) :
  pageConsistent s →
  let s' := onClick stringWidth fmtTime chalkHex opts w i s in
  faults s' = faults s ∧ pageConsistent s'.
Proof.
  intros Hc s'. subst s'. unfold onClick.
  destruct (nthZ (itemBoxes s) i) as [row|] eqn:Hrow; [|split; [reflexivity|assumption]].
  apply nthZ_Some in Hrow.
  assert (Hrange : 0 ≤ i < lengthZ (pageItems s)).
  { destruct Hc as (_ & _ & _ & _ & _ & Hlen & _). unfold lengthZ in *. lia. }
  cbv zeta. rewrite (setSelectedIndex_in_range i s Hrange).
  set (s1 := set_selectedIndex i s).
  assert (H1 : pageConsistent s1) by (apply pageConsistent_select; assumption).
  pose proof (steady_updatePreview w i s1) as Q2.
  set (s2 := updatePreview w i s1) in *.
  assert (Q3 : steady s1 (loadMeta w i s2)).
  { eapply steady_trans; [exact Q2|]. apply steady_loadMeta.
    rewrite (steady_pageItems _ _ Q2). apply nthZ_in_range. exact Hrange. }
  set (s3 := loadMeta w i s2) in *.
  assert (Q4 : steady s1 (loadSummary w i s3)).
  { eapply steady_trans; [exact Q3|]. apply steady_loadSummary. }
  split; [destruct Q4 as (_ & Hf & _); exact Hf|].
  apply (pageConsistent_steady _ _ Q4 H1).
Qed.

(** Every event keeps the invariant. *)
Lemma step_invariant (w : World) (e : Event) (s : State) :
  pickerInvariant s →
  pickerInvariant (step stringWidth fmtTime chalkHex opts w e s).
Proof.
  intros [Hf Hs]. unfold pickerInvariant.
  assert (Hdead : destroyed s = true → pickerInvariant s) by (intros _; split; assumption).
  assert (Halive : destroyed s = false → pageConsistent s).
  { intros Hd. destruct Hs as [[He _]|Hc]; [congruence|assumption]. }
  destruct e; simpl.
  - destruct (destroyed s) eqn:Hd; [apply Hdead; reflexivity|].
    unfold press.
    destruct (screenKey_consistent w k s (Halive eq_refl)) as [Hf1 Hs1].
    destruct (overlayKey_invariant w k _ Hs1) as [Hf2 Hs2].
    split; [congruence|exact Hs2].
  - destruct (destroyed s) eqn:Hd; [apply Hdead; reflexivity|].
    unfold inputSubmit.
    repeat case_match; try (split; assumption);
      (split; [exact Hf|]); revert Hs; apply ended_or_consistent_ext; reflexivity.
  - destruct (destroyed s) eqn:Hd; [apply Hdead; reflexivity|].
    destruct (onClick_consistent w i s (Halive eq_refl)) as [Hf1 Hc1].
    split; [congruence|right; exact Hc1].
  - destruct (destroyed s) eqn:Hd; [apply Hdead; reflexivity|].
    destruct (applyLayout_consistent (set_screenWidth width s)) as [Hc1 Hf1].
    + generalize (Halive eq_refl). apply pageConsistent_ext; reflexivity.
    + split; [rewrite Hf1; exact Hf|right; exact Hc1].
  - destruct (metaWorkerTurn_invariant w s Hs) as [Hf1 Hs1].
    split; [congruence|exact Hs1].
  - destruct (summaryWorkerTurn_invariant w s Hs) as [Hf1 Hs1].
    split; [congruence|exact Hs1].
Qed.

Lemma run_invariant (evs : list (World * Event)) (s : State) :
  pickerInvariant s →
  pickerInvariant (run stringWidth fmtTime chalkHex opts evs s).
Proof.
  revert s. induction evs as [|[w e] evs IH]; intros s Hs; [exact Hs|].
  simpl. apply IH, step_invariant, Hs.
Qed.

Lemma iter_consistent (turn : State → State) (n : nat) (s : State) :
  (∀ s, faults s = [] ∧ pageConsistent s →
        faults (turn s) = [] ∧ pageConsistent (turn s)) →
  faults s = [] ∧ pageConsistent s →
  faults (Nat.iter n turn s) = [] ∧ pageConsistent (Nat.iter n turn s).
Proof.
  intros Hturn Hs. induction n as [|n IH]; [exact Hs|]. simpl. apply Hturn, IH.
Qed.

Lemma alive_turn (turn : State → State) :
  (∀ s, ended s ∨ pageConsistent s →
        faults (turn s) = faults s ∧ (ended (turn s) ∨ pageConsistent (turn s))) →
  (∀ s, destroyed (turn s) = destroyed s) →
  ∀ s, faults s = [] ∧ pageConsistent s →
       faults (turn s) = [] ∧ pageConsistent (turn s).
Proof.
  intros Hinv Hd s [Hf Hc].
  destruct (Hinv s (or_intror Hc)) as [Hf1 [[He _]|Hc1]].
  - rewrite Hd in He. destruct Hc as [Hc _]. congruence.
  - split; [congruence|assumption].
Qed.

Lemma destroyed_metaWorkerTurn (w : World) (s : State) :
  destroyed (metaWorkerTurn w s) = destroyed s.
Proof.
  unfold metaWorkerTurn. repeat case_match; try reflexivity.
  pose proof (skeleton_fields _ _ (skeleton_loadMeta w (idxLoad s)
                                     (set_idxLoad (idxLoad s + 1) s))) as Hk.
  destruct Hk as (_ & _ & _ & _ & Hd & _). exact Hd.
Qed.

Lemma destroyed_summaryWorkerTurn (w : World) (s : State) :
  destroyed (summaryWorkerTurn w s) = destroyed s.
Proof.
  unfold summaryWorkerTurn. repeat case_match; try reflexivity.
  pose proof (skeleton_fields _ _ (skeleton_loadSummary w (idxSum s)
                                     (set_idxSum (idxSum s + 1) s))) as Hk.
  destruct Hk as (_ & _ & _ & _ & Hd & _). exact Hd.
Qed.

(** The picker starts with its list in order. *)
Lemma startPicker_invariant (w : World) (files : list SessionFile) (width : Z)
    (s0 : State) :
  startPicker stringWidth fmtTime chalkHex opts w files width = Some s0 →
  faults s0 = [] ∧ pageConsistent s0.
Proof.
  unfold startPicker. destruct files as [|f files]; [discriminate|]. cbn [isEmpty].
  cbv zeta. intros Hstart.
  assert (Hinj : ∀ a b : State, Some a = Some b → a = b) by (intros a b H; congruence).
  apply Hinj in Hstart. subst s0. clear Hinj.
  set (s1 := updatePageItems (initialState (f :: files) width)).
  assert (H1 : faults s1 = [] ∧ pageConsistent s1).
  { subst s1. split; [rewrite updatePageItems_faults; reflexivity|].
    apply pageConsistent_updatePageItems.
    - reflexivity.
    - reflexivity.
    - change (0 ≤ 0). lia.
    - change (0 * ITEMS_PER_PAGE < lengthZ (f :: files)).
      unfold lengthZ, ITEMS_PER_PAGE. cbn [length]. lia.
    - change (0 ≤ 0). lia.
    - change (0 ≤ 0). lia. }
  clearbody s1.
  assert (H2 : faults (set_metaWorkers concurrency s1) = []
               ∧ pageConsistent (set_metaWorkers concurrency s1)).
  { destruct H1 as [Hf Hc]. split; [exact Hf|].
    revert Hc. apply pageConsistent_ext; reflexivity. }
  apply (iter_consistent (metaWorkerTurn w) concurrency) in H2;
    [|apply alive_turn; [apply metaWorkerTurn_invariant|apply destroyed_metaWorkerTurn]].
  set (s3 := Nat.iter concurrency (metaWorkerTurn w) _) in *. clearbody s3.
  assert (H4 : faults (set_sumWorkers sumConcurrency s3) = []
               ∧ pageConsistent (set_sumWorkers sumConcurrency s3)).
  { destruct H2 as [Hf Hc]. split; [exact Hf|].
    revert Hc. apply pageConsistent_ext; reflexivity. }
  apply (iter_consistent (summaryWorkerTurn w) sumConcurrency) in H4;
    [|apply alive_turn; [apply summaryWorkerTurn_invariant|apply destroyed_summaryWorkerTurn]].
  set (s5 := Nat.iter sumConcurrency (summaryWorkerTurn w) _) in *. clearbody s5.
  destruct H4 as [Hf5 Hc5].
  assert (Hrange : 0 ≤ 0 < lengthZ (pageItems s5)).
  { destruct Hc5 as (_ & _ & _ & _ & _ & _ & Hsel & _).
    unfold selectionValid in Hsel. lia. }
  rewrite (setSelectedIndex_in_range 0 s5 Hrange).
  set (s6 := set_selectedIndex 0 s5).
  assert (H6 : pageConsistent s6) by (apply pageConsistent_select; assumption).
  pose proof (steady_updatePreview w 0 s6) as Q7.
  pose proof (pageConsistent_steady _ _ Q7 H6) as H7.
  destruct (applyLayout_consistent _ H7) as [H8 Hf8].
  split; [|exact H8].
  rewrite Hf8. destruct Q7 as (_ & Hf7 & _). rewrite Hf7. exact Hf5.
Qed.

End Invariant.

(** * Loads that resume later *)

(** With a row for each page item, rendering a row raises nothing. *)
Lemma faults_updateItemBox_rows (i : Z) (s : State) :
  length (itemBoxes s) = length (pageItems s) →
  faults (updateItemBox i s) = faults s.
Proof.
  intros Hrows. unfold updateItemBox.
  destruct (nthZ (itemBoxes s) i) as [b|] eqn:Hb; [|reflexivity].
  apply nthZ_Some in Hb. unfold lengthZ in Hb. rewrite Hrows in Hb.
  destruct (nthZ_in_range (pageItems s) i Hb) as [f Hf]. rewrite Hf.
  reflexivity.
Qed.

Lemma faults_loadMeta_grows (w : World) (i : Z) (s : State) :
  ∃ extra, faults (loadMeta w i s) = faults s ++ extra.
Proof.
  destruct (nthZ (pageItems s) i) as [f|] eqn:Hf.
  - exists []. rewrite app_nil_r. apply faults_loadMeta. eauto.
  - exists [UndefinedFile "loadMeta"]. unfold loadMeta. rewrite Hf. reflexivity.
Qed.

Lemma faults_onNavKeyRest (w : World) (sel : Z) (s : State) :
  ∃ extra, faults (onNavKeyRest w sel s) = faults (loadMeta w sel s) ++ extra.
Proof.
  unfold onNavKeyRest. cbv zeta.
  set (s1 := loadMeta w sel s).
  pose proof (faults_loadSummary w sel s1) as H2.
  set (s2 := loadSummary w sel s1) in *. clearbody s2.
  assert (H3 : ∃ e3, faults (if sel + 1 <? lengthZ (pageItems s2)
                             then loadMeta w (sel + 1) s2 else s2) = faults s2 ++ e3).
  { destruct (sel + 1 <? lengthZ (pageItems s2));
      [apply faults_loadMeta_grows|exists []; rewrite app_nil_r; reflexivity]. }
  destruct H3 as [e3 H3].
  set (s3 := if sel + 1 <? lengthZ (pageItems s2) then _ else _) in *. clearbody s3.
  assert (H4 : ∃ e4, faults (if sel - 1 >=? 0
                             then loadMeta w (sel - 1) s3 else s3) = faults s3 ++ e4).
  { destruct (sel - 1 >=? 0);
      [apply faults_loadMeta_grows|exists []; rewrite app_nil_r; reflexivity]. }
  destruct H4 as [e4 H4].
  set (s4 := if sel - 1 >=? 0 then _ else _) in *. clearbody s4.
  exists (e3 ++ e4).
  repeat match goal with
         | |- context [if ?c then _ else _] => destruct c
         end;
    rewrite ?faults_loadSummary, H4, H3, H2, <- app_assoc; reflexivity.
Qed.

(** X11. A load that resumes after its await raises nothing, whatever
    happened in between (another page, the end of the picker), as long
    as the list has a row for each page item: the continuations of
    loadSummary, loadMeta and updatePreviewForIndex are guarded, and so
    are the starts of loadSummary and updatePreviewForIndex.  The start
    of loadMeta is not: it reads the path of its item unguarded, and
    raises exactly when its index is outside the page.  That is what a
    navigation key does with its target once the preview is there, if
    the page has become too short meanwhile. *)
Theorem awaited_loads_resume_safely
    (stringWidth : jsstring → nat) (fmtTime : Z → jsstring)
    (chalkHex : jsstring → jsstring → text) (opts : Options)
    (w : World) (s : State) (i : Z) (f : SessionFile) (p : PendingPreview)
    (parsed : Parsed + jsstring) (meta : option Meta)
    (Hrows : length (itemBoxes s) = length (pageItems s)) :
  faults (loadSummaryResume i f parsed s) = faults s
  ∧ faults (loadMetaResume i f meta s) = faults s
  ∧ faults (previewResume stringWidth fmtTime chalkHex opts p parsed s) = faults s
  ∧ faults (loadSummaryStart i s).1 = faults s
  ∧ faults (previewStart i s).1 = faults s
  ∧ (faults (loadMetaStart i s).1 = faults s ↔ is_Some (nthZ (pageItems s) i))
  ∧ (nthZ (pageItems s) i = None → faults (onNavKeyRest w i s) ≠ faults s).
Proof.
  split.
  { unfold loadSummaryResume. destruct parsed; [|reflexivity].
    cbv zeta. rewrite faults_updateItemBox_rows; [reflexivity|exact Hrows]. }
  split.
  { unfold loadMetaResume, refreshListRow. destruct meta; [|reflexivity]. cbv zeta.
    repeat case_match; try reflexivity.
    rewrite faults_updateItemBox_rows; [reflexivity|exact Hrows]. }
  split.
  { unfold previewResume. destruct parsed as [parsed|msg]; cbv zeta.
    - match goal with
      | |- faults (if destroyed ?s0 then _ else _) = _ =>
          assert (H0 : faults s0 = faults s);
          [|destruct (destroyed s0); exact H0]
      end.
      simpl. rewrite faults_updateItemBox_rows; [reflexivity|exact Hrows].
    - case_match; reflexivity. }
  split.
  { unfold loadSummaryStart. repeat case_match; reflexivity. }
  split.
  { unfold previewStart. repeat case_match; reflexivity. }
  split.
  { unfold loadMetaStart. destruct (nthZ (pageItems s) i) as [g|]; cbv zeta.
    - split; [eauto|]. intros _. case_match; reflexivity.
    - simpl. split; [|intros [g Hg]; discriminate].
      intros E. apply (f_equal length) in E. rewrite length_app in E. simpl in E. lia. }
  intros Hnone E.
  destruct (faults_onNavKeyRest w i s) as [extra Hextra].
  unfold loadMeta in Hextra. rewrite Hnone in Hextra. simpl in Hextra.
  rewrite E in Hextra. apply (f_equal length) in Hextra.
  rewrite !length_app in Hextra. simpl in Hextra. lia.
Qed.

Lemma awaited_loads_resume_safely_witness :
  let s := deletedBofAB in
  let p := mkPending 0 fileB 47 in
  faults (loadSummaryResume 0 fileB (inl (mkParsed None sampleLog)) s) = faults s
  ∧ faults (loadMetaResume 0 fileB (Some (mkMeta None None None)) s) = faults s
  ∧ faults (previewResume columns clock sgrHex sampleOpts p
              (inl (mkParsed None sampleLog)) s) = faults s
  ∧ faults (loadSummaryStart 0 s).1 = faults s
  ∧ faults (previewStart 0 s).1 = faults s
  ∧ (faults (loadMetaStart 0 s).1 = faults s ↔ is_Some (nthZ (pageItems s) 0))
  ∧ (nthZ (pageItems s) 0 = None → faults (onNavKeyRest sampleWorld 0 s) ≠ faults s).
Proof.
  apply (awaited_loads_resume_safely columns clock sgrHex sampleOpts sampleWorld
           deletedBofAB 0 fileB (mkPending 0 fileB 47)
           (inl (mkParsed None sampleLog)) (Some (mkMeta None None None))).
  vm_compute. reflexivity.
Defined.

(** Thirty-two sessions, the first page prefetched.  End selects the
    last item and awaits its preview; the right arrow turns the page
    meanwhile.  When the preview of the old item arrives, it is stored
    and shown, although the first item of the new page is selected, and
    the handler goes on with loadMeta(29) and loadMeta(28) on a page of
    two items: both raise. *)
Example nav_load_meets_a_shorter_page :
  endPressed32.2 = Some (29, Some (mkPending 29 (fileNo 29) 47))
  ∧ pageItems pageTurnedMeanwhile32 = [fileNo 30; fileNo 31]
  ∧ selectedFile pageTurnedMeanwhile32 = Some (fileNo 30)
  ∧ faults pageTurnedMeanwhile32 = []
  ∧ (let s := settlePreview columns clock sgrHex sampleOpts sampleWorld
                (pageTurnedMeanwhile32, Some (mkPending 29 (fileNo 29) 47)) in
     faults s = []
     ∧ faults (onNavKeyRest sampleWorld 29 s)
       = [UndefinedFile "loadMeta"; UndefinedFile "loadMeta"]).
Proof.
  split; [vm_compute; reflexivity|].
  split; [vm_compute; reflexivity|].
  split; [vm_compute; reflexivity|].
  split; [vm_compute; reflexivity|].
  cbv zeta. split; vm_compute; reflexivity.
Qed.

(** X12. As long as the screen is alive, the list is in order after
    every event: the page shown is the slice of the visible files that
    the page number designates, it holds between 1 and 30 items, each
    has its row, and the selection points at one of them. *)
Theorem picker_page_stays_in_order
    (stringWidth : jsstring → nat) (fmtTime : Z → jsstring)
    (chalkHex : jsstring → jsstring → text) (opts : Options)
    (w0 : World) (files : list SessionFile) (width : Z) (s0 : State)
    (evs : list (World * Event))
    (Hstart : startPicker stringWidth fmtTime chalkHex opts w0 files width = Some s0)
    (Halive : destroyed (run stringWidth fmtTime chalkHex opts evs s0) = false) :
  let s := run stringWidth fmtTime chalkHex opts evs s0 in
  0 ≤ currentPage s
  ∧ pageItems s = pageOf s
  ∧ 1 ≤ lengthZ (pageItems s) ≤ ITEMS_PER_PAGE
  ∧ (∀ f, f ∈ pageItems s → f ∈ visibleFiles s)
  ∧ length (itemBoxes s) = length (pageItems s)
  ∧ selectionValid s
  ∧ is_Some (selectedFile s)
  ∧ resolved s = None.
Proof.
  intros s.
  destruct (startPicker_invariant stringWidth fmtTime chalkHex opts
              w0 files width s0 Hstart) as [Hf Hc].
  destruct (run_invariant stringWidth fmtTime chalkHex opts evs s0) as [_ Hs];
    [split; [exact Hf|right; exact Hc]|].
  fold s in Hs, Halive.
  destruct Hs as [[He _]|Hs]; [congruence|].
  pose proof (pageConsistent_selected s Hs) as Hsel.
  destruct Hs as (_ & Hr & Hcp & Hlt & Hpi & Hrows & Hvalid & _).
  pose proof (length_pageOf s Hcp Hlt) as Hlen.
  split; [exact Hcp|]. split; [exact Hpi|].
  split; [rewrite Hpi; exact Hlen|].
  split; [intros f Hin; rewrite Hpi in Hin; apply jsSlice_subset in Hin; exact Hin|].
  split; [exact Hrows|]. split; [exact Hvalid|]. split; [exact Hsel|exact Hr].
Qed.

Lemma picker_page_stays_in_order_witness :
  let s := run columns clock sgrHex sampleOpts
             (presses sampleWorld [KRight; KNav KDown; KD; KY]) started32 in
  0 ≤ currentPage s
  ∧ pageItems s = pageOf s
  ∧ 1 ≤ lengthZ (pageItems s) ≤ ITEMS_PER_PAGE
  ∧ (∀ f, f ∈ pageItems s → f ∈ visibleFiles s)
  ∧ length (itemBoxes s) = length (pageItems s)
  ∧ selectionValid s
  ∧ is_Some (selectedFile s)
  ∧ resolved s = None.
Proof.
  apply (picker_page_stays_in_order columns clock sgrHex sampleOpts
           sampleWorld files32 80 started32).
  - vm_compute. reflexivity.
  - vm_compute. reflexivity.
Defined.

(** X13. The screen is destroyed exactly when the promise of the picker
    is settled, and from then on no event changes the value it was
    settled with. *)
Theorem picker_settles_once
    (stringWidth : jsstring → nat) (fmtTime : Z → jsstring)
    (chalkHex : jsstring → jsstring → text) (opts : Options)
    (w0 : World) (files : list SessionFile) (width : Z) (s0 : State)
    (evs : list (World * Event))
    (Hstart : startPicker stringWidth fmtTime chalkHex opts w0 files width = Some s0) :
  let s := run stringWidth fmtTime chalkHex opts evs s0 in
  (destroyed s = true ↔ is_Some (resolved s))
  ∧ (∀ more : list (World * Event),
       is_Some (resolved s) →
       resolved (run stringWidth fmtTime chalkHex opts more s) = resolved s
       ∧ destroyed (run stringWidth fmtTime chalkHex opts more s) = true).
Proof.
  intros s.
  destruct (startPicker_invariant stringWidth fmtTime chalkHex opts
              w0 files width s0 Hstart) as [Hf Hc].
  destruct (run_invariant stringWidth fmtTime chalkHex opts evs s0) as [_ Hs];
    [split; [exact Hf|right; exact Hc]|].
  fold s in Hs.
  assert (Hiff : destroyed s = true ↔ is_Some (resolved s)).
  { destruct Hs as [[Hd Hr]|(Hd & Hr & _)].
    - split; intros _; assumption.
    - rewrite Hd, Hr. split; [discriminate|]. intros [v Hv]. discriminate. }
  split; [exact Hiff|].
  intros more Hres. apply Hiff in Hres.
  destruct (run_destroyed stringWidth fmtTime chalkHex opts more s Hres)
    as (Hd & Hr & _).
  split; assumption.
Qed.

Lemma picker_settles_once_witness :
  let s := run columns clock sgrHex sampleOpts
             (presses sampleWorld [KNav KDown; KEnter]) startedABC in
  (destroyed s = true ↔ is_Some (resolved s))
  ∧ (∀ more : list (World * Event),
       is_Some (resolved s) →
       resolved (run columns clock sgrHex sampleOpts more s) = resolved s
       ∧ destroyed (run columns clock sgrHex sampleOpts more s) = true).
Proof.
  apply (picker_settles_once columns clock sgrHex sampleOpts
           sampleWorld [fileA; fileB; fileC] 80 startedABC).
  vm_compute. reflexivity.
Defined.

(** * More about deleting *)

Lemma afterDelete_page (s : State) :
  currentPage (afterDelete s) = currentPage s
  ∧ visibleFiles (afterDelete s) = visibleFiles s
  ∧ pageItems (afterDelete s) = pageItems s.
Proof.
  unfold afterDelete, resolve.
  repeat case_match; repeat split; reflexivity.
Qed.

Lemma redraw_page
    (stringWidth : jsstring → nat) (fmtTime : Z → jsstring)
    (chalkHex : jsstring → jsstring → text) (opts : Options)
    (w : World) (n n' : Z) (s : State) :
  let s' := afterDelete
              (updatePreviewForIndex stringWidth fmtTime chalkHex opts w n'
                 (setSelectedIndex n (updatePageItems s))) in
  currentPage s' = currentPage s ∧ visibleFiles s' = visibleFiles s
  ∧ pageItems s' = pageOf s.
Proof.
  intros s'. subst s'.
  destruct (afterDelete_page
              (updatePreviewForIndex stringWidth fmtTime chalkHex opts w n'
                 (setSelectedIndex n (updatePageItems s)))) as (-> & -> & ->).
  pose proof (skeleton_fields _ _
                (skeleton_updatePreviewForIndex stringWidth fmtTime chalkHex opts
                   w n' (setSelectedIndex n (updatePageItems s)))) as Hk.
  destruct Hk as (-> & -> & -> & _).
  pose proof (core_fields _ _ (updatePageItems_core s)) as Hc.
  destruct Hc as (Hv & Hcp & Hpi & _).
  assert (Hsel : ∀ t, currentPage (setSelectedIndex n t) = currentPage t
                      ∧ visibleFiles (setSelectedIndex n t) = visibleFiles t
                      ∧ pageItems (setSelectedIndex n t) = pageItems t).
  { intros t. unfold setSelectedIndex. case_match; repeat split; reflexivity. }
  destruct (Hsel (updatePageItems s)) as (-> & -> & ->).
  rewrite Hv, Hcp, Hpi. repeat split; reflexivity.
Qed.

(** X14. After a confirmed deletion that leaves files, the page number
    is clamped to the last page that still has items, and the page
    shown is that page of what is left: deleting the only item of the
    last page shows the page before it. *)
Theorem confirmed_delete_clamps_the_page
    (stringWidth : jsstring → nat) (fmtTime : Z → jsstring)
    (chalkHex : jsstring → jsstring → text) (opts : Options)
    (w : World) (k : Key) (f : SessionFile) (selected : Z)
    (below : list Overlay) (s : State)
    (Hconfirming : confirming f selected below s)
    (Hyes : confirmsYes k selected)
    (Hunlink : unlink w (path f) = None)
    (Hrest : without f (visibleFiles s) ≠ [])
    (Hpage : 0 ≤ currentPage s) :
  let s' := step stringWidth fmtTime chalkHex opts w (Press k) s in
  visibleFiles s' = without f (visibleFiles s)
  ∧ currentPage s'
    = Z.min (currentPage s)
            (ceilDiv (lengthZ (without f (visibleFiles s))) ITEMS_PER_PAGE - 1)
  ∧ pageItems s' = pageOf s'
  ∧ 1 ≤ lengthZ (pageItems s') ≤ ITEMS_PER_PAGE.
Proof.
  intros s'. subst s'.
  rewrite (step_confirm_yes stringWidth fmtTime chalkHex opts w k f selected below s
             Hconfirming Hyes).
  unfold finish, deleteConfirmed. cbv zeta. simpl negb. cbv iota.
  change (unlink w (path f) = None) in Hunlink. rewrite Hunlink.
  set (s2 := set_visibleFiles _ (purgeCaches (path f) _)).
  change (visibleFiles s2) with (without f (visibleFiles s)).
  change (currentPage s2) with (currentPage s).
  set (rest := without f (visibleFiles s)) in *.
  assert (Hlen : 1 ≤ lengthZ rest)
    by (unfold lengthZ; destruct rest; [congruence|simpl; lia]).
  assert (Hne : isEmpty rest = false) by (destruct rest; [congruence|reflexivity]).
  rewrite Hne.
  set (totalPages := Z.max 1 (ceilDiv (lengthZ rest) ITEMS_PER_PAGE)).
  assert (Htp : totalPages = ceilDiv (lengthZ rest) ITEMS_PER_PAGE).
  { subst totalPages. unfold ceilDiv, ITEMS_PER_PAGE.
    pose proof (Z.div_mod (lengthZ rest + 30 - 1) 30 ltac:(lia)).
    pose proof (Z.mod_pos_bound (lengthZ rest + 30 - 1) 30 ltac:(lia)). lia. }
  pose proof (ceilDiv_pages (lengthZ rest) Hlen) as Hpages. fold totalPages in Hpages.
  set (s3 := if currentPage s >=? totalPages then _ else s2).
  assert (H3 : visibleFiles s3 = rest
               ∧ currentPage s3 = Z.min (currentPage s) (totalPages - 1)).
  { subst s3. destruct (Z.geb_spec (currentPage s) totalPages); simpl;
      (split; [reflexivity|lia]). }
  clearbody s3. destruct H3 as [Hv3 Hcp3].
  match goal with
  | |- context [updatePreviewForIndex _ _ _ _ w ?n' (setSelectedIndex ?n _)] =>
      destruct (redraw_page stringWidth fmtTime chalkHex opts w n n' s3)
        as (Hcp & Hv & Hpi);
      set (s6 := afterDelete (updatePreviewForIndex stringWidth fmtTime chalkHex opts
                                w n' (setSelectedIndex n (updatePageItems s3)))) in *
  end.
  clearbody s6.
  assert (Hsame : pageOf s6 = pageOf s3) by (unfold pageOf; rewrite Hcp, Hv; reflexivity).
  rewrite Hv, Hcp, Hpi, Hsame, Hv3, Hcp3, <- Htp.
  split; [reflexivity|]. split; [reflexivity|]. split; [reflexivity|].
  apply length_pageOf; rewrite ?Hv3, Hcp3; unfold ITEMS_PER_PAGE in *; lia.
Qed.

Lemma confirmed_delete_clamps_the_page_witness :
  let s' := step columns clock sgrHex sampleOpts sampleWorld (Press KY)
              confirmingLast31 in
  visibleFiles s' = without (fileNo 30) (visibleFiles confirmingLast31)
  ∧ currentPage s'
    = Z.min (currentPage confirmingLast31)
            (ceilDiv (lengthZ (without (fileNo 30) (visibleFiles confirmingLast31)))
               ITEMS_PER_PAGE - 1)
  ∧ pageItems s' = pageOf s'
  ∧ 1 ≤ lengthZ (pageItems s') ≤ ITEMS_PER_PAGE.
Proof.
  apply (confirmed_delete_clamps_the_page columns clock sgrHex sampleOpts
           sampleWorld KY (fileNo 30) 1 [] confirmingLast31).
  - vm_compute. repeat split. eexists. reflexivity.
  - left. reflexivity.
  - reflexivity.
  - vm_compute. discriminate.
  - vm_compute. discriminate.
Defined.

(** The page the witness starts on is the second, and the deletion
    leaves the first. *)
Example delete_last_of_31_example :
  currentPage confirmingLast31 = 1
  ∧ pageItems confirmingLast31 = [fileNo 30]
  ∧ (let s' := step columns clock sgrHex sampleOpts sampleWorld (Press KY)
                 confirmingLast31 in
     currentPage s' = 0 ∧ lengthZ (pageItems s') = 30 ∧ selectedIndex s' = 0).
Proof.
  split; [vm_compute; reflexivity|]. split; [vm_compute; reflexivity|].
  cbv zeta. split; [vm_compute; reflexivity|]. split; vm_compute; reflexivity.
Qed.

(** X15. The confirmation dialog opens on 'No'.  When the metadata of
    the selected file is cached, so that 'd' opens the dialog without
    waiting for anything, pressing 'd' and then Enter deletes nothing,
    whatever unlink would have done, and leaves the list, the page, the
    selection, the overlays and the three caches as they were. *)
Theorem delete_then_enter_keeps_the_file
    (stringWidth : jsstring → nat) (fmtTime : Z → jsstring)
    (chalkHex : jsstring → jsstring → text) (opts : Options)
    (w1 w2 : World) (s : State) (f : SessionFile)
    (Hmodal : modalActive s = false) (Halive : destroyed s = false)
    (Hselected : selectedFile s = Some f)
    (Hcached : is_Some (metaCache s !! path f))
    (Hfiles : visibleFiles s ≠ []) :
  let asked := step stringWidth fmtTime chalkHex opts w1 (Press KD) s in
  let s' := step stringWidth fmtTime chalkHex opts w2 (Press KEnter) asked in
  confirming f 1 (overlays s) asked
  ∧ visibleFiles s' = visibleFiles s ∧ pageItems s' = pageItems s
  ∧ currentPage s' = currentPage s ∧ selectedIndex s' = selectedIndex s
  ∧ overlays s' = overlays s ∧ modalActive s' = false ∧ destroyed s' = false
  ∧ resolved s' = resolved s
  ∧ msgSummaryCache s' = msgSummaryCache s ∧ previewCache s' = previewCache s
  ∧ metaCache s' = metaCache s.
Proof.
  intros asked s'.
  destruct (request_delete_opens_dialog stringWidth fmtTime chalkHex opts w1 s f
              Hmodal Halive Hselected)
    as (Hconf & Hv & Hpi & Hcp & Hsel & Hsum & Hprev & Hres & Hmeta).
  fold asked in Hconf, Hv, Hpi, Hcp, Hsel, Hsum, Hprev, Hres, Hmeta.
  destruct Hcached as [m Hm]. rewrite Hm in Hmeta.
  assert (Hs' : s' = set_modalActive false (set_overlays (overlays s) asked)).
  { subst s'.
    rewrite (step_confirm_no stringWidth fmtTime chalkHex opts w2 KEnter f 1
               (overlays s) asked Hconf).
    - apply finish_declined. rewrite Hv. exact Hfiles.
    - right. right. right. split; [reflexivity|lia]. }
  clearbody asked s'. subst s'. simpl.
  split; [exact Hconf|]. destruct Hconf as (_ & _ & Hd).
  repeat split; first [assumption | reflexivity].
Qed.

Lemma delete_then_enter_keeps_the_file_witness :
  let asked := step columns clock sgrHex sampleOpts readOnlyWorld (Press KD) startedABC in
  let s' := step columns clock sgrHex sampleOpts sampleWorld (Press KEnter) asked in
  confirming fileA 1 (overlays startedABC) asked
  ∧ visibleFiles s' = visibleFiles startedABC ∧ pageItems s' = pageItems startedABC
  ∧ currentPage s' = currentPage startedABC
  ∧ selectedIndex s' = selectedIndex startedABC
  ∧ overlays s' = overlays startedABC ∧ modalActive s' = false ∧ destroyed s' = false
  ∧ resolved s' = resolved startedABC
  ∧ msgSummaryCache s' = msgSummaryCache startedABC
  ∧ previewCache s' = previewCache startedABC
  ∧ metaCache s' = metaCache startedABC.
Proof.
  apply (delete_then_enter_keeps_the_file columns clock sgrHex sampleOpts
           readOnlyWorld sampleWorld startedABC fileA).
  - vm_compute. reflexivity.
  - vm_compute. reflexivity.
  - vm_compute. reflexivity.
  - vm_compute. eexists. reflexivity.
  - vm_compute. discriminate.
Defined.

(** * More about the caches *)

Lemma startsWith_prefix (p s : jsstring) :
  startsWith p s = true ↔ ∃ r, s = p ++ r.
Proof.
  revert s. induction p as [|a p IH]; intros s; simpl.
  - split; [intros _; exists s; reflexivity|reflexivity].
  - destruct s as [|b s].
    + split; [discriminate|intros [r Hr]; discriminate].
    + destruct (decide (a = b)) as [->|Hne].
      * rewrite IH. split; intros [r Hr]; exists r; [rewrite Hr; reflexivity|].
        injection Hr as Hr. exact Hr.
      * split; [discriminate|]. intros [r Hr]. injection Hr as Hab _. congruence.
Qed.

(** Which preview keys start with the prefix a deletion of [p] purges. *)
Lemma purged_keys (p g : jsstring) (width : Z) :
  startsWith (p ++ lit "::") (previewKey g width) = true
  ↔ g = p ∨ g = p ++ [COLON] ∨ startsWith (p ++ lit "::") g = true.
Proof.
  change (lit "::") with [COLON; COLON]. unfold previewKey.
  change (lit "::") with [COLON; COLON].
  pose proof (showZ_no_colon width) as Hd.
  set (d := showZ width) in *. clearbody d.
  rewrite !startsWith_prefix. split.
  - intros [r Hr].
    apply app_eq_app in Hr as [x [[Hg Hx]|[Hp Hx]]].
    + (* g = (p ++ "::") ++ x *)
      right. right. exists x. exact Hg.
    + (* p ++ "::" = g ++ x *)
      apply app_eq_app in Hp as [y [[Hp Hy]|[Hg Hy]]].
      * (* p = g ++ y, x = y ++ "::" *)
        destruct y as [|c y].
        -- left. rewrite app_nil_r in Hp. congruence.
        -- exfalso. subst x. simpl in Hx. injection Hx as Hc Hx.
           destruct y as [|c' y]; simpl in Hx.
           ++ injection Hx as Hx. subst d. apply Hd. left.
           ++ injection Hx as Hc' Hx. subst d. apply Hd.
              apply elem_of_app. left. apply elem_of_app. right. left.
      * (* g = p ++ y, "::" = y ++ x *)
        destruct y as [|c y]; [left; rewrite app_nil_r in Hg; exact Hg|].
        simpl in Hy. injection Hy as Hc Hy. subst c.
        destruct y as [|c y]; [right; left; exact Hg|].
        simpl in Hy. injection Hy as Hc Hy. subst c.
        destruct y; [|discriminate].
        right. right. exists []. rewrite app_nil_r. exact Hg.
  - intros [->|[->|[r ->]]].
    + exists d. rewrite <- app_assoc. reflexivity.
    + exists (COLON :: d). rewrite <- !app_assoc. reflexivity.
    + exists (r ++ [COLON; COLON] ++ d). rewrite <- !app_assoc. reflexivity.
Qed.

(** X16. Deleting the session at path [p] purges the previews by key
    prefix: it drops the cached previews, at every width, of [p], of
    the path [p] followed by a colon, and of every path that starts
    with [p] followed by two colons, and no other; the metadata and
    the summary of any other path stay. *)
Theorem purge_drops_previews_by_key_prefix (p g : jsstring) (width : Z) (s : State) :
  previewCache (purgeCaches p s) !! previewKey g width
  = (if bool_decide (g = p ∨ g = p ++ [COLON]
                     ∨ startsWith (p ++ lit "::") g = true)
     then None
     else previewCache s !! previewKey g width)
  ∧ metaCache (purgeCaches p s) !! g
    = (if bool_decide (g = p) then None else metaCache s !! g)
  ∧ msgSummaryCache (purgeCaches p s) !! g
    = (if bool_decide (g = p) then None else msgSummaryCache s !! g).
Proof.
  unfold purgeCaches. simpl. split; [|split].
  - destruct (decide (g = p ∨ g = p ++ [COLON] ∨ startsWith (p ++ lit "::") g = true))
      as [Hyes|Hno].
    + rewrite bool_decide_eq_true_2 by assumption.
      apply map_lookup_filter_None. right. intros body _. simpl.
      apply (purged_keys p g width) in Hyes. rewrite Hyes. discriminate.
    + rewrite bool_decide_eq_false_2 by assumption.
      destruct (previewCache s !! previewKey g width) as [body|] eqn:E.
      * apply map_lookup_filter_Some. split; [exact E|]. simpl.
        destruct (startsWith (p ++ lit "::") (previewKey g width)) eqn:Hs;
          [|reflexivity].
        exfalso. apply Hno. apply (purged_keys p g width). exact Hs.
      * apply map_lookup_filter_None. left. exact E.
  - destruct (decide (g = p)) as [->|Hne].
    + rewrite bool_decide_eq_true_2 by reflexivity. apply lookup_delete_eq.
    + rewrite bool_decide_eq_false_2 by assumption. apply lookup_delete_ne. congruence.
  - destruct (decide (g = p)) as [->|Hne].
    + rewrite bool_decide_eq_true_2 by reflexivity. apply lookup_delete_eq.
    + rewrite bool_decide_eq_false_2 by assumption. apply lookup_delete_ne. congruence.
Qed.

(** A preview found in the cache is shown as it is: nothing is parsed
    and no cache is written. *)
Lemma updatePreview_hit_state
    (stringWidth : jsstring → nat) (fmtTime : Z → jsstring)
    (chalkHex : jsstring → jsstring → text) (opts : Options)
    (w : World) (idx : Z) (s : State) (f : SessionFile) (body : text) :
  nthZ (pageItems s) idx = Some f →
  previewCache s !! previewKey (path f) (getPreviewInnerWidth s) = Some body →
  let s' := updatePreviewForIndex stringWidth fmtTime chalkHex opts w idx s in
  previewContent s' = body ∧ previewCache s' = previewCache s
  ∧ msgSummaryCache s' = msgSummaryCache s ∧ metaCache s' = metaCache s
  ∧ itemBoxes s' = itemBoxes s.
Proof.
  intros Hf Hhit. pose proof (nthZ_Some _ _ _ Hf) as [Hlo Hhi].
  unfold updatePreviewForIndex.
  destruct (Z.ltb_spec idx 0); [lia|].
  destruct (Z.geb_spec idx (lengthZ (pageItems s))); [lia|].
  simpl orb. cbv iota. rewrite Hf. cbv zeta.
  change (getPreviewInnerWidth (logRead MetaCache (path f) s))
    with (getPreviewInnerWidth s).
  change (previewCache (logRead MetaCache (path f) s)) with (previewCache s).
  rewrite Hhit. repeat split; reflexivity.
Qed.

(** X17. A preview is loaded once: after the preview of a page item has
    been shown at some width, showing it again at that width gives the
    same text and writes no cache, whatever the session file holds by
    then, even if it can no longer be parsed. *)
Theorem preview_is_served_from_the_cache
    (stringWidth : jsstring → nat) (fmtTime : Z → jsstring)
    (chalkHex : jsstring → jsstring → text) (opts : Options)
    (w1 w2 : World) (idx : Z) (s : State) (f : SessionFile) (parsed : Parsed)
    (Hitem : nthZ (pageItems s) idx = Some f)
    (Hparsed : parseSessionFile w1 (path f) = inl parsed)
    (Halive : destroyed s = false) :
  let s1 := updatePreviewForIndex stringWidth fmtTime chalkHex opts w1 idx s in
  let s2 := updatePreviewForIndex stringWidth fmtTime chalkHex opts w2 idx s1 in
  previewCache s1 !! previewKey (path f) (getPreviewInnerWidth s)
  = Some (previewContent s1)
  ∧ previewContent s2 = previewContent s1
  ∧ previewCache s2 = previewCache s1
  ∧ msgSummaryCache s2 = msgSummaryCache s1
  ∧ metaCache s2 = metaCache s1.
Proof.
  intros s1 s2.
  pose proof (skeleton_fields _ _
                (skeleton_updatePreviewForIndex stringWidth fmtTime chalkHex opts
                   w1 idx s)) as Hk.
  fold s1 in Hk.
  destruct Hk as (_ & _ & Hpi & _ & _ & Hfv & _ & _ & _ & _ & _ & _ & _ & _
                  & Hlw & _ & Hsw).
  assert (Hwidth : getPreviewInnerWidth s1 = getPreviewInnerWidth s)
    by (unfold getPreviewInnerWidth; rewrite Hfv, Hlw, Hsw; reflexivity).
  assert (Hcached : previewCache s1 !! previewKey (path f) (getPreviewInnerWidth s)
                    = Some (previewContent s1)).
  { destruct (previewCache s !! previewKey (path f) (getPreviewInnerWidth s))
      as [body|] eqn:Hlook.
    - destruct (updatePreview_hit_state stringWidth fmtTime chalkHex opts
                  w1 idx s f body Hitem Hlook) as (Hc & Hp & _).
      fold s1 in Hc, Hp. rewrite Hc, Hp. exact Hlook.
    - destruct (updatePreview_miss stringWidth fmtTime chalkHex opts
                  w1 idx s f parsed Hitem Hlook Hparsed Halive) as (Hc & Hp).
      fold s1 in Hc, Hp. rewrite Hc. exact Hp. }
  split; [exact Hcached|].
  assert (Hitem1 : nthZ (pageItems s1) idx = Some f) by (rewrite Hpi; exact Hitem).
  rewrite <- Hwidth in Hcached.
  destruct (updatePreview_hit_state stringWidth fmtTime chalkHex opts
              w2 idx s1 f (previewContent s1) Hitem1 Hcached) as (Hc & Hp & Hs & Hm & _).
  repeat split; assumption.
Qed.

Lemma preview_is_served_from_the_cache_witness :
  let s1 := updatePreviewForIndex columns clock sgrHex sampleOpts sampleWorld 1
              startedABC in
  let s2 := updatePreviewForIndex columns clock sgrHex sampleOpts
              (mkWorld (fun _ => None) (fun _ => inr (lit "ENOENT")) (fun _ => None))
              1 s1 in
  previewCache s1 !! previewKey (path fileB) (getPreviewInnerWidth startedABC)
  = Some (previewContent s1)
  ∧ previewContent s2 = previewContent s1
  ∧ previewCache s2 = previewCache s1
  ∧ msgSummaryCache s2 = msgSummaryCache s1
  ∧ metaCache s2 = metaCache s1.
Proof.
  apply (preview_is_served_from_the_cache columns clock sgrHex sampleOpts
           sampleWorld
           (mkWorld (fun _ => None) (fun _ => inr (lit "ENOENT")) (fun _ => None))
           1 startedABC fileB (mkParsed None sampleLog)).
  - vm_compute. reflexivity.
  - reflexivity.
  - vm_compute. reflexivity.
Defined.

(** * The options typed in the edit box *)

(** X18. What is submitted in the edit box is what the picker hands
    over: after '-' and a submit of [val] the overlays are as before
    and Enter resolves with Resume of the selected file and [val],
    'n' with StartNew and [val]. *)
Theorem submitted_options_reach_the_action
    (stringWidth : jsstring → nat) (fmtTime : Z → jsstring)
    (chalkHex : jsstring → jsstring → text) (opts : Options)
    (w1 w2 w3 : World) (s : State) (f : SessionFile) (val : jsstring)
    (Hmodal : modalActive s = false) (Halive : destroyed s = false)
    (Hpending : resolved s = None) (Hnone : overlays s = [])
    (Hselected : selectedFile s = Some f) :
  let edited := run stringWidth fmtTime chalkHex opts
                  [(w1, Press KMinus); (w2, Submit val)] s in
  edited = set_editedArgs val s
  ∧ terminated (Some (Resume (path f) val))
      (step stringWidth fmtTime chalkHex opts w3 (Press KEnter) edited)
  ∧ terminated (Some (StartNew (extractSessionMetaQuick w3 (path f) ≫= metaCwd) val))
      (step stringWidth fmtTime chalkHex opts w3 (Press KN) edited).
Proof.
  intros edited.
  assert (He : edited = set_editedArgs val s).
  { subst edited. simpl. rewrite Halive. unfold press. simpl. rewrite Hmodal.
    unfold askEditOptions, overlayKey. simpl. rewrite Halive.
    unfold inputSubmit. simpl. rewrite Hnone.
    destruct s; simpl in *; subst; reflexivity. }
  clearbody edited. subst edited. split; [reflexivity|].
  unfold terminated. simpl. rewrite Halive. unfold press. simpl.
  unfold onEnter, onStartNew. simpl. rewrite Hmodal.
  change (selectedFile (set_destroyed true (set_editedArgs val s)))
    with (selectedFile s).
  change (selectedFile (set_editedArgs val s)) with (selectedFile s).
  rewrite Hselected. unfold resolve, overlayKey. simpl. rewrite Hpending. simpl.
  rewrite Hnone. simpl. repeat split; reflexivity.
Qed.

Lemma submitted_options_reach_the_action_witness :
  let edited := run columns clock sgrHex sampleOpts
                  [(sampleWorld, Press KMinus); (sampleWorld, Submit (lit "--model o3"))]
                  startedABC in
  edited = set_editedArgs (lit "--model o3") startedABC
  ∧ terminated (Some (Resume (path fileA) (lit "--model o3")))
      (step columns clock sgrHex sampleOpts sampleWorld (Press KEnter) edited)
  ∧ terminated
      (Some (StartNew (extractSessionMetaQuick sampleWorld (path fileA) ≫= metaCwd)
               (lit "--model o3")))
      (step columns clock sgrHex sampleOpts sampleWorld (Press KN) edited).
Proof.
  apply (submitted_options_reach_the_action columns clock sgrHex sampleOpts
           sampleWorld sampleWorld sampleWorld startedABC fileA (lit "--model o3")).
  - vm_compute. reflexivity.
  - vm_compute. reflexivity.
  - vm_compute. reflexivity.
  - vm_compute. reflexivity.
  - vm_compute. reflexivity.
Defined.

(** * The metadata prefetch *)

Lemma metaCache_loadMeta_mono (w : World) (i : Z) (s : State) (p : jsstring) :
  is_Some (metaCache s !! p) → is_Some (metaCache (loadMeta w i s) !! p).
Proof.
  intros Hp. unfold loadMeta, refreshListRow.
  repeat case_match; simpl; rewrite ?metaCache_updateItemBox; simpl;
    try assumption; rewrite lookup_insert_is_Some'; tauto.
Qed.

Lemma metaCache_loadMeta_item (w : World) (i : Z) (s : State) (f : SessionFile) :
  metaReadable w → nthZ (pageItems s) i = Some f →
  is_Some (metaCache (loadMeta w i s) !! path f).
Proof.
  intros Hw Hf. unfold loadMeta, refreshListRow. rewrite Hf.
  destruct (Hw (path f)) as [m Hm].
  change (metaCache (logRead MetaCache (path f) s)) with (metaCache s).
  destruct (decide (is_Some (metaCache s !! path f))) as [Hc|Hc].
  - rewrite bool_decide_eq_true_2 by assumption. exact Hc.
  - rewrite bool_decide_eq_false_2 by assumption. rewrite Hm.
    repeat case_match; simpl; rewrite ?metaCache_updateItemBox; simpl;
      rewrite lookup_insert_is_Some'; tauto.
Qed.

Lemma metaCache_loadSummary (w : World) (i : Z) (s : State) :
  metaCache (loadSummary w i s) = metaCache s.
Proof.
  unfold loadSummary.
  repeat case_match; simpl; rewrite ?metaCache_updateItemBox; reflexivity.
Qed.

Lemma prefetching_ext (s s' : State) :
  destroyed s' = destroyed s → idxLoad s' = idxLoad s →
  pageItems s' = pageItems s → metaWorkers s' = metaWorkers s →
  metaCache s' = metaCache s →
  prefetching s → prefetching s'.
Proof. unfold prefetching. intros -> -> -> -> ->. tauto. Qed.

Lemma turnsLeft_ext (s s' : State) :
  idxLoad s' = idxLoad s → pageItems s' = pageItems s →
  metaWorkers s' = metaWorkers s → turnsLeft s' = turnsLeft s.
Proof. unfold turnsLeft. intros -> -> ->. reflexivity. Qed.

(** A turn of a metadata worker, while the prefetch is on its way. *)
Lemma prefetching_turn (w : World) (s : State) :
  metaReadable w → prefetching s →
  prefetching (metaWorkerTurn w s)
  ∧ pageItems (metaWorkerTurn w s) = pageItems s
  ∧ turnsLeft (metaWorkerTurn w s) = pred (turnsLeft s)
  ∧ ∀ p, is_Some (metaCache s !! p) → is_Some (metaCache (metaWorkerTurn w s) !! p).
Proof.
  intros Hw (Hd & Hidx & Hlive & Hdone). unfold metaWorkerTurn.
  destruct (metaWorkers s) as [|n] eqn:Hn.
  { assert (Hend : lengthZ (pageItems s) ≤ idxLoad s).
    { destruct (Z.le_gt_cases (lengthZ (pageItems s)) (idxLoad s)) as [H|H]; [exact H|].
      exfalso. apply (Hlive H). reflexivity. }
    split; [unfold prefetching; rewrite Hn; repeat split; assumption|].
    split; [reflexivity|]. split; [|intros p Hp; exact Hp].
    unfold turnsLeft. rewrite Hn. lia. }
  rewrite Hd. simpl negb. rewrite andb_true_r.
  destruct (Z.ltb_spec (idxLoad s) (lengthZ (pageItems s))) as [Hlt|Hge].
  - set (s1 := set_idxLoad (idxLoad s + 1) s).
    pose proof (skeleton_fields _ _ (skeleton_loadMeta w (idxLoad s) s1)) as Hk.
    destruct Hk as (_ & _ & Hpi & _ & Hd' & _ & _ & _ & Hil & _ & Hmw & _).
    simpl in Hpi, Hd', Hil, Hmw.
    split; [|split; [exact Hpi|split]].
    + unfold prefetching. rewrite Hd', Hil, Hpi, Hmw.
      split; [exact Hd|]. split; [lia|]. split; [intros _; rewrite Hn; discriminate|].
      intros i f Hi Hf.
      destruct (decide (i = idxLoad s)) as [->|Hne].
      * apply metaCache_loadMeta_item; [exact Hw|exact Hf].
      * apply metaCache_loadMeta_mono. apply (Hdone i f); [lia|exact Hf].
    + unfold turnsLeft. rewrite Hpi, Hil, Hmw, Hn. lia.
    + intros p Hp. apply metaCache_loadMeta_mono. exact Hp.
  - split; [|split; [reflexivity|split; [|intros p Hp; exact Hp]]].
    + unfold prefetching. simpl. split; [exact Hd|]. split; [exact Hidx|].
      split; [lia|exact Hdone].
    + unfold turnsLeft. simpl. rewrite Hn. lia.
Qed.

Lemma prefetching_done (s : State) :
  prefetching s → turnsLeft s = 0%nat →
  metaWorkers s = 0%nat
  ∧ ∀ f, f ∈ pageItems s → is_Some (metaCache s !! path f).
Proof.
  intros (_ & Hidx & _ & Hdone) Hleft. unfold turnsLeft in Hleft.
  split; [lia|]. intros f Hin.
  apply list_elem_of_lookup in Hin as [i Hi].
  apply (Hdone (Z.of_nat i) f).
  - apply lookup_lt_Some in Hi. unfold lengthZ in *. lia.
  - unfold nthZ. destruct (Z.ltb_spec (Z.of_nat i) 0); [lia|].
    rewrite Nat2Z.id. exact Hi.
Qed.

Lemma setSelectedIndex_prefetch (i : Z) (s : State) :
  destroyed (setSelectedIndex i s) = destroyed s
  ∧ idxLoad (setSelectedIndex i s) = idxLoad s
  ∧ pageItems (setSelectedIndex i s) = pageItems s
  ∧ metaWorkers (setSelectedIndex i s) = metaWorkers s
  ∧ metaCache (setSelectedIndex i s) = metaCache s.
Proof.
  unfold setSelectedIndex.
  destruct ((i <? 0) || (i >=? lengthZ (pageItems s))); repeat split; reflexivity.
Qed.

Lemma applyLayout_prefetch (s : State) :
  destroyed (applyLayout s) = destroyed s ∧ idxLoad (applyLayout s) = idxLoad s
  ∧ pageItems (applyLayout s) = pageItems s
  ∧ metaWorkers (applyLayout s) = metaWorkers s
  ∧ metaCache (applyLayout s) = metaCache s.
Proof.
  unfold applyLayout. cbv zeta.
  set (s1 := set_totalW _ s).
  set (s2 := if fullView s1 then s1 else set_leftW _ s1).
  assert (H2 : destroyed s2 = destroyed s ∧ idxLoad s2 = idxLoad s
               ∧ pageItems s2 = pageItems s ∧ metaWorkers s2 = metaWorkers s
               ∧ metaCache s2 = metaCache s).
  { subst s2. destruct (fullView s1); repeat split; reflexivity. }
  clearbody s2. clear s1. destruct H2 as (<- & <- & <- & <- & <-).
  pose proof (core_fields _ _ (core_updateBoxesFrom (length (itemBoxes s2)) 0 s2)) as Hc.
  pose proof (core_geometry _ _ (core_updateBoxesFrom (length (itemBoxes s2)) 0 s2)) as Hg.
  destruct Hc as (_ & _ & Hpi & _ & Hmc & _ & _ & _ & Hd & _).
  destruct Hg as (_ & _ & _ & _ & Hil & _ & Hmw & _).
  repeat split; assumption.
Qed.

Section Prefetch.

Variable stringWidth : jsstring -> nat.
Variable fmtTime : Z -> jsstring.
Variable chalkHex : jsstring -> jsstring -> text.
Variable opts : Options.

Lemma prefetching_run (ws : list World) (s : State) :
  Forall metaReadable ws → prefetching s →
  let s' := run stringWidth fmtTime chalkHex opts
              (map (fun w => (w, MetaWorker)) ws) s in
  prefetching s' ∧ pageItems s' = pageItems s
  ∧ turnsLeft s' = (turnsLeft s - length ws)%nat
  ∧ ∀ p, is_Some (metaCache s !! p) → is_Some (metaCache s' !! p).
Proof.
  revert s. induction ws as [|w ws IH]; intros s Hws Hs.
  - simpl. split; [exact Hs|]. split; [reflexivity|].
    split; [lia|intros p Hp; exact Hp].
  - apply Forall_cons in Hws as [Hw Hws].
    destruct (prefetching_turn w s Hw Hs) as (H1 & Hpi1 & Hleft1 & Hmono1).
    destruct (IH (metaWorkerTurn w s) Hws H1) as (H2 & Hpi2 & Hleft2 & Hmono2).
    simpl. split; [exact H2|]. split; [congruence|].
    split; [rewrite Hleft2, Hleft1; lia|].
    intros p Hp. apply Hmono2, Hmono1, Hp.
Qed.

Lemma prefetching_iter (w : World) (n : nat) (s : State) :
  metaReadable w → prefetching s →
  prefetching (Nat.iter n (metaWorkerTurn w) s)
  ∧ pageItems (Nat.iter n (metaWorkerTurn w) s) = pageItems s
  ∧ (turnsLeft (Nat.iter n (metaWorkerTurn w) s) ≤ turnsLeft s)%nat.
Proof.
  intros Hw Hs.
  induction n as [|n (H1 & H2 & H3)]; [split; [exact Hs|split; [reflexivity|simpl; lia]]|].
  simpl. destruct (prefetching_turn w _ Hw H1) as (H4 & H5 & H6 & _).
  split; [exact H4|]. split; [congruence|]. lia.
Qed.

Lemma summaryTurns_prefetching (w : World) (n : nat) (s : State) :
  prefetching s →
  prefetching (Nat.iter n (summaryWorkerTurn w) s)
  ∧ pageItems (Nat.iter n (summaryWorkerTurn w) s) = pageItems s
  ∧ turnsLeft (Nat.iter n (summaryWorkerTurn w) s) = turnsLeft s.
Proof.
  intros Hs.
  induction n as [|n (H1 & H2 & H3)]; [split; [exact Hs|split; reflexivity]|].
  simpl. set (t := Nat.iter n (summaryWorkerTurn w) s) in *. clearbody t.
  assert (Hfields : destroyed (summaryWorkerTurn w t) = destroyed t
                    ∧ idxLoad (summaryWorkerTurn w t) = idxLoad t
                    ∧ pageItems (summaryWorkerTurn w t) = pageItems t
                    ∧ metaWorkers (summaryWorkerTurn w t) = metaWorkers t
                    ∧ metaCache (summaryWorkerTurn w t) = metaCache t).
  { unfold summaryWorkerTurn. repeat case_match; try (repeat split; reflexivity).
    pose proof (skeleton_fields _ _ (skeleton_loadSummary w (idxSum t)
                                       (set_idxSum (idxSum t + 1) t))) as Hk.
    destruct Hk as (_ & _ & Hpi & _ & Hd & _ & _ & _ & Hil & _ & Hmw & _).
    rewrite metaCache_loadSummary. repeat split; assumption. }
  destruct Hfields as (Hd & Hil & Hpi & Hmw & Hmc).
  split; [revert H1; apply prefetching_ext; assumption|].
  split; [congruence|]. rewrite <- H3. apply turnsLeft_ext; assumption.
Qed.

Lemma prefetchStarted_ext (s s' : State) :
  destroyed s' = destroyed s → idxLoad s' = idxLoad s →
  pageItems s' = pageItems s → metaWorkers s' = metaWorkers s →
  metaCache s' = metaCache s →
  prefetchStarted s → prefetchStarted s'.
Proof.
  intros Hd Hil Hpi Hmw Hmc [Hp Hleft]. split.
  - revert Hp. apply prefetching_ext; assumption.
  - rewrite (turnsLeft_ext s s') by assumption. rewrite Hpi. exact Hleft.
Qed.

Lemma prefetchStarted_metaTurns (w : World) (n : nat) (s : State) :
  metaReadable w → prefetchStarted s →
  prefetchStarted (Nat.iter n (metaWorkerTurn w) s).
Proof.
  intros Hw [Hp Hleft].
  destruct (prefetching_iter w n s Hw Hp) as (H1 & H2 & H3).
  split; [exact H1|]. rewrite H2. lia.
Qed.

Lemma prefetchStarted_summaryTurns (w : World) (n : nat) (s : State) :
  prefetchStarted s → prefetchStarted (Nat.iter n (summaryWorkerTurn w) s).
Proof.
  intros [Hp Hleft].
  destruct (summaryTurns_prefetching w n s Hp) as (H1 & H2 & H3).
  split; [exact H1|]. rewrite H2, H3. exact Hleft.
Qed.

Lemma prefetchStarted_setSelectedIndex (i : Z) (s : State) :
  prefetchStarted s → prefetchStarted (setSelectedIndex i s).
Proof.
  destruct (setSelectedIndex_prefetch i s) as (? & ? & ? & ? & ?).
  apply prefetchStarted_ext; assumption.
Qed.

Lemma prefetchStarted_updatePreview (w : World) (i : Z) (s : State) :
  prefetchStarted s →
  prefetchStarted (updatePreviewForIndex stringWidth fmtTime chalkHex opts w i s).
Proof.
  pose proof (skeleton_fields _ _
                (skeleton_updatePreviewForIndex stringWidth fmtTime chalkHex opts
                   w i s)) as Hk.
  destruct Hk as (_ & _ & Hpi & _ & Hd & _ & _ & _ & Hil & _ & Hmw & _).
  apply prefetchStarted_ext; try assumption.
  apply updatePreview_metaCache.
Qed.

Lemma prefetchStarted_applyLayout (s : State) :
  prefetchStarted s → prefetchStarted (applyLayout s).
Proof.
  destruct (applyLayout_prefetch s) as (? & ? & ? & ? & ?).
  apply prefetchStarted_ext; assumption.
Qed.

Lemma prefetchStarted_set_sumWorkers (k : nat) (s : State) :
  prefetchStarted s → prefetchStarted (set_sumWorkers k s).
Proof. apply prefetchStarted_ext; reflexivity. Qed.

Lemma prefetchStarted_first_page (files : list SessionFile) (width : Z) :
  prefetchStarted (set_metaWorkers concurrency (updatePageItems (initialState files width))).
Proof.
  pose proof (core_fields _ _ (updatePageItems_core (initialState files width))) as Hc.
  pose proof (core_geometry _ _ (updatePageItems_core (initialState files width))) as Hg.
  set (s1 := updatePageItems (initialState files width)) in *.
  destruct Hc as (_ & _ & _ & _ & _ & _ & _ & _ & Hd & _).
  destruct Hg as (_ & _ & _ & _ & Hil & _).
  assert (Hd1 : destroyed s1 = false) by (rewrite Hd; reflexivity).
  assert (Hil1 : idxLoad s1 = 0) by (rewrite Hil; reflexivity).
  clearbody s1. clear Hd Hil. split.
  - unfold prefetching. simpl. rewrite Hd1, Hil1.
    split; [reflexivity|]. split; [lia|]. split; [discriminate|]. intros i g Hi. lia.
  - unfold turnsLeft, lengthZ. simpl. rewrite Hil1. lia.
Qed.

(** The picker starts with its prefetch on its way, and at most a turn
    for each item and each worker left. *)
Lemma startPicker_prefetching (w : World) (files : list SessionFile) (width : Z)
    (s0 : State) :
  metaReadable w →
  startPicker stringWidth fmtTime chalkHex opts w files width = Some s0 →
  prefetchStarted s0.
Proof.
  intros Hw. unfold startPicker. destruct files as [|f files]; [discriminate|].
  cbn [isEmpty]. cbv zeta. intros Hstart.
  assert (Hinj : ∀ a b : State, Some a = Some b → a = b) by (intros a b H; congruence).
  apply Hinj in Hstart. subst s0. clear Hinj.
  apply prefetchStarted_applyLayout, prefetchStarted_updatePreview,
    prefetchStarted_setSelectedIndex, prefetchStarted_summaryTurns,
    prefetchStarted_set_sumWorkers, prefetchStarted_metaTurns;
    [exact Hw|apply prefetchStarted_first_page].
Qed.

End Prefetch.

(** X19. When metadata can be read from every file, the workers started
    with the picker cache the metadata of every item of the first page:
    once they have had a turn for each item and each of the eight
    workers, none is left running and every page item has its entry. *)
Theorem prefetch_covers_the_first_page
    (stringWidth : jsstring → nat) (fmtTime : Z → jsstring)
    (chalkHex : jsstring → jsstring → text) (opts : Options)
    (w0 : World) (files : list SessionFile) (width : Z) (s0 : State)
    (ws : list World)
    (Hstart : startPicker stringWidth fmtTime chalkHex opts w0 files width = Some s0)
    (Hw0 : metaReadable w0) (Hws : Forall metaReadable ws)
    (Hturns : (length (pageItems s0) + concurrency ≤ length ws)%nat) :
  let s' := run stringWidth fmtTime chalkHex opts
              (map (fun w => (w, MetaWorker)) ws) s0 in
  metaWorkers s' = 0%nat
  ∧ pageItems s' = pageItems s0
  ∧ ∀ f, f ∈ pageItems s0 → is_Some (metaCache s' !! path f).
Proof.
  intros s'.
  destruct (startPicker_prefetching stringWidth fmtTime chalkHex opts
              w0 files width s0 Hw0 Hstart) as [H0 Hleft0].
  destruct (prefetching_run stringWidth fmtTime chalkHex opts ws s0 Hws H0)
    as (H1 & Hpi & Hleft & _).
  fold s' in H1, Hpi, Hleft.
  destruct (prefetching_done s' H1) as [Hnone Hall]; [lia|].
  split; [exact Hnone|]. split; [exact Hpi|].
  intros f Hin. apply Hall. rewrite Hpi. exact Hin.
Qed.

Lemma prefetch_covers_the_first_page_witness :
  let s' := run columns clock sgrHex sampleOpts
              (map (fun w => (w, MetaWorker)) (repeat sampleWorld 38)) started32 in
  metaWorkers s' = 0%nat
  ∧ pageItems s' = pageItems started32
  ∧ ∀ f, f ∈ pageItems started32 → is_Some (metaCache s' !! path f).
Proof.
  apply (prefetch_covers_the_first_page columns clock sgrHex sampleOpts
           sampleWorld files32 80 started32 (repeat sampleWorld 38)).
  - vm_compute. reflexivity.
  - intros p. eexists. reflexivity.
  - apply Forall_forall. intros w Hin. apply list_elem_of_In, repeat_spec in Hin.
    subst w. intros p. eexists. reflexivity.
  - vm_compute. lia.
Defined.

(** * The command handed to the shell *)

Lemma shWordsFrom_acc (s : jsstring) :
  ∀ mode cur words,
    shWordsFrom s mode cur words
    = (fun r => words ++ r) <$> shWordsFrom s mode cur [].
Proof.
  induction s as [|c r IH]; intros mode cur words; simpl.
  - destruct mode; simpl; reflexivity.
  - destruct mode.
    + destruct (shBlank c).
      * set (cw := match cur with Some w => [w] | None => [] end).
        rewrite (IH ShBare None (words ++ cw)), (IH ShBare None cw).
        destruct (shWordsFrom r ShBare None []); simpl; [|reflexivity].
        rewrite app_assoc. reflexivity.
      * destruct (c =? QUOTE)%N; [apply IH|].
        destruct (c =? BACKSLASH)%N; [apply IH|].
        destruct (shSpecial c); [reflexivity|apply IH].
    + destruct (c =? NL)%N; apply IH.
    + destruct (c =? QUOTE)%N; apply IH.
Qed.

Lemma shWordsFrom_escaped_quote (rest cur : jsstring) (words : list jsstring) :
  shWordsFrom (lit "'\''" ++ rest) ShSingle (Some cur) words
  = shWordsFrom rest ShSingle (Some (cur ++ [QUOTE])) words.
Proof. reflexivity. Qed.

(** Inside single quotes: the escaped text up to the closing quote is
    read back, character for character. *)
Lemma shWordsFrom_quoted (s rest : jsstring) :
  ∀ cur words,
    shWordsFrom
      (flat_map (fun c => if (c =? QUOTE)%N then lit "'\''" else [c]) s
       ++ QUOTE :: rest)
      ShSingle (Some cur) words
    = shWordsFrom rest ShBare (Some (cur ++ s)) words.
Proof.
  induction s as [|c s IH]; intros cur words.
  - simpl. rewrite app_nil_r. reflexivity.
  - cbn [flat_map]. destruct (N.eqb_spec c QUOTE) as [->|Hne].
    + rewrite <- app_assoc, shWordsFrom_escaped_quote, IH, <- app_assoc. reflexivity.
    + cbn [app shWordsFrom].
      destruct (N.eqb_spec c QUOTE) as [Heq|_]; [contradiction|].
      cbn [default]. rewrite IH, <- app_assoc. reflexivity.
Qed.

Lemma shWordsFrom_open_quote (t : jsstring) (cur : option jsstring)
    (words : list jsstring) :
  shWordsFrom (QUOTE :: t) ShBare cur words
  = shWordsFrom t ShSingle (Some (default [] cur)) words.
Proof. reflexivity. Qed.

Lemma shWordsFrom_shellQuote (s rest : jsstring) (cur : option jsstring)
    (words : list jsstring) :
  shWordsFrom (shellQuoteSingleArg s ++ rest) ShBare cur words
  = shWordsFrom rest ShBare (Some (default [] cur ++ s)) words.
Proof.
  unfold shellQuoteSingleArg. destruct s as [|c s].
  - cbn [isEmpty app]. rewrite shWordsFrom_open_quote.
    rewrite app_nil_r. reflexivity.
  - cbn [isEmpty]. rewrite <- !app_assoc. cbn [app].
    rewrite shWordsFrom_open_quote. apply shWordsFrom_quoted.
Qed.

(** X20. The quoted session id is one word to the shell, and that word
    is the id, whatever characters it holds: quotes, blanks, dollar
    signs or line breaks. *)
Theorem shell_reads_the_quoted_id_back (s : jsstring) :
  shWords (shellQuoteSingleArg s) = Some [s].
Proof.
  unfold shWords.
  rewrite <- (app_nil_r (shellQuoteSingleArg s)), shWordsFrom_shellQuote.
  reflexivity.
Qed.

Lemma shWordsFrom_ordinary (w rest : jsstring) :
  Forall (fun c => shOrdinary c = true) w →
  ∀ cur words,
    w ≠ [] →
    shWordsFrom (w ++ rest) ShBare cur words
    = shWordsFrom rest ShBare (Some (default [] cur ++ w)) words.
Proof.
  induction 1 as [|c w Hc Hw IH]; intros cur words Hne; [congruence|].
  unfold shOrdinary in Hc.
  apply andb_true_iff in Hc as [Hc Hspecial].
  apply andb_true_iff in Hc as [Hc Hback].
  apply andb_true_iff in Hc as [Hblank Hquote].
  apply negb_true_iff in Hblank, Hquote, Hback, Hspecial.
  cbn [app shWordsFrom]. rewrite Hblank, Hquote, Hback, Hspecial.
  destruct w as [|d w].
  - simpl. reflexivity.
  - rewrite IH by discriminate. cbn [default from_option id]. rewrite <- app_assoc. reflexivity.
Qed.

Lemma shWordsFrom_space (rest w : jsstring) (words : list jsstring) :
  shWordsFrom (SPACE :: rest) ShBare (Some w) words
  = shWordsFrom rest ShBare None (words ++ [w]).
Proof. reflexivity. Qed.

(** X21. To the shell the resume command is the base command, the word
    'resume' and the session id as one word, followed by the extra
    arguments as the shell reads them; blank extra arguments leave no
    trace. *)
Theorem resume_command_words (baseCmd sessionId extraArgs : jsstring)
    (extraWords : list jsstring)
    (Hbase : baseCmd ≠ [])
    (Hordinary : Forall (fun c => shOrdinary c = true) baseCmd)
    (Hextra : shWords (jsTrim extraArgs) = Some extraWords) :
  shWords (buildResumeCommand baseCmd sessionId extraArgs)
  = Some ([baseCmd; lit "resume"; sessionId] ++ extraWords).
Proof.
  unfold buildResumeCommand, filterBoolean.
  assert (Hq : shellQuoteSingleArg sessionId ≠ [])
    by (unfold shellQuoteSingleArg; destruct sessionId; discriminate).
  rewrite filter_cons_True by assumption.
  rewrite filter_cons_True by discriminate.
  rewrite filter_cons_True by assumption.
  assert (Hresume : Forall (fun c => shOrdinary c = true) (lit "resume"))
    by (repeat (apply Forall_cons; split; [reflexivity|]); apply Forall_nil; exact I).
  unfold shWords.
  assert (Hhead : ∀ tail,
            shWordsFrom (baseCmd ++ [SPACE] ++ lit "resume" ++ [SPACE]
                         ++ shellQuoteSingleArg sessionId ++ tail) ShBare None []
            = shWordsFrom tail ShBare (Some sessionId) [baseCmd; lit "resume"]).
  { intros tail.
    rewrite (shWordsFrom_ordinary baseCmd _ Hordinary) by assumption.
    cbn [app default]. rewrite shWordsFrom_space.
    rewrite (shWordsFrom_ordinary (lit "resume")
               ([SPACE] ++ shellQuoteSingleArg sessionId ++ tail) Hresume)
      by discriminate.
    cbn [app default]. rewrite shWordsFrom_space.
    rewrite shWordsFrom_shellQuote. reflexivity. }
  destruct (jsTrim extraArgs) as [|c extra] eqn:Htrim.
  - rewrite filter_cons_False by (intros H; apply H; reflexivity).
    rewrite filter_nil. cbn [joinWith].
    specialize (Hhead []). rewrite app_nil_r in Hhead.
    rewrite Hhead. unfold shWords in Hextra. simpl in Hextra.
    injection Hextra as <-. reflexivity.
  - rewrite filter_cons_True by discriminate. rewrite filter_nil. cbn [joinWith].
    specialize (Hhead ([SPACE] ++ c :: extra)). rewrite Hhead.
    cbn [app]. rewrite shWordsFrom_space, shWordsFrom_acc.
    unfold shWords in Hextra. rewrite Hextra. reflexivity.
Qed.

Lemma resume_command_words_witness :
  shWords (buildResumeCommand (lit "codex") (lit "it's; rm -rf $HOME")
             (lit "  --model o3 "))
  = Some [lit "codex"; lit "resume"; lit "it's; rm -rf $HOME";
          lit "--model"; lit "o3"].
Proof.
  apply (resume_command_words (lit "codex") (lit "it's; rm -rf $HOME")
           (lit "  --model o3 ") [lit "--model"; lit "o3"]).
  - discriminate.
  - repeat (apply Forall_cons; split; [reflexivity|]). apply Forall_nil. exact I.
  - vm_compute. reflexivity.
Defined.

(** ** Facts about parseArgs *)

Lemma collectHide_valid (rest : list jsstring) :
  Forall (fun t => t ∈ validHide) (collectHide rest).1.
Proof.
  induction rest as [|tok rest IH]; cbn [collectHide]; [constructor|].
  destruct (startsWith [DASH] tok); [constructor|].
  destruct (bool_decide (tok ∈ validHide)) eqn:Hv; [|constructor].
  destruct (collectHide rest) as [vals remain]. cbn [fst] in *.
  constructor; [apply bool_decide_eq_true in Hv; exact Hv|exact IH].
Qed.

Lemma collectHide_left (rest : list jsstring) :
  (length (collectHide rest).2 ≤ length rest)%nat.
Proof.
  induction rest as [|tok rest IH]; cbn [collectHide]; [simpl; lia|].
  destruct (startsWith [DASH] tok); [cbn [snd]; lia|].
  destruct (bool_decide (tok ∈ validHide)); [|cbn [snd]; lia].
  destruct (collectHide rest) as [vals remain]. cbn [snd length] in *. lia.
Qed.

Lemma hideWellFormed_other (name : jsstring) (v : ArgValue) (args : Args) :
  name ≠ lit "hide" → hideWellFormed args → hideWellFormed (setProp name v args).
Proof.
  intros Hne H x. unfold setProp. cbn [props].
  rewrite lookup_insert_ne by exact Hne. apply H.
Qed.

Lemma hideWellFormed_hide (vals : list jsstring) (args : Args) :
  vals ≠ [] → Forall (fun t => t ∈ validHide) vals →
  hideWellFormed (setProp (lit "hide") (VList vals) args).
Proof.
  intros Hne Hall x. unfold setProp. cbn [props].
  rewrite lookup_insert_eq. intros [= <-]. exists vals. auto.
Qed.

Lemma parseOption_hide (a : jsstring) (rest : list jsstring) (args : Args)
    (warned : list jsstring) :
  hideWellFormed args → hideWellFormed (parseOption a rest args warned).1.2.
Proof.
  intros H. unfold parseOption.
  destruct (keyValue a) as [k v].
  destruct (valueAfter rest v) as [x rest'].
  pose proof (collectHide_valid rest) as Hvalid.
  destruct (collectHide rest) as [vals remain]. cbn [fst] in Hvalid.
  repeat (case_bool_decide;
          [first [ apply hideWellFormed_other; [discriminate|exact H]
                 | cbn [fst snd]; apply hideWellFormed_hide;
                   [destruct vals; discriminate
                   |destruct vals;
                    [repeat (constructor; [vm_compute; set_solver|]);
                     constructor
                    |exact Hvalid]] ]|]).
  exact H.
Qed.

Lemma parseOption_left (a : jsstring) (rest : list jsstring) (args : Args)
    (warned : list jsstring) :
  (length (parseOption a rest args warned).1.1 ≤ length rest)%nat.
Proof.
  unfold parseOption.
  destruct (keyValue a) as [k v].
  pose proof (collectHide_left rest) as Hleft.
  destruct (collectHide rest) as [vals remain]. cbn [snd] in Hleft.
  assert (Hvalue : (length (valueAfter rest v).2 ≤ length rest)%nat)
    by (destruct rest; simpl; lia).
  destruct (valueAfter rest v) as [x rest']. cbn [snd] in Hvalue.
  repeat (case_bool_decide; [cbn [fst snd]; first [exact Hleft|exact Hvalue|lia]|]).
  cbn [fst snd]. lia.
Qed.

Lemma parseLoop_hide (fuel : nat) (rest : list jsstring) (args : Args)
    (warned : list jsstring) :
  hideWellFormed args → hideWellFormed (parseLoop fuel rest args warned).1.
Proof.
  revert rest args warned.
  induction fuel as [|fuel IH]; intros rest args warned H; [exact H|].
  destruct rest as [|a rest]; [exact H|]. cbn [parseLoop].
  destruct (negb (startsWith [DASH] a)).
  - apply IH. exact H.
  - pose proof (parseOption_hide a rest args warned H) as Hstep.
    destruct (parseOption a rest args warned) as [[remain args'] warned'].
    apply IH. exact Hstep.
Qed.

(** One turn of the loop takes at least one token: more fuel than
    tokens changes nothing. *)
Lemma parseLoop_fuel (fuel : nat) (rest : list jsstring) (args : Args)
    (warned : list jsstring) :
  (length rest ≤ fuel)%nat →
  parseLoop fuel rest args warned = parseLoop (length rest) rest args warned.
Proof.
  revert fuel args warned.
  induction rest as [rest IH] using (induction_ltof1 _ (@length jsstring)).
  unfold ltof in IH. intros fuel args warned Hfuel.
  destruct rest as [|a rest]; [destruct fuel; reflexivity|].
  destruct fuel as [|fuel]; [simpl in Hfuel; lia|].
  cbn [length parseLoop]. simpl in Hfuel.
  destruct (negb (startsWith [DASH] a)).
  - apply IH; simpl; lia.
  - pose proof (parseOption_left a rest args warned) as Hleft.
    destruct (parseOption a rest args warned) as [[remain args'] warned'].
    cbn [fst] in Hleft.
    rewrite (IH remain) by (simpl; lia).
    symmetry. apply IH; simpl; lia.
Qed.

(** X22. Whatever the command line, a hide option that parseArgs sets
    is a list that is not empty and holds only the names tool,
    thinking, user, assistant and system. *)
Theorem parseArgs_hide_is_well_formed (argv : list jsstring) (v : ArgValue)
    (Hset : props (parseArgs argv).1 !! lit "hide" = Some v) :
  ∃ vals, v = VList vals ∧ vals ≠ []
          ∧ Forall (fun t => t ∈ validHide) vals.
Proof.
  revert v Hset. apply parseLoop_hide.
  intros v Hv. cbn [props] in Hv. rewrite lookup_empty in Hv. discriminate.
Qed.

Lemma parseArgs_hide_is_well_formed_witness :
  ∃ vals, VList [lit "user"; lit "system"] = VList vals ∧ vals ≠ []
          ∧ Forall (fun t => t ∈ validHide) vals.
Proof.
  apply (parseArgs_hide_is_well_formed
           [lit "node"; lit "cxresume"; lit "--hide"; lit "user"; lit "system";
            lit "cwd"; lit "--hide=tool"; lit "user"; lit "system"]).
  vm_compute. reflexivity.
Defined.

Lemma parseLoop_positional (fuel : nat) (rest : list jsstring) (args : Args)
    (warned : list jsstring) :
  (length rest ≤ fuel)%nat →
  Forall (fun a => startsWith [DASH] a = false) rest →
  parseLoop fuel rest args warned
  = ({| positional := positional args ++ rest; props := props args |}, warned).
Proof.
  revert rest args warned.
  induction fuel as [|fuel IH]; intros rest args warned Hfuel Hall.
  - destruct rest; [|simpl in Hfuel; lia].
    rewrite app_nil_r. destruct args; reflexivity.
  - destruct rest as [|a rest].
    + rewrite app_nil_r. destruct args; reflexivity.
    + apply Forall_cons in Hall as [Ha Hall]. cbn [parseLoop]. rewrite Ha.
      cbn [negb]. rewrite IH; [|simpl in Hfuel; lia|exact Hall].
      unfold pushPositional. cbn [positional props].
      rewrite <- app_assoc. reflexivity.
Qed.

(** X23. A command line without a token that starts with a dash gives
    the tokens after the first two as the positional arguments, in
    order, sets no option and warns about nothing. *)
Theorem parseArgs_without_options (argv : list jsstring)
    (Hplain : Forall (fun a => startsWith [DASH] a = false) (drop 2 argv)) :
  parseArgs argv = ({| positional := drop 2 argv; props := ∅ |}, []).
Proof.
  unfold parseArgs. rewrite parseLoop_positional.
  - reflexivity.
  - rewrite length_drop. lia.
  - exact Hplain.
Qed.

Lemma parseArgs_without_options_witness :
  parseArgs [lit "node"; lit "cxresume"; lit "cwd"; lit "."]
  = ({| positional := [lit "cwd"; lit "."]; props := ∅ |}, []).
Proof.
  apply (parseArgs_without_options [lit "node"; lit "cxresume"; lit "cwd"; lit "."]).
  repeat (apply Forall_cons; split; [reflexivity|]). apply Forall_nil. exact I.
Defined.
